(** * quickrib: the RIB store, its path sanitizer and its observers

    A shallow embedding of [rib_table.py] and of the observers under
    [observers/] (graph, multigraph, path, update count), with the
    properties of the reconstruction engine proved over it.

    Conventions of the embedding:
    - Python [str] is [string]; only the ASCII range is modelled.
    - Python [int] is [Z].
    - a [dict] is a [gmap]; a [defaultdict] is a [gmap] whose missing keys
      are created by the accesses that create them in Python.
    - an exception is the [Raise] outcome of the [outcome] monad.
    - a [datetime] is a number of microseconds, the resolution of the type. *)

From Stdlib Require Import ZArith Lia Ascii String List Bool.
From stdpp Require Import gmap strings list fin_maps.

Import ListNotations.
Local Open Scope Z_scope.

Set Warnings "-clear-no-such-hyp".

(** * Exceptions *)

Inductive exn : Set :=
| KeyError
| ValueError
| IndexError
| AttributeError
| NotImplementedError
| TypeError.

Inductive outcome (A : Type) : Type :=
| Ok (a : A)
| Raise (e : exn).

Arguments Ok {A} a.
Arguments Raise {A} e.

Definition obind {A B : Type} (m : outcome A) (k : A -> outcome B) : outcome B :=
  match m with
  | Ok a => k a
  | Raise e => Raise e
  end.

Definition omap {A B : Type} (f : A -> B) (m : outcome A) : outcome B :=
  match m with
  | Ok a => Ok (f a)
  | Raise e => Raise e
  end.

#[global] Instance outcome_ret : MRet outcome := fun A a => Ok a.
#[global] Instance outcome_bind : MBind outcome := fun A B k m => obind m k.
#[global] Instance outcome_fmap : FMap outcome := fun A B f m => omap f m.

(** * Python string primitives *)

Module Py.

(** [sep in s] for a one-character [sep]. *)
Fixpoint contains (c : ascii) (s : string) : bool :=
  match s with
  | EmptyString => false
  | String d s' => if Ascii.eqb c d then true else contains c s'
  end.

(** [s.split(sep)] for a one-character [sep]: never empty, and an empty
    field between two adjacent separators. *)
Fixpoint split (sep : ascii) (s : string) : list string :=
  match s with
  | EmptyString => [EmptyString]
  | String c s' =>
      if Ascii.eqb c sep then EmptyString :: split sep s'
      else match split sep s' with
           | [] => [String c EmptyString]
           | t :: ts => String c t :: ts
           end
  end.

(** [[k for k, g in itertools.groupby(l)]]: one key per run of equal
    consecutive elements. *)
Fixpoint groupby_keys {A : Type} `{EqDecision A} (l : list A) : list A :=
  match l with
  | [] => []
  | x :: l' =>
      match l' with
      | [] => [x]
      | y :: _ => if decide (x = y) then groupby_keys l' else x :: groupby_keys l'
      end
  end.

(** The blanks [int()] drops at both ends of an ASCII text: TAB, LF, VT,
    FF, CR and the space. The separators FS, GS, RS and US, which
    [str.strip()] also takes for blanks, are refused by [int()]. The
    records of the decoder are ASCII texts; other characters are outside
    the model. *)
Definition is_space (c : ascii) : bool :=
  let n := nat_of_ascii c in
  ((9 <=? n)%nat && (n <=? 13)%nat) || (n =? 32)%nat.

Definition digit_of (c : ascii) : option Z :=
  let n := nat_of_ascii c in
  if ((48 <=? n)%nat && (n <=? 57)%nat) then Some (Z.of_nat n - 48) else None.

Fixpoint lstrip (l : list ascii) : list ascii :=
  match l with
  | c :: l' => if is_space c then lstrip l' else l
  | [] => []
  end.

Definition strip (l : list ascii) : list ascii :=
  rev (lstrip (rev (lstrip l))).

(** The digits after the first one: a digit, or one underscore followed by
    a digit. *)
Fixpoint int_digits (acc : Z) (l : list ascii) : option Z :=
  match l with
  | [] => Some acc
  | c :: l' =>
      if Ascii.eqb c "_" then
        match l' with
        | d :: l'' =>
            match digit_of d with
            | Some v => int_digits (10 * acc + v) l''
            | None => None
            end
        | [] => None
        end
      else
        match digit_of c with
        | Some v => int_digits (10 * acc + v) l'
        | None => None
        end
  end.

(** [sys.int_info.default_max_str_digits]: [int()] raises [ValueError]
    for a text in base ten with more digits (CPython 3.11 and later, and
    the security releases of 3.7 to 3.10). *)
Definition int_max_str_digits : Z := 4300.

(** The number of digits of a text, its underscores left out. *)
Fixpoint n_digits (l : list ascii) : nat :=
  match l with
  | [] => 0%nat
  | c :: l' =>
      match digit_of c with
      | Some _ => S (n_digits l')
      | None => n_digits l'
      end
  end.

Definition int_unsigned (l : list ascii) : option Z :=
  match l with
  | c :: l' =>
      match digit_of c with
      | Some v =>
          if int_max_str_digits <? Z.of_nat (n_digits l) then None
          else int_digits v l'
      | None => None
      end
  | [] => None
  end.

(** [int(s)] in base ten; [None] is [ValueError]. Surrounding whitespace
    is dropped, one sign is accepted, single underscores may separate
    digits, and a text of more than [int_max_str_digits] digits is
    refused. Digits outside ASCII are outside the model. *)
Definition int (s : string) : option Z :=
  match strip (list_ascii_of_string s) with
  | [] => None
  | c :: l' =>
      if Ascii.eqb c "+" then int_unsigned l'
      else if Ascii.eqb c "-" then Z.opp <$> int_unsigned l'
      else int_unsigned (c :: l')
  end.

End Py.

(** * The path sanitizer ([rib_table.py]) *)

Abbreviation path := (list Z).

(** [[int(k) for k, g in groupby(as_path.split(" "))]]; [None] is the
    [ValueError] of the first token [int] refuses. *)
Definition parse_as_path (as_path : string) : option path :=
  mapM Py.int (Py.groupby_keys (Py.split " " as_path)).

(** [is_valid_path(path, peer_asn)]: [len(path) > 1 and path[0] == peer_asn]. *)
Definition is_valid_path (p : path) (peer_asn : Z) : bool :=
  (1 <? Z.of_nat (length p)) &&
  match p with
  | a :: _ => a =? peer_asn
  | [] => false
  end.

(** * Graphs of networkx

    networkx is a dependency of the repository, not part of it. The graphs
    are modelled by what the observers use of them: a graph is its set of
    vertices and a finite map from edges to their [paths_count] attribute.
    An edge of [nx.Graph] is identified by its two ends whatever their
    order ([G[u][v]] and [G[v][u]] are one attribute dictionary); an edge
    of [nx.MultiGraph] by its two ends and its key. *)

Module nx.

Section Counted.
Context {K : Type} `{Countable K}.

Record graph : Type := mk_graph {
  nodes : gset Z;
  counts : gmap K Z;
}.

Definition empty : graph := {| nodes := ∅; counts := ∅ |}.

(** [G.add_edge(u, v, ..., paths_count=c)] on the edge of identity [k]:
    both ends become vertices. *)
Definition add_edge (g : graph) (u v : Z) (k : K) (c : Z) : graph :=
  {| nodes := {[u]} ∪ {[v]} ∪ nodes g; counts := <[k := c]> (counts g) |}.

(** [G.remove_edge(u, v, ...)]: the vertices stay. *)
Definition remove_edge (g : graph) (k : K) : graph :=
  {| nodes := nodes g; counts := delete k (counts g) |}.

(** Assignment to the [paths_count] attribute of an existing edge. *)
Definition set_count (g : graph) (k : K) (c : Z) : graph :=
  {| nodes := nodes g; counts := <[k := c]> (counts g) |}.
End Counted.

Arguments graph K {_ _}.

(** The identity of the undirected edge between [u] and [v]. *)
Definition edge_key (u v : Z) : Z * Z :=
  if u <=? v then (u, v) else (v, u).

Abbreviation Graph := (graph (Z * Z)).
Abbreviation MultiGraph := (graph (Z * Z * string)).

(** The ends of the edges of a [Graph]. *)
Definition touched (g : Graph) : gset Z :=
  set_fold (fun (k : Z * Z) (acc : gset Z) => {[k.1]} ∪ {[k.2]} ∪ acc) ∅
    (dom (counts g)).

(** [G.remove_nodes_from(list(nx.isolates(G)))]: the vertices of degree
    zero leave the graph. *)
Definition remove_isolates (g : Graph) : Graph :=
  {| nodes := nodes g ∩ touched g; counts := counts g |}.

End nx.

(** * Observers ([observers/]) *)

Inductive family : Set := IPv4 | IPv6.

#[global] Instance family_eq_dec : EqDecision family.
Proof. solve_decision. Defined.

(** The consecutive pairs [path[l], path[l+1]] for [l] in
    [range(0, len(path) - 1)]. *)
Fixpoint hops (p : path) : list (Z * Z) :=
  match p with
  | [] => []
  | u :: p' =>
      match p' with
      | [] => []
      | v :: _ => (u, v) :: hops p'
      end
  end.

(** The interface of [observers/observer.py]; [dump] and [compare] are
    treated apart. The truth value of [old_path] decides what an
    announcement does: [None] and the empty list are false. *)
Class Observer (A : Type) : Type := {
  add_path : family -> string -> string -> string -> path -> A -> A;
  update_withdrawal : family -> string -> string -> string -> path -> A -> A;
  update_announcement :
    family -> string -> string -> string -> path -> option path -> A -> A;
}.

Definition truthy (old_path : option path) : option path :=
  match old_path with
  | Some ((_ :: _) as o) => Some o
  | _ => None
  end.

(** ** Graph observers ([observers/graph.py]) *)

Section GraphPaths.
Context {K : Type} `{Countable K}.
(** The identity of the edge that one hop of a path touches. *)
Variable edge_of : Z -> Z -> K.

(** One turn of the loop of [_remove_path]:
    [as_graph[u][v][...]['paths_count'] -= 1], the edge removed when the
    count is zero, and [KeyError] passed over. *)
Definition remove_hop (g : nx.graph K) (h : Z * Z) : nx.graph K :=
  let k := edge_of h.1 h.2 in
  match nx.counts g !! k with
  | Some c =>
      let g' := nx.set_count g k (c - 1) in
      if c - 1 =? 0 then nx.remove_edge g' k else g'
  | None => g
  end.

(** One turn of the loop of [_add_path]:
    [as_graph[u][v][...]['paths_count'] += 1], and on [KeyError]
    [as_graph.add_edge(u, v, ..., paths_count=1)]. *)
Definition add_hop (g : nx.graph K) (h : Z * Z) : nx.graph K :=
  let k := edge_of h.1 h.2 in
  match nx.counts g !! k with
  | Some c => nx.set_count g k (c + 1)
  | None => nx.add_edge g h.1 h.2 k 1
  end.

Definition graph_remove_path (g : nx.graph K) (p : path) : nx.graph K :=
  fold_left remove_hop (hops p) g.

Definition graph_add_path (g : nx.graph K) (p : path) : nx.graph K :=
  fold_left add_hop (hops p) g.
End GraphPaths.

(** [_add_path] and [_remove_path] of a graph observer whose edges are
    identified by [edge_of] from the collector and the peer of the call. *)
Definition add_with {K : Type} `{Countable K} (edge_of : string -> string -> Z -> Z -> K)
    (rc peer_ip : string) : nx.graph K -> path -> nx.graph K :=
  graph_add_path (edge_of rc peer_ip).

Definition remove_with {K : Type} `{Countable K}
    (edge_of : string -> string -> Z -> Z -> K)
    (rc peer_ip : string) : nx.graph K -> path -> nx.graph K :=
  graph_remove_path (edge_of rc peer_ip).

(** The two graphs of a graph observer, [_graph_ipv4] and [_graph_ipv6]. *)
Record graphs (K : Type) `{Countable K} : Type := mk_graphs {
  graph_ipv4 : nx.graph K;
  graph_ipv6 : nx.graph K;
}.

Arguments mk_graphs {K _ _} _ _.
Arguments graph_ipv4 {K _ _} _.
Arguments graph_ipv6 {K _ _} _.

Definition on_family {K : Type} `{Countable K}
    (f : nx.graph K -> nx.graph K) (fam : family) (o : graphs K) : graphs K :=
  match fam with
  | IPv4 => mk_graphs (f (graph_ipv4 o)) (graph_ipv6 o)
  | IPv6 => mk_graphs (graph_ipv4 o) (f (graph_ipv6 o))
  end.

(** [BaseGraphObserver]: the six callbacks in terms of [_add_path] and
    [_remove_path], which take the collector and the peer as keywords. *)
Section BaseGraphObserver.
Context {K : Type} `{Countable K}.
Variable _add_path : string -> string -> nx.graph K -> path -> nx.graph K.
Variable _remove_path : string -> string -> nx.graph K -> path -> nx.graph K.

Definition base_add_path (fam : family) (rc peer_ip pfx : string) (p : path)
    (o : graphs K) : graphs K :=
  on_family (fun g => _add_path rc peer_ip g p) fam o.

Definition base_update_withdrawal (fam : family) (rc peer_ip pfx : string)
    (p : path) (o : graphs K) : graphs K :=
  on_family (fun g => _remove_path rc peer_ip g p) fam o.

Definition base_update_announcement (fam : family) (rc peer_ip pfx : string)
    (new_path : path) (old_path : option path) (o : graphs K) : graphs K :=
  match truthy old_path with
  | Some old =>
      on_family
        (fun g => _add_path rc peer_ip (_remove_path rc peer_ip g old) new_path)
        fam o
  | None => on_family (fun g => _add_path rc peer_ip g new_path) fam o
  end.
End BaseGraphObserver.

Module ASGraphObserver.
Abbreviation t := (graphs (Z * Z)).

Definition init : t := mk_graphs nx.empty nx.empty.

Definition _remove_path (rc peer_ip : string) (g : nx.Graph) (p : path) : nx.Graph :=
  graph_remove_path nx.edge_key g p.

Definition _add_path (rc peer_ip : string) (g : nx.Graph) (p : path) : nx.Graph :=
  graph_add_path nx.edge_key g p.

(** [compare]: the isolated vertices of the own IPv4 graph are removed
    before the graphs are compared. What [compare_weighted_graphs] finds
    is only logged. *)
Definition compare (o : t) : t :=
  mk_graphs (nx.remove_isolates (graph_ipv4 o)) (graph_ipv6 o).
End ASGraphObserver.

#[global] Instance ASGraphObserver_Observer : Observer ASGraphObserver.t := {
  add_path := base_add_path ASGraphObserver._add_path;
  update_withdrawal := base_update_withdrawal ASGraphObserver._remove_path;
  update_announcement :=
    base_update_announcement ASGraphObserver._add_path ASGraphObserver._remove_path;
}.

Module ASMultiGraphObserver.
Abbreviation t := (graphs (Z * Z * string)).

Definition init : t := mk_graphs nx.empty nx.empty.

(** [key = f"{kwargs['rc']}_{kwargs['peer_ip']}"] *)
Definition key (rc peer_ip : string) : string :=
  String.append rc (String "_" peer_ip).

Definition edge_of (rc peer_ip : string) (u v : Z) : Z * Z * string :=
  (nx.edge_key u v, key rc peer_ip).

Definition _remove_path (rc peer_ip : string) (g : nx.MultiGraph) (p : path)
    : nx.MultiGraph :=
  graph_remove_path (edge_of rc peer_ip) g p.

Definition _add_path (rc peer_ip : string) (g : nx.MultiGraph) (p : path)
    : nx.MultiGraph :=
  graph_add_path (edge_of rc peer_ip) g p.
End ASMultiGraphObserver.

#[global] Instance ASMultiGraphObserver_Observer : Observer ASMultiGraphObserver.t := {
  add_path := base_add_path ASMultiGraphObserver._add_path;
  update_withdrawal := base_update_withdrawal ASMultiGraphObserver._remove_path;
  update_announcement :=
    base_update_announcement ASMultiGraphObserver._add_path
      ASMultiGraphObserver._remove_path;
}.

(** ** Path observer ([observers/path.py]) *)

Module PathObserver.
(** [paths_count], a [defaultdict(int)] keyed by the path as a tuple. *)
Abbreviation t := (gmap path Z).

Definition init : t := ∅.

(** [self.paths_count[tuple(path)] += 1] *)
Definition _add_path (pc : t) (p : path) : t :=
  <[p := default 0 (pc !! p) + 1]> pc.

(** [self.paths_count[path] -= 1], then the entry is popped when it is
    [<= 0]. *)
Definition _remove_path (pc : t) (p : path) : t :=
  let pc' := <[p := default 0 (pc !! p) - 1]> pc in
  if default 0 (pc' !! p) <=? 0 then delete p pc' else pc'.
End PathObserver.

#[global] Instance PathObserver_Observer : Observer PathObserver.t := {
  add_path := fun _ _ _ _ p pc => PathObserver._add_path pc p;
  update_withdrawal := fun _ _ _ _ p pc => PathObserver._remove_path pc p;
  update_announcement := fun _ _ _ _ new_path old_path pc =>
    match truthy old_path with
    | Some old => PathObserver._add_path (PathObserver._remove_path pc old) new_path
    | None => PathObserver._add_path pc new_path
    end;
}.

(** ** Update counter ([observers/update_count.py]) *)

Module UpdateCountObserver.
Record t : Type := mk {
  n_updates : gmap string Z;
  n_withdrawals_ipv4 : gmap string Z;
  n_withdrawals_ipv6 : gmap string Z;
  n_announcements_ipv4 : gmap string Z;
  n_announcements_ipv6 : gmap string Z;
  n_updates_per_peer : gmap string (gmap string Z);
}.

Definition init : t := mk ∅ ∅ ∅ ∅ ∅ ∅.

(** [d[k] += 1] on a [defaultdict(int)] *)
Definition incr (k : string) (d : gmap string Z) : gmap string Z :=
  <[k := default 0 (d !! k) + 1]> d.

(** [d[rc][peer_ip] += 1] on a [defaultdict(lambda: defaultdict(int))] *)
Definition incr2 (rc peer_ip : string) (d : gmap string (gmap string Z))
    : gmap string (gmap string Z) :=
  <[rc := incr peer_ip (default ∅ (d !! rc))]> d.

Definition withdrawal (fam : family) (rc peer_ip : string) (o : t) : t :=
  match fam with
  | IPv4 =>
      mk (incr rc (n_updates o)) (incr rc (n_withdrawals_ipv4 o))
         (n_withdrawals_ipv6 o) (n_announcements_ipv4 o) (n_announcements_ipv6 o)
         (incr2 rc peer_ip (n_updates_per_peer o))
  | IPv6 =>
      mk (incr rc (n_updates o)) (n_withdrawals_ipv4 o)
         (incr rc (n_withdrawals_ipv6 o)) (n_announcements_ipv4 o)
         (n_announcements_ipv6 o) (incr2 rc peer_ip (n_updates_per_peer o))
  end.

Definition announcement (fam : family) (rc peer_ip : string) (o : t) : t :=
  match fam with
  | IPv4 =>
      mk (incr rc (n_updates o)) (n_withdrawals_ipv4 o) (n_withdrawals_ipv6 o)
         (incr rc (n_announcements_ipv4 o)) (n_announcements_ipv6 o)
         (incr2 rc peer_ip (n_updates_per_peer o))
  | IPv6 =>
      mk (incr rc (n_updates o)) (n_withdrawals_ipv4 o) (n_withdrawals_ipv6 o)
         (n_announcements_ipv4 o) (incr rc (n_announcements_ipv6 o))
         (incr2 rc peer_ip (n_updates_per_peer o))
  end.
End UpdateCountObserver.

#[global] Instance UpdateCountObserver_Observer : Observer UpdateCountObserver.t := {
  add_path := fun _ _ _ _ _ o => o;
  update_withdrawal := fun fam rc peer_ip _ _ o =>
    UpdateCountObserver.withdrawal fam rc peer_ip o;
  update_announcement := fun fam rc peer_ip _ _ _ o =>
    UpdateCountObserver.announcement fam rc peer_ip o;
}.

(** ** The observers a store can hold *)

Inductive observer_state : Type :=
| OGraph (o : ASGraphObserver.t)
| OMultiGraph (o : ASMultiGraphObserver.t)
| OUpdateCount (o : UpdateCountObserver.t)
| OPath (o : PathObserver.t).

Definition lift_observer
    (fg : ASGraphObserver.t -> ASGraphObserver.t)
    (fm : ASMultiGraphObserver.t -> ASMultiGraphObserver.t)
    (fu : UpdateCountObserver.t -> UpdateCountObserver.t)
    (fp : PathObserver.t -> PathObserver.t)
    (o : observer_state) : observer_state :=
  match o with
  | OGraph g => OGraph (fg g)
  | OMultiGraph g => OMultiGraph (fm g)
  | OUpdateCount c => OUpdateCount (fu c)
  | OPath pc => OPath (fp pc)
  end.

#[global] Instance observer_state_Observer : Observer observer_state := {
  add_path := fun fam rc peer_ip pfx p =>
    lift_observer (add_path fam rc peer_ip pfx p) (add_path fam rc peer_ip pfx p)
      (add_path fam rc peer_ip pfx p) (add_path fam rc peer_ip pfx p);
  update_withdrawal := fun fam rc peer_ip pfx p =>
    lift_observer (update_withdrawal fam rc peer_ip pfx p)
      (update_withdrawal fam rc peer_ip pfx p)
      (update_withdrawal fam rc peer_ip pfx p)
      (update_withdrawal fam rc peer_ip pfx p);
  update_announcement := fun fam rc peer_ip pfx new_path old_path =>
    lift_observer (update_announcement fam rc peer_ip pfx new_path old_path)
      (update_announcement fam rc peer_ip pfx new_path old_path)
      (update_announcement fam rc peer_ip pfx new_path old_path)
      (update_announcement fam rc peer_ip pfx new_path old_path);
}.

(** An observer as the store holds it: its [name] and its state. *)
Record observer : Type := mk_observer {
  name : string;
  state : observer_state;
}.

Definition on_state (f : observer_state -> observer_state) (o : observer) : observer :=
  {| name := name o; state := f (state o) |}.

(** * The RIB store ([rib_table.py]) *)

(** A record of the decoder, already split at its [|] separators. *)
Abbreviation fields := (list string).

(** A record of an update file: its fields, and the instant
    [datetime.utcfromtimestamp(float(update[1]))], whose reading from the
    text is not modelled. *)
Record update_record : Type := mk_update {
  update_ts : Z;
  update_fields : fields;
}.

(** A peer's table and a collector's table. *)
Abbreviation pfx_to_path := (gmap string path).
Abbreviation peer_to_pfx_to_path := (gmap string (gmap string path)).

(** [timedelta(seconds=1)] *)
Definition one_second : Z := 1000000.

(** The family the store reads off a prefix: [if "." in pfx], or else
    [elif ":" in pfx]. *)
Definition family_of (pfx : string) : option family :=
  if Py.contains "." pfx then Some IPv4
  else if Py.contains ":" pfx then Some IPv6
  else None.

(** What is written to the log by [compare]; the percentages that follow
    the three numbers of [InfoRibDiff] are left out. *)
Inductive log_record : Type :=
| InfoRibCheck (peer_ip rc : string)
| InfoNoRibError
| InfoRibDiff (added removed modified : nat)
| ErrorPeerMissing.

(** [dict_diff(dict1, dict2)] *)
Definition dict_diff (dict1 dict2 : pfx_to_path)
    : pfx_to_path * pfx_to_path * gmap string (path * path) :=
  let added := filter (fun kv => dict1 !! kv.1 = None) dict2 in
  let removed := filter (fun kv => dict2 !! kv.1 = None) dict1 in
  let modified :=
    merge (fun a b =>
             match a, b with
             | Some x, Some y => if decide (x = y) then None else Some (x, y)
             | _, _ => None
             end) dict1 dict2 in
  (added, removed, modified).

(** The result of one turn of a loop that may [return]. *)
Inductive turn (A : Type) : Type :=
| Continue (a : A)
| Return (a : A).

Arguments Continue {A} a.
Arguments Return {A} a.

Module RIBTable.

Record t : Type := mk {
  _observers : list observer;
  data : gmap string (gmap string (gmap string path));
  stop_updating : gmap string bool;
  peer_ip_filter : list string;
  ts_start : Z;
  ts_end : Z;
}.

(** [__init__] *)
Definition init (peer_ip_filter : list string) (ts_start ts_end : Z) : t :=
  mk [] ∅ ∅ peer_ip_filter ts_start ts_end.

Definition attach_observer (self : t) (o : observer) : t :=
  mk (_observers self ++ [o]) (data self) (stop_updating self)
     (peer_ip_filter self) (ts_start self) (ts_end self).

(** The [_notify_*] methods: every observer, in the order of attachment. *)
Definition _notify_add_path (fam : family) (rc peer_ip pfx : string) (p : path)
    (obs : list observer) : list observer :=
  on_state (add_path fam rc peer_ip pfx p) <$> obs.

Definition _notify_update_announcement (fam : family) (rc peer_ip pfx : string)
    (new_path : path) (old_path : option path) (obs : list observer) : list observer :=
  on_state (update_announcement fam rc peer_ip pfx new_path old_path) <$> obs.

Definition _notify_update_withdrawal (fam : family) (rc peer_ip pfx : string)
    (p : path) (obs : list observer) : list observer :=
  on_state (update_withdrawal fam rc peer_ip pfx p) <$> obs.

(** The dispatch on the prefix around each notification: nothing is sent
    for a prefix of neither family. *)
Definition notify_by_family (pfx : string)
    (send : family -> list observer -> list observer) (obs : list observer)
    : list observer :=
  match family_of pfx with
  | Some fam => send fam obs
  | None => obs
  end.

(** The observers and the table of the collector that a loop works on. *)
Abbreviation work := (list observer * peer_to_pfx_to_path)%type.

(** ** [build] *)

(** The body of the loop of [_build_rib_from_url] for one line. The
    counters of invalid entries only feed the log. *)
Definition build_line (peer_ip_filter : list string) (rc : string) (res : fields)
    (w : work) : outcome work :=
  match take 4 (drop 3 res) with
  | [peer_ip; peer_asn; pfx; as_path] =>
      match Py.int peer_asn with
      | None => Raise ValueError
      | Some peer_asn =>
          if bool_decide (peer_ip_filter = []) || bool_decide (peer_ip ∈ peer_ip_filter)
          then
            match parse_as_path as_path with
            | Some p =>
                if is_valid_path p peer_asn then
                  Ok (notify_by_family pfx
                        (fun fam => _notify_add_path fam rc peer_ip pfx p) w.1,
                      <[peer_ip := <[pfx := p]> (default ∅ (w.2 !! peer_ip))]> w.2)
                else Ok w
            | None => Ok w
            end
          else Ok w
      end
  | _ => Raise ValueError
  end.

Fixpoint build_lines (peer_ip_filter : list string) (rc : string)
    (lines : list fields) (w : work) : outcome work :=
  match lines with
  | [] => Ok w
  | res :: lines' =>
      w' ← build_line peer_ip_filter rc res w;
      build_lines peer_ip_filter rc lines' w'
  end.

(** [_build_rib_from_url(url, rc)], given the lines the decoder prints for
    [url]: the table starts as an empty [defaultdict(dict)]. *)
Definition _build_rib_from_url (peer_ip_filter : list string) (rc : string)
    (lines : list fields) (obs : list observer) : outcome work :=
  build_lines peer_ip_filter rc lines (obs, ∅).

(** The dictionary comprehension of [build], collector by collector. *)
Fixpoint build_data (peer_ip_filter : list string)
    (rc_to_url : list (string * list fields))
    (acc : list observer * gmap string peer_to_pfx_to_path)
    : outcome (list observer * gmap string peer_to_pfx_to_path) :=
  match rc_to_url with
  | [] => Ok acc
  | (rc, lines) :: rest =>
      w ← _build_rib_from_url peer_ip_filter rc lines acc.1;
      build_data peer_ip_filter rest (w.1, <[rc := w.2]> acc.2)
  end.

(** [{rc: False for rc in rc_to_url}] *)
Definition all_false {A : Type} (rc_to_url : list (string * A)) : gmap string bool :=
  fold_left (fun m e => <[e.1 := false]> m) rc_to_url ∅.

Definition build (self : t) (rc_to_url : list (string * list fields)) : outcome t :=
  r ← build_data (peer_ip_filter self) rc_to_url (_observers self, ∅);
  Ok (mk r.1 r.2 (all_false rc_to_url)
         (peer_ip_filter self) (ts_start self) (ts_end self)).

(** ** [update] *)

(** The removal of a stale entry, as written three times in
    [_update_rib_from_url]: [if pfx in rib[peer_ip]], the withdrawal is
    notified by family and the entry is popped. *)
Definition purge (rc peer_ip pfx : string) (routes : pfx_to_path) (w : work) : work :=
  match routes !! pfx with
  | Some old =>
      (notify_by_family pfx
         (fun fam => _notify_update_withdrawal fam rc peer_ip pfx old) w.1,
       <[peer_ip := delete pfx routes]> w.2)
  | None => w
  end.

(** The body of the loop of [_update_rib_from_url] for one record, after
    the two tests on its instant. *)
Definition apply_update (peer_ip_filter : list string) (rc : string)
    (update : fields) (w : work) : outcome work :=
  match update !! 2%nat, update !! 3%nat, update !! 5%nat with
  | Some update_type, Some peer_ip, Some pfx =>
      if negb (bool_decide (peer_ip_filter = []))
         && negb (bool_decide (peer_ip ∈ peer_ip_filter))
      then Ok w
      else if bool_decide (length update = 6%nat) && String.eqb update_type "W" then
        match w.2 !! peer_ip with
        | Some routes => Ok (purge rc peer_ip pfx routes w)
        | None => Ok w
        end
      else if bool_decide (length update = 15%nat) && String.eqb update_type "A" then
        match Py.int (default EmptyString (update !! 4%nat)) with
        | None => Raise ValueError
        | Some peer_asn =>
            let as_path := default EmptyString (update !! 6%nat) in
            match w.2 !! peer_ip with
            | Some routes =>
                match parse_as_path as_path with
                | None => Ok (purge rc peer_ip pfx routes w)
                | Some new_path =>
                    if is_valid_path new_path peer_asn then
                      Ok (notify_by_family pfx
                            (fun fam =>
                               _notify_update_announcement fam rc peer_ip pfx new_path
                                 (routes !! pfx)) w.1,
                          <[peer_ip := <[pfx := new_path]> routes]> w.2)
                    else Ok (purge rc peer_ip pfx routes w)
                end
            | None => Ok w
            end
        end
      else Ok w
  | _, _, _ => Raise IndexError
  end.

(** One turn of the loop: the record is skipped before [ts_start], ends
    the stream after [ts_end + timedelta(seconds=1)], and is applied
    otherwise. *)
Definition update_turn (peer_ip_filter : list string) (ts_start ts_end : Z)
    (rc : string) (u : update_record) (w : work) : outcome (turn work) :=
  if update_ts u <? ts_start then Ok (Continue w)
  else if ts_end + one_second <? update_ts u then Ok (Return w)
  else Continue <$> apply_update peer_ip_filter rc (update_fields u) w.

(** The loop over the records of one file; the boolean tells whether the
    loop ended on [self.stop_updating[rc] = True; return]. *)
Fixpoint update_loop (peer_ip_filter : list string) (ts_start ts_end : Z)
    (rc : string) (stream : list update_record) (w : work) : outcome (work * bool) :=
  match stream with
  | [] => Ok (w, false)
  | u :: stream' =>
      r ← update_turn peer_ip_filter ts_start ts_end rc u w;
      match r with
      | Continue w' => update_loop peer_ip_filter ts_start ts_end rc stream' w'
      | Return w' => Ok (w', true)
      end
  end.

(** [_update_rib_from_url(rib, url, rc)] with [rib = self.data[rc]], given
    the records the decoder prints for [url]. *)
Definition _update_rib_from_url (self : t) (rib : peer_to_pfx_to_path)
    (stream : list update_record) (rc : string) : outcome t :=
  r ← update_loop (peer_ip_filter self) (ts_start self) (ts_end self) rc stream
        (_observers self, rib);
  Ok (mk r.1.1 (<[rc := r.1.2]> (data self))
         (if (r.2 : bool) then <[rc := true]> (stop_updating self)
          else stop_updating self)
         (peer_ip_filter self) (ts_start self) (ts_end self)).

(** [update(rc_to_url)]: [self.data[rc]] raises [KeyError] for a collector
    that was not built. *)
Fixpoint update (self : t) (rc_to_url : list (string * list update_record))
    : outcome t :=
  match rc_to_url with
  | [] => Ok self
  | (rc, stream) :: rest =>
      match data self !! rc with
      | None => Raise KeyError
      | Some rib =>
          self' ← _update_rib_from_url self rib stream rc;
          update self' rest
      end
  end.

(** ** [compare] *)

(** The body of the inner loop over the peers of a collector. The table of
    the other store is a [defaultdict(dict)]: reading a peer it lacks
    creates the peer with an empty table. What the [try] block computes
    cannot raise, so its [except KeyError] branch is never taken. *)
Definition compare_peer (rc peer_ip : string) (own_routes : pfx_to_path)
    (acc : peer_to_pfx_to_path * list log_record)
    : peer_to_pfx_to_path * list log_record :=
  let other_rib := <[peer_ip := default ∅ (acc.1 !! peer_ip)]> acc.1 in
  let other_routes := default ∅ (acc.1 !! peer_ip) in
  if bool_decide (size other_routes = 0%nat) then (other_rib, acc.2)
  else
    let d := dict_diff own_routes other_routes in
    let counts := (size d.1.1, size d.1.2, size d.2) in
    (other_rib,
     acc.2 ++ [InfoRibCheck peer_ip rc;
               if bool_decide (counts = (0, 0, 0)%nat) then InfoNoRibError
               else InfoRibDiff (size d.1.1) (size d.1.2) (size d.2)]).

(** The loop over the collectors of [self.data]; [other.data[rc]] raises
    [KeyError] outside of the [try] block. *)
Fixpoint compare_ribs (own : list (string * peer_to_pfx_to_path))
    (acc : gmap string peer_to_pfx_to_path * list log_record)
    : outcome (gmap string peer_to_pfx_to_path * list log_record) :=
  match own with
  | [] => Ok acc
  | (rc, own_rib) :: rest =>
      if bool_decide (own_rib = ∅) then compare_ribs rest acc
      else
        match acc.1 !! rc with
        | None => Raise KeyError
        | Some other_rib =>
            let r := fold_left
                       (fun a e => compare_peer rc e.1 e.2 a)
                       (map_to_list own_rib) (other_rib, acc.2) in
            compare_ribs rest (<[rc := r.1]> acc.1, r.2)
        end
  end.

(** [own_observer.compare(other_observer)] by the class of the own
    observer: the graph observer prunes its graph and then reads
    [other.graph_ipv4]; the multigraph observer inherits the method of
    [Observer], which raises; the two others do nothing. *)
Definition observer_compare (own other : observer_state) : outcome observer_state :=
  match own with
  | OGraph g =>
      match other with
      | OGraph _ | OMultiGraph _ => Ok (OGraph (ASGraphObserver.compare g))
      | OUpdateCount _ | OPath _ => Raise AttributeError
      end
  | OMultiGraph _ => Raise NotImplementedError
  | OUpdateCount _ | OPath _ => Ok own
  end.

(** [for own_observer in self._observers] for one observer of the other
    store. *)
Fixpoint compare_with (other : observer) (own : list observer) : outcome (list observer) :=
  match own with
  | [] => Ok []
  | o :: own' =>
      s ← (if String.eqb (name other) (name o)
           then observer_compare (state o) (state other)
           else Ok (state o));
      rest ← compare_with other own';
      Ok ({| name := name o; state := s |} :: rest)
  end.

Fixpoint compare_observers (others own : list observer) : outcome (list observer) :=
  match others with
  | [] => Ok own
  | other :: others' =>
      own' ← compare_with other own;
      compare_observers others' own'
  end.

(** [compare(other)]: both stores and the log after the call. The
    collectors and the peers are visited in the order of the keys, which
    decides only the order of the log. *)
Definition compare (self other : t) : outcome (t * t * list log_record) :=
  r ← compare_ribs (map_to_list (data self)) (data other, []);
  obs ← compare_observers (_observers other) (_observers self);
  Ok (mk obs (data self) (stop_updating self)
         (peer_ip_filter self) (ts_start self) (ts_end self),
      mk (_observers other) r.1 (stop_updating other)
         (peer_ip_filter other) (ts_start other) (ts_end other),
      r.2).

End RIBTable.

(** * The malformed rule in the words of the specification

    "Split the field by whitespace; for each token attempt integer parse.
    If any token fails to parse as a non-negative integer, the path is
    malformed." These definitions follow that sentence and are compared
    with [parse_as_path] below. *)

Module Spec.

(** The tokens between runs of whitespace. *)
Fixpoint words (cur : list ascii) (l : list ascii) : list string :=
  match l with
  | [] =>
      match cur with
      | [] => []
      | _ :: _ => [string_of_list_ascii (rev cur)]
      end
  | c :: l' =>
      if Py.is_space c then
        match cur with
        | [] => words [] l'
        | _ :: _ => string_of_list_ascii (rev cur) :: words [] l'
        end
      else words (c :: cur) l'
  end.

Definition split_whitespace (s : string) : list string :=
  words [] (list_ascii_of_string s).



End Spec.

(** * Numerals *)

Definition is_digit (c : ascii) : bool :=
  match Py.digit_of c with
  | Some _ => true
  | None => false
  end.

(** A token made of decimal digits only. *)
Definition digits_only (tok : string) : bool :=
  match list_ascii_of_string tok with
  | [] => false
  | l => forallb is_digit l
  end.

(** A token that writes a number the plain way: decimal digits without a
    sign, an underscore, blanks or a superfluous leading zero. *)
Definition plain_numeral (tok : string) : bool :=
  match list_ascii_of_string tok with
  | [] => false
  | [c] => is_digit c
  | c :: l => is_digit c && negb (Ascii.eqb c "0") && forallb is_digit l
  end.


(** The value of a list of digits, most significant first. *)
Fixpoint value (l : list ascii) : Z :=
  match l with
  | [] => 0
  | c :: l' => default 0 (Py.digit_of c) * 10 ^ Z.of_nat (length l') + value l'
  end.

(** No two neighbours of a list are equal. *)
Fixpoint no_adjacent_dup {A : Type} `{EqDecision A} (l : list A) : bool :=
  match l with
  | [] => true
  | x :: l' =>
      match l' with
      | [] => true
      | y :: _ => negb (bool_decide (x = y)) && no_adjacent_dup l'
      end
  end.

(** * Events and runs of an observer *)

(** A call of one of the six callbacks of an observer. *)
Inductive event : Type :=
| AddPath (fam : family) (rc peer_ip pfx : string) (p : path)
| UpdateWithdrawal (fam : family) (rc peer_ip pfx : string) (p : path)
| UpdateAnnouncement (fam : family) (rc peer_ip pfx : string)
    (new_path : path) (old_path : option path).

Definition deliver {A : Type} `{Observer A} (e : event) (a : A) : A :=
  match e with
  | AddPath fam rc peer_ip pfx p => add_path fam rc peer_ip pfx p a
  | UpdateWithdrawal fam rc peer_ip pfx p => update_withdrawal fam rc peer_ip pfx p a
  | UpdateAnnouncement fam rc peer_ip pfx new_path old_path =>
      update_announcement fam rc peer_ip pfx new_path old_path a
  end.

(** The state of an observer after a sequence of calls. *)
Definition run {A : Type} `{Observer A} (evs : list event) (a : A) : A :=
  fold_left (fun a e => deliver e a) evs a.

(** Every count a map holds is at least one: none is negative and none
    stays at zero. *)
Definition positive {K : Type} `{Countable K} (m : gmap K Z) : Prop :=
  map_Forall (fun _ c => 1 <= c) m.

Definition graphs_positive {K : Type} `{Countable K} (o : graphs K) : Prop :=
  positive (nx.counts (graph_ipv4 o)) /\ positive (nx.counts (graph_ipv6 o)).

Definition update_counts_positive (o : UpdateCountObserver.t) : Prop :=
  positive (UpdateCountObserver.n_updates o) /\
  positive (UpdateCountObserver.n_withdrawals_ipv4 o) /\
  positive (UpdateCountObserver.n_withdrawals_ipv6 o) /\
  positive (UpdateCountObserver.n_announcements_ipv4 o) /\
  positive (UpdateCountObserver.n_announcements_ipv6 o) /\
  map_Forall (fun _ per_peer => positive per_peer)
    (UpdateCountObserver.n_updates_per_peer o).

Definition counts_positive (o : observer_state) : Prop :=
  match o with
  | OGraph g => graphs_positive g
  | OMultiGraph g => graphs_positive g
  | OUpdateCount c => update_counts_positive c
  | OPath pc => positive pc
  end.

(** The graph of one family in a graph observer. *)
Definition graph_of {K : Type} `{Countable K} (fam : family) (o : graphs K) : nx.graph K :=
  match fam with
  | IPv4 => graph_ipv4 o
  | IPv6 => graph_ipv6 o
  end.

(** The vertices a list of hops passes through. *)
Definition hop_ends (hs : list (Z * Z)) : gset Z :=
  fold_right (fun h acc => {[h.1]} ∪ {[h.2]} ∪ acc) ∅ hs.

(** The ends of every edge of a graph are among its vertices; [ends_of]
    reads the two ends off the identity of an edge. *)
Definition ends_are_nodes {K : Type} `{Countable K} (ends_of : K -> Z * Z)
    (g : nx.graph K) : Prop :=
  map_Forall (fun k _ => (ends_of k).1 ∈ nx.nodes g /\ (ends_of k).2 ∈ nx.nodes g)
    (nx.counts g).

Definition graphs_ends_are_nodes {K : Type} `{Countable K} (ends_of : K -> Z * Z)
    (o : graphs K) : Prop :=
  ends_are_nodes ends_of (graph_ipv4 o) /\ ends_are_nodes ends_of (graph_ipv6 o).

(** What the hops of a path do to the map of counts of a graph, apart
    from its vertices. *)
Section HopCountMaps.
Context {K : Type} `{Countable K}.

Definition incr_count (m : gmap K Z) (k : K) : gmap K Z :=
  match m !! k with
  | Some c => <[k := c + 1]> m
  | None => <[k := 1]> m
  end.

Definition decr_count (m : gmap K Z) (k : K) : gmap K Z :=
  match m !! k with
  | Some c => if c - 1 =? 0 then delete k m else <[k := c - 1]> m
  | None => m
  end.

Definition incr_all (ks : list K) (m : gmap K Z) : gmap K Z :=
  fold_left incr_count ks m.

Definition decr_all (ks : list K) (m : gmap K Z) : gmap K Z :=
  fold_left decr_count ks m.

Definition keys_of (edge_of : Z -> Z -> K) (hs : list (Z * Z)) : list K :=
  (fun h => edge_of h.1 h.2) <$> hs.
End HopCountMaps.

(** * Notions used to state the properties of the store *)

(** The entry of a table for a peer and a prefix. *)
Definition entry (rib : peer_to_pfx_to_path) (peer_ip pfx : string) : option path :=
  rib !! peer_ip ≫= fun routes => routes !! pfx.

(** The outcome of the sanitizer on an AS-path field and the ASN of the
    peer: the parsed path when it is neither malformed nor invalid. *)
Definition sanitize (as_path : string) (peer_asn : Z) : option path :=
  match parse_as_path as_path with
  | Some p => if is_valid_path p peer_asn then Some p else None
  | None => None
  end.

(** A record lies in the window when its instant is neither before
    [ts_start] nor after [ts_end] plus one second. *)
Definition in_window (ts_start ts_end : Z) (u : update_record) : Prop :=
  ts_start <= update_ts u <= ts_end + one_second.


(** An announcement record as the decoder prints it: fifteen fields, the
    type [A], and the ASN of the peer readable by [int]. *)
Record announcement (update : fields) (peer_ip pfx as_path : string) (peer_asn : Z)
    : Prop := mk_announcement {
  ann_length : length update = 15%nat;
  ann_type : update !! 2%nat = Some "A"%string;
  ann_peer_ip : update !! 3%nat = Some peer_ip;
  ann_peer_asn : exists text, update !! 4%nat = Some text /\ Py.int text = Some peer_asn;
  ann_pfx : update !! 5%nat = Some pfx;
  ann_as_path : update !! 6%nat = Some as_path;
}.


(** * Stores and records of the examples *)

Module Scenario.
Import RIBTable.

Definition rib_line (peer_ip peer_asn pfx as_path : string) : fields :=
  ["TABLE_DUMP2"; "1283299200"; "B"; peer_ip; peer_asn; pfx; as_path; "IGP";
   peer_ip; "0"; "0"; ""; "NAG"; ""; ""]%string.

Definition announce (ts : Z) (peer_ip peer_asn pfx as_path : string) : update_record :=
  mk_update ts
    ["BGP4MP"; "1283299200"; "A"; peer_ip; peer_asn; pfx; as_path; "IGP";
     peer_ip; "0"; "0"; ""; "NAG"; ""; ""]%string.

Definition withdraw (ts : Z) (peer_ip peer_asn pfx : string) : update_record :=
  mk_update ts ["BGP4MP"; "1283299200"; "W"; peer_ip; peer_asn; pfx]%string.

(** The four observers the driver attaches, in its order. *)
Definition observers : list observer :=
  [mk_observer "graph" (OGraph ASGraphObserver.init);
   mk_observer "multigraph" (OMultiGraph ASMultiGraphObserver.init);
   mk_observer "update_count" (OUpdateCount UpdateCountObserver.init);
   mk_observer "path" (OPath PathObserver.init)].

(** A store over a window of one hundred seconds, before [build]. *)
Definition fresh : t := mk observers ∅ ∅ [] 0 (100 * one_second).

(** The table of the collector [rrc00] with the entry of scenario S5. *)
Definition rib : peer_to_pfx_to_path :=
  {[ "1.2.3.4"%string := {[ "10.0.0.0/24"%string := [100; 200; 300] ]} ]}.

(** The store after the entry of scenario S5 was loaded. *)
Definition loaded : outcome t :=
  build fresh
    [("rrc00"%string, [rib_line "1.2.3.4" "100" "10.0.0.0/24" "100 200 300"])].

Definition the_path_observer (self : t) : option PathObserver.t :=
  match _observers self !! 3%nat with
  | Some {| state := OPath pc |} => Some pc
  | _ => None
  end.

Definition the_graph_observer (self : t) : option ASGraphObserver.t :=
  match _observers self !! 0%nat with
  | Some {| state := OGraph g |} => Some g
  | _ => None
  end.

(** The store after [build] and one update file whose only record comes
    after the window: the flag of the collector is set. *)
Definition stopped : outcome t :=
  s ← loaded;
  update s [("rrc00"%string,
             [announce (102 * one_second) "1.2.3.4" "100" "10.0.0.0/24" "100 200"])].


(** A store whose window starts after it ends, at 08:00 and 07:45, as
    the driver makes one of the range from 05:00 to 07:45 with a collector
    of RIS: the start moves to the RIB file of 08:00. *)
Definition out_of_order : t :=
  mk observers {[ "rrc00"%string := rib ]} {[ "rrc00"%string := false ]} []
     (28800 * one_second) (27900 * one_second).

(** A store built from a line whose prefix is of neither family, and the
    same store after an announcement for that prefix with an AS set in its
    path. *)
Definition without_family : outcome t :=
  build fresh
    [("rrc00"%string, [rib_line "1.2.3.4" "100" "default" "100 200 300"])].

Definition without_family_purged : outcome t :=
  s ← without_family;
  update s [("rrc00"%string,
             [announce (5 * one_second) "1.2.3.4" "100" "default" "100 {200,201} 300"])].

(** The store [loaded], written out. *)
Definition loaded_store : t :=
  mk (_notify_add_path IPv4 "rrc00" "1.2.3.4" "10.0.0.0/24" [100; 200; 300] observers)
     {[ "rrc00"%string := rib ]} {[ "rrc00"%string := false ]} [] 0 (100 * one_second).

(** The store [stopped], written out. *)
Definition stopped_store : t :=
  mk (_notify_add_path IPv4 "rrc00" "1.2.3.4" "10.0.0.0/24" [100; 200; 300] observers)
     {[ "rrc00"%string := rib ]} {[ "rrc00"%string := true ]} [] 0 (100 * one_second).









Definition path_count_of (self : t) (p : path) : option Z :=
  the_path_observer self ≫= fun pc => pc !! p.

(** A store that tracks the peer [1.2.3.4] and holds no entry yet. *)
Definition tracking : t :=
  mk observers {[ "rrc00"%string := {[ "1.2.3.4"%string := ∅ ]} ]}
     {[ "rrc00"%string := false ]} [] 0 (100 * one_second).

Definition edge_count_of (self : t) (u v : Z) : option Z :=
  the_graph_observer self ≫= fun g => nx.counts (graph_ipv4 g) !! nx.edge_key u v.

(** Scenarios S2 and S3 of the specification: one announcement, then the
    replacement of its path. *)
Definition s2 : outcome t :=
  update tracking
    [("rrc00"%string,
      [announce (5 * one_second) "1.2.3.4" "100" "10.0.0.0/24" "100 200 300"])].

Definition s3 : outcome t :=
  s ← s2;
  update s
    [("rrc00"%string,
      [announce (6 * one_second) "1.2.3.4" "100" "10.0.0.0/24" "100 200 400"])].

End Scenario.


(** * The notifications of [build] *)

(** The [add_path] call, if any, that a line of a RIB file makes the store
    send. *)
Definition line_events (peer_ip_filter : list string) (rc : string) (res : fields)
    : list event :=
  match take 4 (drop 3 res) with
  | [peer_ip; peer_asn; pfx; as_path] =>
      match Py.int peer_asn with
      | Some peer_asn =>
          if bool_decide (peer_ip_filter = []) || bool_decide (peer_ip ∈ peer_ip_filter)
          then
            match sanitize as_path peer_asn, family_of pfx with
            | Some p, Some fam => [AddPath fam rc peer_ip pfx p]
            | _, _ => []
            end
          else []
      | None => []
      end
  | _ => []
  end.

Definition lines_events (peer_ip_filter : list string) (rc : string)
    (lines : list fields) : list event :=
  concat (line_events peer_ip_filter rc <$> lines).

Definition build_events (peer_ip_filter : list string)
    (rc_to_url : list (string * list fields)) : list event :=
  concat ((fun e => lines_events peer_ip_filter e.1 e.2) <$> rc_to_url).

Definition is_add_path (e : event) : Prop :=
  match e with
  | AddPath _ _ _ _ _ => True
  | _ => False
  end.

(** How many of the events add the path [p]. *)
Fixpoint adds_of (p : path) (evs : list event) : nat :=
  match evs with
  | [] => 0%nat
  | AddPath _ _ _ _ q :: evs' =>
      if decide (q = p) then S (adds_of p evs') else adds_of p evs'
  | _ :: evs' => adds_of p evs'
  end.

(** The [paths_count] of an edge in a map of counts, zero when absent. *)
Definition edge_count {K : Type} `{Countable K} (m : gmap K Z) (k : K) : Z :=
  default 0 (m !! k).

(** How many times [k] occurs in a list. *)
Fixpoint times {K : Type} `{EqDecision K} (k : K) (ks : list K) : nat :=
  match ks with
  | [] => 0%nat
  | k' :: ks' => if decide (k' = k) then S (times k ks') else times k ks'
  end.

(** The edges that the [add_path] calls of one family pass over, hop by
    hop and in order. *)
Definition added_keys {K : Type} (edge_of : string -> string -> Z -> Z -> K)
    (fam : family) (evs : list event) : list K :=
  concat ((fun e =>
             match e with
             | AddPath fam' rc peer_ip _ p =>
                 if decide (fam' = fam) then keys_of (edge_of rc peer_ip) (hops p)
                 else []
             | _ => []
             end) <$> evs).

(** The multiplicity of a path in the path observer, zero when absent. *)
Definition path_count (pc : PathObserver.t) (p : path) : Z :=
  default 0 (pc !! p).

(** * The history of a store *)

(** A store through a sequence of [update] calls. *)
Fixpoint updates (self : RIBTable.t)
    (calls : list (list (string * list update_record))) : outcome RIBTable.t :=
  match calls with
  | [] => Ok self
  | rc_to_url :: calls' =>
      self' ← RIBTable.update self rc_to_url;
      updates self' calls'
  end.

(** The path the store holds for a collector, a peer and a prefix. *)
Definition stored (self : RIBTable.t) (rc peer_ip pfx : string) : option path :=
  RIBTable.data self !! rc ≫= fun rib => entry rib peer_ip pfx.

(** The records of a collector, as lists of fields, in the RIB files of a
    [build] call and in the update files of a sequence of [update] calls. *)
Definition rib_lines_of (rc : string) (rc_to_url : list (string * list fields))
    : list fields :=
  concat ((fun e => if decide (e.1 = rc) then e.2 else []) <$> rc_to_url).

Definition update_lines_of (rc : string)
    (rc_to_url : list (string * list update_record)) : list fields :=
  concat ((fun e => if decide (e.1 = rc) then update_fields <$> e.2 else [])
            <$> rc_to_url).

Definition lines_seen (rc : string) (rc_to_url : list (string * list fields))
    (calls : list (list (string * list update_record))) : list fields :=
  rib_lines_of rc rc_to_url ++ concat (update_lines_of rc <$> calls).

(** A record announces the path [p] for a peer and a prefix: the peer and
    the prefix are its fields 3 and 5, and its AS-path, field 6, parses to
    [p], which is valid for the ASN of the peer, field 4. *)
Definition announces (f : fields) (peer_ip pfx : string) (p : path) : Prop :=
  f !! 3%nat = Some peer_ip /\
  f !! 5%nat = Some pfx /\
  exists asn_text as_path peer_asn,
    f !! 4%nat = Some asn_text /\
    f !! 6%nat = Some as_path /\
    Py.int asn_text = Some peer_asn /\
    parse_as_path as_path = Some p /\
    is_valid_path p peer_asn = true.

(** Every entry of a table was announced by a record of [S]. *)
Definition announced_table (S : fields -> Prop) (rib : peer_to_pfx_to_path) : Prop :=
  forall peer_ip pfx p,
    entry rib peer_ip pfx = Some p -> exists f, S f /\ announces f peer_ip pfx p.

Definition announced_data (S : string -> fields -> Prop)
    (data : gmap string peer_to_pfx_to_path) : Prop :=
  forall rc rib, data !! rc = Some rib -> announced_table (S rc) rib.

(** * What [compare] may do to an observer *)

(** An observer after [compare]: the same, or a graph observer with the
    isolated vertices of its IPv4 graph removed. *)
Definition pruned_or_same (o o' : observer) : Prop :=
  name o' = name o /\
  (state o' = state o \/
   exists g, state o = OGraph g /\ state o' = OGraph (ASGraphObserver.compare g)).


(** * Records the store can read *)

(** A line of a RIB file that [build] reads without an exception: at least
    seven fields and an ASN of the peer that [int] accepts. *)
Definition readable_line (res : fields) : Prop :=
  (7 <= length res)%nat /\ is_Some (res !! 4%nat ≫= Py.int).

(** A record of an update file that [update] reads without an exception:
    at least six fields, and for an announcement an ASN of the peer that
    [int] accepts. *)
Definition readable_update (u : update_record) : Prop :=
  (6 <= length (update_fields u))%nat /\
  (length (update_fields u) = 15%nat -> is_Some (update_fields u !! 4%nat ≫= Py.int)).

(** * Further notions about the store *)

(** A withdrawal record as the decoder prints it: six fields and the type
    [W]. *)
Record withdrawal (update : fields) (peer_ip pfx : string) : Prop := mk_withdrawal {
  wd_length : length update = 6%nat;
  wd_type : update !! 2%nat = Some "W"%string;
  wd_peer_ip : update !! 3%nat = Some peer_ip;
  wd_pfx : update !! 5%nat = Some pfx;
}.

(** The tests of the two branches of the loop of [_update_rib_from_url]. *)
Definition is_withdrawal (update : fields) : bool :=
  bool_decide (length update = 6%nat)
  && match update !! 2%nat with
     | Some ty => String.eqb ty "W"
     | None => false
     end.

Definition is_announcement (update : fields) : bool :=
  bool_decide (length update = 15%nat)
  && match update !! 2%nat with
     | Some ty => String.eqb ty "A"
     | None => false
     end.

(** The peers a collector's table tracks, collector by collector. *)
Definition tracked (data : gmap string peer_to_pfx_to_path) : gmap string (gset string) :=
  dom <$> data.

(** The peer of a record passes the filter of the store. *)
Definition passes (peer_ip_filter : list string) (update : fields) : Prop :=
  peer_ip_filter = [] \/ exists peer_ip, update !! 3%nat = Some peer_ip /\ peer_ip ∈ peer_ip_filter.

(** The ASN of the peer of a record, field 4, is one [int] refuses. *)
Definition asn_unreadable (update : fields) : Prop :=
  (update !! 4%nat ≫= Py.int) = None.

(** * What the entries of the store add up to *)

(** The sum of [f] over the entries of a map. *)
Definition ksum {A : Type} (f : string -> A -> Z) (m : gmap string A) : Z :=
  map_fold (fun k v acc => f k v + acc) 0 m.

(** A weight of an entry of the store, by collector, peer, prefix and
    path. *)
Abbreviation weight := (string -> string -> string -> path -> Z).

Definition total_rib (wt : weight) (rc : string) (rib : peer_to_pfx_to_path) : Z :=
  ksum (fun peer_ip routes => ksum (wt rc peer_ip) routes) rib.

Definition total (wt : weight) (data : gmap string peer_to_pfx_to_path) : Z :=
  ksum (total_rib wt) data.

(** One for an entry that holds the path [p] under a prefix of either
    family; the store notifies nothing for a prefix of neither. *)
Definition holds (p : path) : weight := fun _ _ pfx q =>
  if decide (q = p /\ is_Some (family_of pfx)) then 1 else 0.

(** How many entries of the store hold the path [p]. *)
Definition holding (p : path) (data : gmap string peer_to_pfx_to_path) : Z :=
  total (holds p) data.

(** How many hops of the path of an entry pass over the edge [k], for an
    entry under a prefix of the family [fam]. *)
Definition hops_over {K : Type} `{EqDecision K}
    (edge_of : string -> string -> Z -> Z -> K) (fam : family) (k : K) : weight :=
  fun rc peer_ip pfx q =>
    if decide (family_of pfx = Some fam)
    then Z.of_nat (times k (keys_of (edge_of rc peer_ip) (hops q)))
    else 0.

(** How many hops of the stored paths of a family pass over an edge. *)
Definition passing {K : Type} `{EqDecision K}
    (edge_of : string -> string -> Z -> Z -> K) (fam : family) (k : K)
    (data : gmap string peer_to_pfx_to_path) : Z :=
  total (hops_over edge_of fam k) data.

(** No entry holds the empty path. *)
Definition no_empty_path (rib : peer_to_pfx_to_path) : Prop :=
  forall peer_ip pfx, entry rib peer_ip pfx <> Some [].

Definition stores_no_empty_path (data : gmap string peer_to_pfx_to_path) : Prop :=
  forall rc rib, data !! rc = Some rib -> no_empty_path rib.

(** The observers of a class [sel], read through [view], show for every
    key the total of the weight [wt] over the entries of the store, here
    over the table [w.2] of the collector at work on top of [base]. *)
Definition follows_rib {K : Type} (sel : observer_state -> Prop)
    (view : observer_state -> K -> Z) (wt : K -> weight) (base : K -> Z)
    (rc : string) (w : RIBTable.work) : Prop :=
  no_empty_path w.2 /\
  forall o, o ∈ w.1 -> sel (state o) ->
    forall k, view (state o) k = base k + total_rib (wt k) rc w.2.

Definition follows {K : Type} (sel : observer_state -> Prop)
    (view : observer_state -> K -> Z) (wt : K -> weight)
    (obs : list observer) (data : gmap string peer_to_pfx_to_path) : Prop :=
  stores_no_empty_path data /\
  forall o, o ∈ obs -> sel (state o) ->
    forall k, view (state o) k = total (wt k) data.

(** The three classes of observers that count, and what they show. *)
Definition is_path_observer (s : observer_state) : Prop :=
  match s with OPath _ => True | _ => False end.

Definition is_graph_observer (s : observer_state) : Prop :=
  match s with OGraph _ => True | _ => False end.

Definition is_multigraph_observer (s : observer_state) : Prop :=
  match s with OMultiGraph _ => True | _ => False end.

Definition path_view (s : observer_state) (p : path) : Z :=
  match s with
  | OPath pc => path_count pc p
  | _ => 0
  end.

Definition graph_view (s : observer_state) (k : family * (Z * Z)) : Z :=
  match s with
  | OGraph g => edge_count (nx.counts (graph_of k.1 g)) k.2
  | _ => 0
  end.

Definition multigraph_view (s : observer_state) (k : family * (Z * Z * string)) : Z :=
  match s with
  | OMultiGraph g => edge_count (nx.counts (graph_of k.1 g)) k.2
  | _ => 0
  end.

(** The three counting observers of a store agree with its table: the
    path observer counts each path as many times as entries hold it, and
    the graph observers count each edge as many times as the stored paths
    of the family pass over it. *)
Definition path_observers_follow (self : RIBTable.t) : Prop :=
  forall o pc, o ∈ RIBTable._observers self -> state o = OPath pc ->
    forall p, path_count pc p = holding p (RIBTable.data self).

Definition graph_observers_follow (self : RIBTable.t) : Prop :=
  forall o g, o ∈ RIBTable._observers self -> state o = OGraph g ->
    forall fam k,
      edge_count (nx.counts (graph_of fam g)) k
      = passing (fun _ _ => nx.edge_key) fam k (RIBTable.data self).

(** What [as_graph[u][v]] holds for an edge that [n] hops pass over: no
    edge when there is none, and else an edge whose [paths_count] is
    [n]. *)
Definition edge_of_count (n : Z) : option Z :=
  if decide (n = 0) then None else Some n.

(** The edges of a graph observer are the edges the stored paths of the
    family pass over, each with the number of these hops as its
    [paths_count]. *)
Definition graph_observers_exact (self : RIBTable.t) : Prop :=
  forall o g, o ∈ RIBTable._observers self -> state o = OGraph g ->
    forall fam k,
      nx.counts (graph_of fam g) !! k
      = edge_of_count (passing (fun _ _ => nx.edge_key) fam k (RIBTable.data self)).

(** The counts of a graph observer are at least one. *)
Definition graph_counts_positive (s : observer_state) : Prop :=
  match s with
  | OGraph g => graphs_positive g
  | OMultiGraph _ | OUpdateCount _ | OPath _ => True
  end.

Definition multigraph_observers_follow (self : RIBTable.t) : Prop :=
  forall o g, o ∈ RIBTable._observers self -> state o = OMultiGraph g ->
    forall fam k,
      edge_count (nx.counts (graph_of fam g)) k
      = passing ASMultiGraphObserver.edge_of fam k (RIBTable.data self).

(** No observer has counted a path or an edge yet. *)
Definition uncounted (s : observer_state) : Prop :=
  match s with
  | OPath pc => pc = ∅
  | OGraph g => nx.counts (graph_ipv4 g) = ∅ /\ nx.counts (graph_ipv6 g) = ∅
  | OMultiGraph g => nx.counts (graph_ipv4 g) = ∅ /\ nx.counts (graph_ipv6 g) = ∅
  | OUpdateCount _ => True
  end.

(** The peer and the prefix of a line of a RIB file, fields 3 and 5. *)
Definition line_key (res : fields) : option string * option string :=
  (res !! 3%nat, res !! 5%nat).

(** * The update counter *)

(** The value of a [defaultdict(int)] at a key, zero when absent. *)
Definition counter (m : gmap string Z) (k : string) : Z := default 0 (m !! k).

(** For every collector the number of updates is the sum of the four
    counters by type and family, and the sum of the counters of its
    peers. *)
Definition counter_balanced (o : UpdateCountObserver.t) : Prop :=
  forall rc,
    counter (UpdateCountObserver.n_updates o) rc
    = counter (UpdateCountObserver.n_withdrawals_ipv4 o) rc
      + counter (UpdateCountObserver.n_withdrawals_ipv6 o) rc
      + counter (UpdateCountObserver.n_announcements_ipv4 o) rc
      + counter (UpdateCountObserver.n_announcements_ipv6 o) rc /\
    counter (UpdateCountObserver.n_updates o) rc
    = ksum (fun _ c => c) (default ∅ (UpdateCountObserver.n_updates_per_peer o !! rc)).

(** The collector of a call, for the calls that the update counter
    counts. *)
Definition update_collector (e : event) : option string :=
  match e with
  | AddPath _ _ _ _ _ => None
  | UpdateWithdrawal _ rc _ _ _ => Some rc
  | UpdateAnnouncement _ rc _ _ _ _ => Some rc
  end.

(** How many of the calls are withdrawals or announcements of the
    collector [rc]. *)
Definition updates_of (rc : string) (evs : list event) : nat :=
  length (filter (fun e => update_collector e = Some rc) evs).

(** * The comparison *)

(** What [own_observer.compare(other_observer)] needs of the two classes
    in order to return: a graph observer reads [other.graph_ipv4], which
    both graph observers have, and the multigraph observer has no
    [compare] of its own. *)
Definition compatible (own other : observer_state) : Prop :=
  match own with
  | OGraph _ =>
      match other with
      | OGraph _ | OMultiGraph _ => True
      | OUpdateCount _ | OPath _ => False
      end
  | OMultiGraph _ => False
  | OUpdateCount _ | OPath _ => True
  end.

(** The prefixes of both tables whose paths differ. *)
Definition differing (dict1 dict2 : pfx_to_path) : gset string :=
  filter (fun k => dict1 !! k <> dict2 !! k) (dom dict1 ∩ dom dict2).

(** [dict2] read through [dict1] and the three parts of their
    difference. *)
Definition patched (dict1 : pfx_to_path)
    (d : pfx_to_path * pfx_to_path * gmap string (path * path)) (k : string)
    : option path :=
  match d.1.1 !! k, d.1.2 !! k, d.2 !! k with
  | Some v, _, _ => Some v
  | None, Some _, _ => None
  | None, None, Some xy => Some xy.2
  | None, None, None => dict1 !! k
  end.

(** * The driver ([main.py]) *)

Module BGPDownloader.

(** [url_generation.RV_UPDATE_RES] and [RIS_UPDATE_RES], in seconds. *)
Definition RV_UPDATE_RES : Z := 15 * 60.
Definition RIS_UPDATE_RES : Z := 5 * 60.

(** [timedelta(hours=1)] and [timedelta(days=1)] *)
Definition one_hour : Z := 3600 * one_second.
Definition one_day : Z := 24 * one_hour.

Inductive project : Set := RIS | RV.

#[global] Instance project_eq_dec : EqDecision project.
Proof. solve_decision. Defined.

#[global] Instance project_countable : Countable project :=
  inj_countable'
    (fun p => match p with RIS => false | RV => true end)
    (fun b : bool => if b then RV else RIS)
    (fun p => match p with RIS => eq_refl | RV => eq_refl end).

(** [needle in s] on strings. *)
Definition str_in (needle s : string) : bool :=
  match String.index 0 needle s with
  | Some _ => true
  | None => false
  end.

(** The loop of [__init__] over the collectors: [self.projects] is the
    set of the projects they belong to, and a name of neither project
    raises [ValueError]. *)
Definition project_of (collector : string) : outcome project :=
  if String.eqb (String.substring 0 3 collector) "rrc" then Ok RIS
  else if str_in "route-views" collector then Ok RV
  else Raise ValueError.

Fixpoint init_projects (collectors : list string) (projects : gset project)
    : outcome (gset project) :=
  match collectors with
  | [] => Ok projects
  | collector :: rest =>
      pr ← project_of collector;
      init_projects rest ({[pr]} ∪ projects)
  end.

(** [ts.minute] and [ts.hour] *)
Definition one_minute : Z := 60 * one_second.
Definition minute (ts : Z) : Z := (ts / one_minute) mod 60.
Definition hour (ts : Z) : Z := (ts / one_hour) mod 24.

(** [datetime(ts.year, ts.month, ts.day)] and
    [datetime(ts.year, ts.month, ts.day, ts.hour)] for naive instants
    counted from a midnight. *)
Definition midnight (ts : Z) : Z := one_day * (ts / one_day).
Definition on_the_hour (ts : Z) : Z := one_hour * (ts / one_hour).

(** [np.argmin]: the first index of the least element. *)
Fixpoint argmin_from (best : Z) (best_i i : nat) (l : list Z) : nat :=
  match l with
  | [] => best_i
  | x :: l' =>
      if x <? best then argmin_from x i (S i) l'
      else argmin_from best best_i (S i) l'
  end.

Definition argmin (l : list Z) : option nat :=
  match l with
  | [] => None
  | x :: l' => Some (argmin_from x 0 1 l')
  end.

(** [candidates[np.argmin([abs((candidate - target).total_seconds())
    for candidate in candidates])]] *)
Definition closest (target : Z) (candidates : list Z) : option Z :=
  i ← argmin ((fun candidate => Z.abs (candidate - target)) <$> candidates);
  candidates !! i.

(** [[base + timedelta(...) * i for i in range(n)]] *)
Definition grid (base step : Z) (n : nat) : list Z :=
  (fun i => base + Z.of_nat i * step) <$> seq 0 n.

(** [range(a, b)] *)
Definition range (a b : Z) : list Z :=
  (fun k => a + Z.of_nat k) <$> seq 0 (Z.to_nat (b - a)).

(** The instants of the update files of a project whose files come every
    [res] seconds. The quotient is taken between instants that
    [set_urls] has put on a quarter of an hour, where the division of
    floats of the source is exact. *)
Definition updates_dts (res : Z) (ts_start ts_end : Z) : list Z :=
  let updates_number := (ts_end - ts_start) / (res * one_second) + 1 in
  (fun i => ts_start + i * res * one_second) <$> range (-1) (updates_number + 2).

Record plan : Type := mk_plan {
  plan_ts_start : Z;
  plan_ts_end : Z;
  ris_updates_dts : list Z;
  rv_updates_dts : list Z;
  plan_compare : bool;
}.

(** The step between two RIB files: eight hours when a collector of RIS
    takes part, two hours otherwise. *)
Definition rib_step (projects : gset project) : Z :=
  if bool_decide (RIS ∈ projects) then 8 * one_hour else 2 * one_hour.

(** The body of [for rc in self.collectors], up to the files it lists:
    what becomes of [self.compare]. With the end on an even hour, a
    collector of RouteViews and two projects, the test
    [self.ts_end % 8 == 0] takes the remainder of a [datetime] and raises
    [TypeError]. *)
Definition collector_turn (projects : gset project) (ts_end : Z) (rc : string)
    (compare : bool) : outcome bool :=
  let compare :=
    if String.prefix "rrc" rc && (minute ts_end =? 0) && (hour ts_end mod 8 =? 0)
    then true else compare in
  if String.prefix "route-views" rc && (minute ts_end =? 0) && (hour ts_end mod 2 =? 0)
  then
    if bool_decide (size projects = 1%nat) then Ok true
    else if bool_decide (size projects = 2%nat) then Raise TypeError
    else Ok compare
  else Ok compare.

Fixpoint collectors_loop (projects : gset project) (ts_end : Z)
    (collectors : list string) (compare : bool) : outcome bool :=
  match collectors with
  | [] => Ok compare
  | rc :: rest =>
      compare' ← collector_turn projects ts_end rc compare;
      collectors_loop projects ts_end rest compare'
  end.

(** [candidates[np.argmin(...)]] in [set_urls]: [np.argmin] raises
    [ValueError] on an empty list. *)
Definition closest_of (target : Z) (candidates : list Z) : outcome Z :=
  match closest target candidates with
  | Some candidate => Ok candidate
  | None => Raise ValueError
  end.

(** [set_urls], up to the instants of the files it lists, for a driver
    whose [projects], [collectors] and [compare] are as given: the start
    moves to the closest RIB file, the end to the closest update file of
    RouteViews, and the loop over the collectors decides [compare]. *)
Definition set_urls (projects : gset project) (collectors : list string)
    (compare : bool) (ts_start ts_end : Z) : outcome plan :=
  let closest_ribs :=
    if bool_decide (RIS ∈ projects)
    then grid (midnight ts_start - one_day) (8 * one_hour) 10
    else grid (midnight ts_start - one_day) (2 * one_hour) 50 in
  closest_rib ← closest_of ts_start closest_ribs;
  let closest_updates :=
    grid (on_the_hour ts_end - one_hour) (RV_UPDATE_RES * one_second) 10 in
  closest_update ← closest_of ts_end closest_updates;
  let ris_updates_dts := updates_dts RIS_UPDATE_RES closest_rib closest_update in
  let rv_updates_dts := updates_dts RV_UPDATE_RES closest_rib closest_update in
  compare' ← collectors_loop projects closest_update collectors compare;
  Ok (mk_plan closest_rib closest_update ris_updates_dts rv_updates_dts compare').

(** [__init__] as far as [set_urls] reads it, then [set_urls]. *)
Definition run_set_urls (collectors : list string) (ts_start ts_end : Z)
    : outcome plan :=
  projects ← init_projects collectors ∅;
  set_urls projects collectors false ts_start ts_end.

(** [output_files] of [warm_update_process]: the division raises
    [ZeroDivisionError] for a null interval, here [None], and [int] cuts
    the quotient towards zero. *)
Definition output_files (interval : Z) (ts_start ts_end : Z) : option (list Z) :=
  if interval =? 0 then None
  else
    let output_files_number := Z.quot (ts_end - ts_start) (interval * one_second) in
    Some ((fun i => ts_start + i * interval * one_second)
            <$> range 1 (output_files_number + 1)).

End BGPDownloader.

(** A plan of the examples: two hours from midnight with a collector of
    RIS. *)
Definition two_hours_plan : BGPDownloader.plan :=
  BGPDownloader.mk_plan 0 (2 * BGPDownloader.one_hour)
    (BGPDownloader.updates_dts BGPDownloader.RIS_UPDATE_RES 0 (2 * BGPDownloader.one_hour))
    (BGPDownloader.updates_dts BGPDownloader.RV_UPDATE_RES 0 (2 * BGPDownloader.one_hour))
    false.

(** The driver refuses the end of a window on an even hour when it has a
    collector of each project and one of them is named [route-views...]. *)
Definition raises_type_error (projects : gset BGPDownloader.project)
    (collectors : list string) (ts_end : Z) : Prop :=
  size projects = 2%nat /\
  (exists rc, rc ∈ collectors /\ String.prefix "route-views" rc = true) /\
  BGPDownloader.minute ts_end = 0 /\
  BGPDownloader.hour ts_end mod 2 = 0.

(** * Files read in another order *)

(** Two calls of [build] name the same collectors in the same order, and
    the file of each collector holds the same lines in some order. *)
Definition same_lines (r1 r2 : list (string * list fields)) : Prop :=
  Forall2 (fun e1 e2 => e1.1 = e2.1 /\ e1.2 ≡ₚ e2.2) r1 r2.

(** * Properties *)

(** ** The sanitizer on examples *)

Example parse_plain : parse_as_path "100 200 200 300" = Some [100; 200; 300].
Proof. reflexivity. Qed.

Example parse_as_set : parse_as_path "100 {200,201} 300" = None.
Proof. reflexivity. Qed.

Example parse_zero_padded : parse_as_path "100 0100 200" = Some [100; 100; 200].
Proof. reflexivity. Qed.

Example parse_negative : parse_as_path "100 -5" = Some [100; -5].
Proof. reflexivity. Qed.

Example parse_double_space : parse_as_path "100  200" = None.
Proof. reflexivity. Qed.

Example parse_underscore : Py.int "1_000" = Some 1000.
Proof. reflexivity. Qed.

Example split_whitespace_runs :
  Spec.split_whitespace "100  200" = ["100"; "200"]%string.
Proof. reflexivity. Qed.

(** ** Facts about [int] *)

Section IntFacts.

Lemma groupby_keys_elem {A : Type} `{EqDecision A} (l : list A) (x : A) :
  In x (Py.groupby_keys l) <-> In x l.
Proof.
  induction l as [|a l IH]; [easy|].
  destruct l as [|b l']; [easy|].
  change (Py.groupby_keys (a :: b :: l'))
    with (if decide (a = b) then Py.groupby_keys (b :: l')
          else a :: Py.groupby_keys (b :: l')).
  destruct (decide (a = b)) as [->|Hne].
  - rewrite IH. simpl. tauto.
  - simpl In at 1. rewrite IH. simpl. tauto.
Qed.

Lemma groupby_keys_no_adjacent_dup {A : Type} `{EqDecision A} (l : list A) :
  no_adjacent_dup (Py.groupby_keys l) = true.
Proof.
  induction l as [|a l IH]; [easy|].
  destruct l as [|b l']; [easy|].
  change (Py.groupby_keys (a :: b :: l'))
    with (if decide (a = b) then Py.groupby_keys (b :: l')
          else a :: Py.groupby_keys (b :: l')).
  destruct (decide (a = b)) as [->|Hne]; [exact IH|].
  assert (Hhd : exists t, Py.groupby_keys (b :: l') = b :: t).
  { clear. revert b. induction l' as [|c l' IH]; intros b; [by exists []|].
    change (Py.groupby_keys (b :: c :: l'))
      with (if decide (b = c) then Py.groupby_keys (c :: l')
            else b :: Py.groupby_keys (c :: l')).
    destruct (decide (b = c)) as [->|]; [apply IH|by eexists]. }
  destruct Hhd as [t Ht]. rewrite Ht in IH |- *.
  change (no_adjacent_dup (a :: b :: t))
    with (negb (bool_decide (a = b)) && no_adjacent_dup (b :: t)).
  rewrite IH. rewrite bool_decide_eq_false_2; done.
Qed.



Lemma lstrip_digits (l : list ascii) :
  forallb is_digit l = true -> Py.lstrip l = l.
Proof.
  destruct l as [|a l]; [easy|]. simpl. intros H.
  apply andb_prop in H as [Ha _].
  assert (Py.is_space a = false) as ->; [|done].
  revert Ha. unfold is_digit, Py.digit_of, Py.is_space.
  generalize (nat_of_ascii a). intros n.
  destruct (48 <=? n)%nat eqn:E1; simpl; [|discriminate].
  destruct (n <=? 57)%nat eqn:E2; simpl; [|discriminate].
  intros _. apply Nat.leb_le in E1.
  assert ((n <=? 13)%nat = false) as -> by (apply Nat.leb_gt; lia).
  assert ((n =? 32)%nat = false) as -> by (apply Nat.eqb_neq; lia).
  by rewrite !andb_false_r.
Qed.

Lemma strip_digits (l : list ascii) :
  forallb is_digit l = true -> Py.strip l = l.
Proof.
  intros H. unfold Py.strip. rewrite (lstrip_digits l H).
  rewrite lstrip_digits; [apply rev_involutive|].
  rewrite forallb_forall in *. intros c Hc. apply H. by apply in_rev.
Qed.

Lemma digit_not_sign (c : ascii) :
  is_digit c = true ->
  Ascii.eqb c "+" = false /\ Ascii.eqb c "-" = false /\ Ascii.eqb c "_" = false.
Proof.
  intros H. repeat split; apply Ascii.eqb_neq; intros ->; discriminate H.
Qed.

Lemma digit_of_range (c : ascii) (v : Z) :
  Py.digit_of c = Some v -> 0 <= v <= 9.
Proof.
  unfold Py.digit_of.
  destruct (48 <=? nat_of_ascii c)%nat eqn:E1; simpl; [|discriminate].
  destruct (nat_of_ascii c <=? 57)%nat eqn:E2; simpl; [|discriminate].
  apply Nat.leb_le in E1. apply Nat.leb_le in E2. intros [= <-]. lia.
Qed.

Lemma digit_of_inj (c d : ascii) (v : Z) :
  Py.digit_of c = Some v -> Py.digit_of d = Some v -> c = d.
Proof.
  unfold Py.digit_of. intros Hc Hd.
  destruct (48 <=? nat_of_ascii c)%nat eqn:E1; simpl in Hc; [|discriminate].
  destruct (nat_of_ascii c <=? 57)%nat; simpl in Hc; [|discriminate].
  destruct (48 <=? nat_of_ascii d)%nat eqn:E3; simpl in Hd; [|discriminate].
  destruct (nat_of_ascii d <=? 57)%nat; simpl in Hd; [|discriminate].
  apply Nat.leb_le in E1. apply Nat.leb_le in E3.
  injection Hc as <-. injection Hd as Heq.
  rewrite <- (ascii_nat_embedding c), <- (ascii_nat_embedding d).
  f_equal. lia.
Qed.

Lemma value_range (l : list ascii) :
  forallb is_digit l = true -> 0 <= value l < 10 ^ Z.of_nat (length l).
Proof.
  induction l as [|c l IH]; simpl length; simpl value; simpl forallb; [lia|].
  intros H. apply andb_prop in H as [Hc Hl]. specialize (IH Hl).
  unfold is_digit in Hc. destruct (Py.digit_of c) as [v|] eqn:E; [|discriminate].
  apply digit_of_range in E. simpl default.
  rewrite Nat2Z.inj_succ, Z.pow_succ_r by lia. nia.
Qed.

Lemma int_digits_value (l : list ascii) (acc : Z) :
  forallb is_digit l = true ->
  Py.int_digits acc l = Some (acc * 10 ^ Z.of_nat (length l) + value l).
Proof.
  revert acc. induction l as [|c l IH]; intros acc H.
  - simpl. f_equal. lia.
  - simpl forallb in H. apply andb_prop in H as [Hc Hl].
    destruct (digit_not_sign c Hc) as (_ & _ & Hu).
    unfold is_digit in Hc. destruct (Py.digit_of c) as [v|] eqn:E; [|discriminate].
    cbn [Py.int_digits]. rewrite Hu, E, (IH _ Hl). f_equal.
    cbn [value length]. rewrite E. simpl default.
    rewrite Nat2Z.inj_succ, Z.pow_succ_r by lia. ring.
Qed.




Lemma length_list_ascii (tok : string) :
  length (list_ascii_of_string tok) = String.length tok.
Proof. induction tok as [|c tok IH]; [done|]. simpl. by rewrite IH. Qed.

Lemma n_digits_all (l : list ascii) :
  forallb is_digit l = true -> Py.n_digits l = length l.
Proof.
  induction l as [|c l IH]; [done|]. cbn [forallb Py.n_digits length].
  intros H. apply andb_prop in H as [Hc Hl]. unfold is_digit in Hc.
  destruct (Py.digit_of c); [|discriminate]. by rewrite IH.
Qed.

(** [int] reads a token made of digits as the number the digits write,
    unless the digits are too many. *)
Lemma int_digits_only_value (tok : string) :
  digits_only tok = true ->
  Py.int tok
  = if Py.int_max_str_digits <? Z.of_nat (String.length tok) then None
    else Some (value (list_ascii_of_string tok)).
Proof.
  unfold digits_only, Py.int. rewrite <- (length_list_ascii tok).
  destruct (list_ascii_of_string tok) as [|c l] eqn:E; [discriminate|].
  intros H. rewrite (strip_digits _ H).
  pose proof H as H'. cbn [forallb] in H'. apply andb_prop in H' as [Hc Hl].
  destruct (digit_not_sign c Hc) as (-> & -> & _).
  unfold Py.int_unsigned. rewrite (n_digits_all _ H). unfold is_digit in Hc.
  destruct (Py.digit_of c) as [v|] eqn:Ec; [|discriminate].
  destruct (Py.int_max_str_digits <? _); [done|].
  rewrite (int_digits_value l v Hl). cbn [value]. by rewrite Ec.
Qed.

Lemma digits_only_forallb (tok : string) :
  digits_only tok = true -> forallb is_digit (list_ascii_of_string tok) = true.
Proof. unfold digits_only. by destruct (list_ascii_of_string tok). Qed.


Lemma plain_numeral_digits_only (tok : string) :
  plain_numeral tok = true -> digits_only tok = true.
Proof.
  unfold plain_numeral, digits_only.
  destruct (list_ascii_of_string tok) as [|c [|d l]]; [done| |].
  - simpl. intros ->. done.
  - intros H. apply andb_prop in H as [H Hl]. apply andb_prop in H as [Hc _].
    cbn [forallb] in *. by rewrite Hc, Hl.
Qed.

Lemma digit_split (P d1 d2 x1 x2 : Z) :
  0 <= x1 < P -> 0 <= x2 < P -> d1 * P + x1 = d2 * P + x2 -> d1 = d2 /\ x1 = x2.
Proof. intros H1 H2 Heq. assert (d1 = d2) by nia. subst. lia. Qed.

Lemma value_inj_length (l1 l2 : list ascii) :
  forallb is_digit l1 = true -> forallb is_digit l2 = true ->
  length l1 = length l2 -> value l1 = value l2 -> l1 = l2.
Proof.
  revert l2. induction l1 as [|c1 l1 IH]; intros [|c2 l2]; try easy.
  cbn [forallb length value]. intros H1 H2 Hlen Hv.
  apply andb_prop in H1 as [Hc1 Hl1]. apply andb_prop in H2 as [Hc2 Hl2].
  injection Hlen as Hlen. rewrite Hlen in Hv.
  pose proof (value_range l1 Hl1) as R1. rewrite Hlen in R1.
  pose proof (value_range l2 Hl2) as R2.
  destruct (digit_split _ _ _ _ _ R1 R2 Hv) as [Hd Hx].
  unfold is_digit in Hc1, Hc2.
  destruct (Py.digit_of c1) as [v1|] eqn:E1; [|discriminate].
  destruct (Py.digit_of c2) as [v2|] eqn:E2; [|discriminate].
  simpl in Hd. subst v2. f_equal; [by eapply digit_of_inj|by apply IH].
Qed.

(** A plain numeral of more than one digit is at least the power of ten
    of its length. *)
Lemma plain_numeral_bounds (c : ascii) (l : list ascii) :
  plain_numeral (string_of_list_ascii (c :: l)) = true ->
  l <> [] -> 10 ^ Z.of_nat (length l) <= value (c :: l).
Proof.
  unfold plain_numeral. rewrite list_ascii_of_string_of_list_ascii.
  destruct l as [|d l]; [done|]. intros H _.
  apply andb_prop in H as [H Hl]. apply andb_prop in H as [Hc Hz].
  pose proof (value_range _ Hl) as R. cbn [value] in *.
  unfold is_digit in Hc. destruct (Py.digit_of c) as [v|] eqn:E; [|discriminate].
  assert (v <> 0).
  { intros ->. apply negb_true_iff, Ascii.eqb_neq in Hz. apply Hz.
    by apply (digit_of_inj _ _ 0). }
  apply digit_of_range in E. simpl default. nia.
Qed.

(** Two plain numerals of one value are one text. *)
Lemma plain_numeral_inj (a b : string) (v : Z) :
  plain_numeral a = true -> plain_numeral b = true ->
  Py.int a = Some v -> Py.int b = Some v -> a = b.
Proof.
  intros Ha Hb.
  pose proof (plain_numeral_digits_only a Ha) as Da.
  pose proof (plain_numeral_digits_only b Hb) as Db.
  rewrite (int_digits_only_value a Da), (int_digits_only_value b Db).
  destruct (Py.int_max_str_digits <? _); [discriminate|].
  destruct (Py.int_max_str_digits <? _); [discriminate|].
  intros [= <-] [= Hv]. symmetry in Hv.
  rewrite <- (string_of_list_ascii_of_string a) in Ha |- *.
  rewrite <- (string_of_list_ascii_of_string b) in Hb |- *.
  apply digits_only_forallb in Da, Db.
  destruct (list_ascii_of_string a) as [|ca la]; [discriminate Ha|].
  destruct (list_ascii_of_string b) as [|cb lb]; [discriminate Hb|].
  f_equal.
  assert (Hcase : length la = length lb \/ (length la < length lb)%nat
                  \/ (length lb < length la)%nat) by lia.
  destruct Hcase as [Hl|[Hl|Hl]].
  - apply value_inj_length; simpl; auto.
  - exfalso. assert (lb <> []) as Hne by (destruct lb; simpl in *; [lia|done]).
    pose proof (plain_numeral_bounds cb lb Hb Hne).
    pose proof (value_range _ Da) as R. simpl length in R.
    assert (10 ^ Z.of_nat (S (length la)) <= 10 ^ Z.of_nat (length lb))
      by (apply Z.pow_le_mono_r; lia).
    lia.
  - exfalso. assert (la <> []) as Hne by (destruct la; simpl in *; [lia|done]).
    pose proof (plain_numeral_bounds ca la Ha Hne).
    pose proof (value_range _ Db) as R. simpl length in R.
    assert (10 ^ Z.of_nat (S (length lb)) <= 10 ^ Z.of_nat (length la))
      by (apply Z.pow_le_mono_r; lia).
    lia.
Qed.

End IntFacts.

(** ** The malformed rule of the sanitizer *)






(** ** Counts of edges under [add_hop] and [remove_hop] *)

Section HopCounts.
Context {K : Type} `{Countable K}.
Variable edge_of : Z -> Z -> K.

Lemma counts_add_hop (g : nx.graph K) (h : Z * Z) :
  nx.counts (add_hop edge_of g h) = incr_count (nx.counts g) (edge_of h.1 h.2).
Proof. unfold add_hop, incr_count. by destruct (nx.counts g !! _). Qed.

Lemma counts_remove_hop (g : nx.graph K) (h : Z * Z) :
  nx.counts (remove_hop edge_of g h) = decr_count (nx.counts g) (edge_of h.1 h.2).
Proof.
  unfold remove_hop, decr_count. destruct (nx.counts g !! _) as [c|]; [|done].
  destruct (c - 1 =? 0); simpl; [|done]. by rewrite delete_insert_eq.
Qed.

Lemma nodes_remove_hop (g : nx.graph K) (h : Z * Z) :
  nx.nodes (remove_hop edge_of g h) = nx.nodes g.
Proof.
  unfold remove_hop. destruct (nx.counts g !! _) as [c|]; [|done].
  by destruct (c - 1 =? 0).
Qed.

Lemma positive_incr (m : gmap K Z) (k : K) :
  positive m -> positive (incr_count m k).
Proof.
  intros Hm. unfold incr_count. destruct (m !! k) as [c|] eqn:E.
  - apply map_Forall_insert_2; [|done]. specialize (Hm k c E). simpl in Hm. lia.
  - apply map_Forall_insert_2; [lia|done].
Qed.

Lemma positive_decr (m : gmap K Z) (k : K) :
  positive m -> positive (decr_count m k).
Proof.
  intros Hm. unfold decr_count. destruct (m !! k) as [c|] eqn:E; [|done].
  destruct (c - 1 =? 0) eqn:E0.
  - by apply map_Forall_delete.
  - apply map_Forall_insert_2; [|done].
    specialize (Hm k c E). simpl in Hm. apply Z.eqb_neq in E0. lia.
Qed.

Lemma incr_is_Some (m : gmap K Z) (k k' : K) :
  is_Some (m !! k) -> is_Some (incr_count m k' !! k).
Proof.
  intros Hk. unfold incr_count.
  destruct (m !! k') eqn:E; (destruct (decide (k' = k)) as [->|Hne];
    [rewrite lookup_insert_eq; by eexists|by rewrite lookup_insert_ne]).
Qed.

(** A decrement undoes an increment of the same edge. *)
Lemma decr_incr (m : gmap K Z) (k : K) :
  positive m -> decr_count (incr_count m k) k = m.
Proof.
  intros Hm. unfold incr_count. destruct (m !! k) as [c|] eqn:E.
  - unfold decr_count. rewrite lookup_insert_eq.
    specialize (Hm k c E). simpl in Hm.
    replace (c + 1 - 1) with c by lia.
    destruct (c =? 0) eqn:E0; [apply Z.eqb_eq in E0; lia|].
    rewrite insert_insert_eq. by apply insert_id.
  - unfold decr_count. rewrite lookup_insert_eq. simpl.
    rewrite delete_insert_eq. by apply delete_id.
Qed.

(** A decrement of an edge that is there passes over the increment of
    any edge. *)
Lemma decr_incr_commute (m : gmap K Z) (k k' : K) :
  positive m -> is_Some (m !! k) ->
  decr_count (incr_count m k') k = incr_count (decr_count m k) k'.
Proof.
  intros Hm [c Hc]. pose proof (Hm k c Hc) as Hpos. simpl in Hpos.
  destruct (decide (k = k')) as [<-|Hne].
  - rewrite decr_incr by done.
    unfold decr_count. rewrite Hc. destruct (c - 1 =? 0) eqn:E0.
    + apply Z.eqb_eq in E0. unfold incr_count. rewrite lookup_delete_eq.
      rewrite insert_delete_eq. replace 1 with c by lia. by rewrite insert_id.
    + unfold incr_count. rewrite lookup_insert_eq, insert_insert_eq.
      replace (c - 1 + 1) with c by lia. by rewrite insert_id.
  - unfold incr_count at 1. destruct (m !! k') as [c'|] eqn:E'.
    + unfold decr_count. rewrite lookup_insert_ne, Hc by done.
      destruct (c - 1 =? 0).
      * unfold incr_count. rewrite lookup_delete_ne, E' by done.
        by rewrite delete_insert_ne.
      * unfold incr_count. rewrite lookup_insert_ne, E' by done.
        by apply insert_insert_ne.
    + unfold decr_count. rewrite lookup_insert_ne, Hc by done.
      destruct (c - 1 =? 0).
      * unfold incr_count. rewrite lookup_delete_ne, E' by done.
        by rewrite delete_insert_ne.
      * unfold incr_count. rewrite lookup_insert_ne, E' by done.
        by apply insert_insert_ne.
Qed.

Lemma positive_incr_all (ks : list K) (m : gmap K Z) :
  positive m -> positive (incr_all ks m).
Proof.
  revert m. induction ks as [|k ks IH]; intros m Hm; [done|].
  apply IH. by apply positive_incr.
Qed.

Lemma positive_decr_all (ks : list K) (m : gmap K Z) :
  positive m -> positive (decr_all ks m).
Proof.
  revert m. induction ks as [|k ks IH]; intros m Hm; [done|].
  apply IH. by apply positive_decr.
Qed.

Lemma decr_incr_all_commute (ks : list K) (m : gmap K Z) (k : K) :
  positive m -> is_Some (m !! k) ->
  decr_count (incr_all ks m) k = incr_all ks (decr_count m k).
Proof.
  revert m. induction ks as [|k' ks IH]; intros m Hm Hk; [done|].
  simpl. rewrite IH.
  - by rewrite decr_incr_commute.
  - by apply positive_incr.
  - by apply incr_is_Some.
Qed.

(** The decrements of a list of edges undo the increments of the same
    list, though all the increments come first. *)
Lemma decr_incr_all (ks : list K) (m : gmap K Z) :
  positive m -> decr_all ks (incr_all ks m) = m.
Proof.
  revert m. induction ks as [|k ks IH]; intros m Hm; [done|].
  simpl. rewrite decr_incr_all_commute.
  - rewrite decr_incr by done. by apply IH.
  - by apply positive_incr.
  - unfold incr_count. destruct (m !! k); rewrite lookup_insert_eq; by eexists.
Qed.

Lemma counts_add_hops (hs : list (Z * Z)) (g : nx.graph K) :
  nx.counts (fold_left (add_hop edge_of) hs g)
  = incr_all (keys_of edge_of hs) (nx.counts g).
Proof.
  revert g. induction hs as [|h hs IH]; intros g; [done|].
  simpl. by rewrite IH, counts_add_hop.
Qed.

Lemma counts_remove_hops (hs : list (Z * Z)) (g : nx.graph K) :
  nx.counts (fold_left (remove_hop edge_of) hs g)
  = decr_all (keys_of edge_of hs) (nx.counts g).
Proof.
  revert g. induction hs as [|h hs IH]; intros g; [done|].
  simpl. by rewrite IH, counts_remove_hop.
Qed.

Lemma nodes_remove_hops (hs : list (Z * Z)) (g : nx.graph K) :
  nx.nodes (fold_left (remove_hop edge_of) hs g) = nx.nodes g.
Proof.
  revert g. induction hs as [|h hs IH]; intros g; [done|].
  simpl. by rewrite IH, nodes_remove_hop.
Qed.

Lemma positive_graph_add_path (g : nx.graph K) (p : path) :
  positive (nx.counts g) -> positive (nx.counts (graph_add_path edge_of g p)).
Proof.
  intros Hg. unfold graph_add_path. rewrite counts_add_hops.
  by apply positive_incr_all.
Qed.

Lemma positive_graph_remove_path (g : nx.graph K) (p : path) :
  positive (nx.counts g) -> positive (nx.counts (graph_remove_path edge_of g p)).
Proof.
  intros Hg. unfold graph_remove_path. rewrite counts_remove_hops.
  by apply positive_decr_all.
Qed.

(** The edges and their counts after a path was added and removed. *)
Lemma counts_add_remove_path (g : nx.graph K) (p : path) :
  positive (nx.counts g) ->
  nx.counts (graph_remove_path edge_of (graph_add_path edge_of g p) p) = nx.counts g.
Proof.
  intros Hg. unfold graph_remove_path, graph_add_path.
  rewrite counts_remove_hops, counts_add_hops. by apply decr_incr_all.
Qed.

(** The ends that the identity of an edge records are those of the hop. *)
Variable ends_of : K -> Z * Z.
Hypothesis ends_of_edge :
  forall u v, ends_of (edge_of u v) = (u, v) \/ ends_of (edge_of u v) = (v, u).

Lemma ends_add_hop (g : nx.graph K) (h : Z * Z) :
  ends_are_nodes ends_of g ->
  ends_are_nodes ends_of (add_hop edge_of g h) /\
  nx.nodes (add_hop edge_of g h) = nx.nodes g ∪ ({[h.1]} ∪ {[h.2]}).
Proof.
  intros Hg. unfold add_hop.
  destruct (nx.counts g !! edge_of h.1 h.2) as [c|] eqn:E; simpl.
  - pose proof (Hg _ _ E) as Hh. simpl in Hh. split.
    + apply map_Forall_insert_2; [done|]. exact Hg.
    + destruct (ends_of_edge h.1 h.2) as [Heq|Heq]; rewrite Heq in Hh;
        simpl in Hh; set_solver.
  - split; [|set_solver].
    apply map_Forall_insert_2; simpl.
    + destruct (ends_of_edge h.1 h.2) as [->| ->]; simpl; set_solver.
    + intros k c Hk. specialize (Hg k c Hk). simpl in Hg. set_solver.
Qed.

Lemma ends_remove_hop (g : nx.graph K) (h : Z * Z) :
  ends_are_nodes ends_of g -> ends_are_nodes ends_of (remove_hop edge_of g h).
Proof.
  intros Hg. unfold ends_are_nodes.
  rewrite nodes_remove_hop, counts_remove_hop. unfold decr_count.
  destruct (nx.counts g !! edge_of h.1 h.2) as [c|] eqn:E; [|done].
  destruct (c - 1 =? 0).
  - by apply map_Forall_delete.
  - apply map_Forall_insert_2; [|done]. exact (Hg _ _ E).
Qed.

Lemma ends_add_hops (hs : list (Z * Z)) (g : nx.graph K) :
  ends_are_nodes ends_of g ->
  ends_are_nodes ends_of (fold_left (add_hop edge_of) hs g) /\
  nx.nodes (fold_left (add_hop edge_of) hs g) = nx.nodes g ∪ hop_ends hs.
Proof.
  revert g. induction hs as [|h hs IH]; intros g Hg.
  - split; [done|]. simpl. set_solver.
  - destruct (ends_add_hop g h Hg) as [Hg' Hn].
    destruct (IH _ Hg') as [Hw Hnodes]. split; [done|].
    simpl. rewrite Hnodes, Hn. set_solver.
Qed.

Lemma ends_remove_hops (hs : list (Z * Z)) (g : nx.graph K) :
  ends_are_nodes ends_of g ->
  ends_are_nodes ends_of (fold_left (remove_hop edge_of) hs g).
Proof.
  revert g. induction hs as [|h hs IH]; intros g Hg; [done|].
  simpl. apply IH. by apply ends_remove_hop.
Qed.

Lemma ends_graph_add_path (g : nx.graph K) (p : path) :
  ends_are_nodes ends_of g -> ends_are_nodes ends_of (graph_add_path edge_of g p).
Proof. intros Hg. by apply ends_add_hops. Qed.

Lemma ends_graph_remove_path (g : nx.graph K) (p : path) :
  ends_are_nodes ends_of g -> ends_are_nodes ends_of (graph_remove_path edge_of g p).
Proof. intros Hg. by apply ends_remove_hops. Qed.

(** The vertices after a path was added and removed: those of the path
    stay behind. *)
Lemma nodes_add_remove_path (g : nx.graph K) (p : path) :
  ends_are_nodes ends_of g ->
  nx.nodes (graph_remove_path edge_of (graph_add_path edge_of g p) p)
  = nx.nodes g ∪ hop_ends (hops p).
Proof.
  intros Hg. unfold graph_remove_path, graph_add_path.
  rewrite nodes_remove_hops. by apply ends_add_hops.
Qed.

End HopCounts.

(** ** The two kinds of edges *)

Lemma edge_key_ends (u v : Z) :
  nx.edge_key u v = (u, v) \/ nx.edge_key u v = (v, u).
Proof. unfold nx.edge_key. destruct (u <=? v); auto. Qed.

Lemma edge_key_sym (u v : Z) : nx.edge_key u v = nx.edge_key v u.
Proof.
  unfold nx.edge_key. destruct (u <=? v) eqn:E1, (v <=? u) eqn:E2; try done.
  - apply Z.leb_le in E1, E2. by replace v with u by lia.
  - apply Z.leb_gt in E1, E2. lia.
Qed.

(** ** The path observer *)

Section PathObserverFacts.
Implicit Types (pc : PathObserver.t) (p : path).

Lemma path_add_positive pc p :
  positive pc -> positive (PathObserver._add_path pc p).
Proof.
  intros Hpc. unfold PathObserver._add_path.
  apply map_Forall_insert_2; [|done].
  destruct (pc !! p) as [c|] eqn:E; simpl; [|lia].
  specialize (Hpc p c E). simpl in Hpc. lia.
Qed.

Lemma path_remove_positive pc p :
  positive pc -> positive (PathObserver._remove_path pc p).
Proof.
  intros Hpc. unfold PathObserver._remove_path. cbv zeta.
  rewrite lookup_insert_eq. simpl.
  destruct (default 0 (pc !! p) - 1 <=? 0) eqn:E.
  - rewrite delete_insert_eq. by apply map_Forall_delete.
  - apply Z.leb_gt in E. apply map_Forall_insert_2; [lia|done].
Qed.

Lemma path_add_remove pc p :
  positive pc -> PathObserver._remove_path (PathObserver._add_path pc p) p = pc.
Proof.
  intros Hpc. unfold PathObserver._remove_path, PathObserver._add_path. cbv zeta.
  rewrite !lookup_insert_eq. simpl. rewrite insert_insert_eq.
  replace (default 0 (pc !! p) + 1 - 1) with (default 0 (pc !! p)) by lia.
  destruct (pc !! p) as [c|] eqn:E; simpl.
  - specialize (Hpc p c E). simpl in Hpc.
    destruct (c <=? 0) eqn:E0; [apply Z.leb_le in E0; lia|].
    by apply insert_id.
  - rewrite delete_insert_eq. by apply delete_id.
Qed.

Lemma path_deliver_positive (e : event) pc :
  positive pc -> positive (deliver e pc).
Proof.
  intros Hpc. destruct e as [? ? ? ? p|? ? ? ? p|? ? ? ? n o]; simpl.
  - by apply path_add_positive.
  - by apply path_remove_positive.
  - destruct (truthy o).
    + by apply path_add_positive, path_remove_positive.
    + by apply path_add_positive.
Qed.
End PathObserverFacts.

(** ** The graph observers *)

Section GraphObserverFacts.
Context {K : Type} `{Countable K}.
Variable edge_of : string -> string -> Z -> Z -> K.

Lemma on_family_positive (f : nx.graph K -> nx.graph K) (fam : family)
    (o : graphs K) :
  (forall g, positive (nx.counts g) -> positive (nx.counts (f g))) ->
  graphs_positive o -> graphs_positive (on_family f fam o).
Proof. intros Hf [H4 H6]. destruct fam; split; simpl; auto. Qed.

Lemma base_add_positive fam rc peer_ip pfx p (o : graphs K) :
  graphs_positive o ->
  graphs_positive (base_add_path (add_with edge_of) fam rc peer_ip pfx p o).
Proof.
  apply on_family_positive. intros g. apply positive_graph_add_path.
Qed.

Lemma base_withdrawal_positive fam rc peer_ip pfx p (o : graphs K) :
  graphs_positive o ->
  graphs_positive (base_update_withdrawal (remove_with edge_of) fam rc peer_ip pfx p o).
Proof.
  apply on_family_positive. intros g. apply positive_graph_remove_path.
Qed.

Lemma base_announcement_positive fam rc peer_ip pfx n old (o : graphs K) :
  graphs_positive o ->
  graphs_positive
    (base_update_announcement (add_with edge_of) (remove_with edge_of)
       fam rc peer_ip pfx n old o).
Proof.
  unfold base_update_announcement. destruct (truthy old).
  - apply on_family_positive. intros g Hg.
    by apply positive_graph_add_path, positive_graph_remove_path.
  - apply on_family_positive. intros g. apply positive_graph_add_path.
Qed.

Lemma graph_of_on_family (f : nx.graph K -> nx.graph K) (fam fam' : family)
    (o : graphs K) :
  graph_of fam' (on_family f fam o)
  = if decide (fam' = fam) then f (graph_of fam' o) else graph_of fam' o.
Proof. by destruct fam, fam'. Qed.

Variable ends_of : K -> Z * Z.
Hypothesis ends_of_edge :
  forall rc peer_ip u v,
    ends_of (edge_of rc peer_ip u v) = (u, v) \/
    ends_of (edge_of rc peer_ip u v) = (v, u).

Lemma on_family_ends (f : nx.graph K -> nx.graph K) (fam : family)
    (o : graphs K) :
  (forall g, ends_are_nodes ends_of g -> ends_are_nodes ends_of (f g)) ->
  graphs_ends_are_nodes ends_of o -> graphs_ends_are_nodes ends_of (on_family f fam o).
Proof. intros Hf [H4 H6]. destruct fam; split; simpl; auto. Qed.

Lemma base_add_ends fam rc peer_ip pfx p (o : graphs K) :
  graphs_ends_are_nodes ends_of o ->
  graphs_ends_are_nodes ends_of (base_add_path (add_with edge_of) fam rc peer_ip pfx p o).
Proof.
  apply on_family_ends. intros g. by apply ends_graph_add_path.
Qed.

Lemma base_withdrawal_ends fam rc peer_ip pfx p (o : graphs K) :
  graphs_ends_are_nodes ends_of o ->
  graphs_ends_are_nodes ends_of
    (base_update_withdrawal (remove_with edge_of) fam rc peer_ip pfx p o).
Proof.
  apply on_family_ends. intros g. by apply ends_graph_remove_path.
Qed.

Lemma base_announcement_ends fam rc peer_ip pfx n old (o : graphs K) :
  graphs_ends_are_nodes ends_of o ->
  graphs_ends_are_nodes ends_of
    (base_update_announcement (add_with edge_of) (remove_with edge_of)
       fam rc peer_ip pfx n old o).
Proof.
  unfold base_update_announcement. destruct (truthy old).
  - apply on_family_ends. intros g Hg.
    eapply ends_graph_add_path; [done|]. by eapply ends_graph_remove_path.
  - apply on_family_ends. intros g. by apply ends_graph_add_path.
Qed.

(** A path added and then withdrawn: the counts of both graphs are back,
    and the vertices of the path stay in the graph of its family. *)
Lemma base_add_withdraw fam rc peer_ip pfx p (o : graphs K) (fam' : family) :
  graphs_positive o -> graphs_ends_are_nodes ends_of o ->
  let o' := base_update_withdrawal (remove_with edge_of) fam rc peer_ip pfx p
              (base_add_path (add_with edge_of) fam rc peer_ip pfx p o) in
  nx.counts (graph_of fam' o') = nx.counts (graph_of fam' o) /\
  nx.nodes (graph_of fam' o')
  = nx.nodes (graph_of fam' o)
    ∪ (if decide (fam' = fam) then hop_ends (hops p) else ∅).
Proof.
  intros [P4 P6] [E4 E6]. cbv zeta.
  unfold base_update_withdrawal, base_add_path.
  rewrite !graph_of_on_family.
  destruct (decide (fam' = fam)) as [->|Hne]; [|split; [done|set_solver]].
  unfold remove_with, add_with. split.
  - apply counts_add_remove_path. by destruct fam.
  - eapply nodes_add_remove_path; [done|]. by destruct fam.
Qed.
End GraphObserverFacts.

(** ** The update counter *)

Section UpdateCountFacts.
Import UpdateCountObserver.

Lemma incr_positive (k : string) (d : gmap string Z) :
  positive d -> positive (incr k d).
Proof.
  intros Hd. apply map_Forall_insert_2; [|done].
  destruct (d !! k) as [c|] eqn:E; simpl; [|lia].
  specialize (Hd k c E). simpl in Hd. lia.
Qed.

Lemma incr2_positive (rc peer_ip : string) (d : gmap string (gmap string Z)) :
  map_Forall (fun _ per_peer => positive per_peer) d ->
  map_Forall (fun _ per_peer => positive per_peer) (incr2 rc peer_ip d).
Proof.
  intros Hd. apply map_Forall_insert_2; [|done]. apply incr_positive.
  destruct (d !! rc) as [m|] eqn:E; simpl; [exact (Hd rc m E)|].
  apply map_Forall_empty.
Qed.

Lemma update_count_deliver_positive (e : event) (o : t) :
  update_counts_positive o -> update_counts_positive (deliver e o).
Proof.
  intros (H1 & H2 & H3 & H4 & H5 & H6).
  destruct e as [fam ? ? ? ?|fam ? ? ? ?|fam ? ? ? ? ?]; simpl;
    try destruct fam; repeat split; simpl;
    auto using incr_positive, incr2_positive.
Qed.
End UpdateCountFacts.

(** ** Graph observers under additions *)

Section GraphAdditions.
Context {K : Type} `{Countable K}.
Variable edge_of : string -> string -> Z -> Z -> K.
Variable graph_deliver : event -> graphs K -> graphs K.
Hypothesis graph_deliver_add :
  forall fam rc peer_ip pfx p o,
    graph_deliver (AddPath fam rc peer_ip pfx p) o
    = base_add_path (add_with edge_of) fam rc peer_ip pfx p o.

Lemma edge_count_incr (m : gmap K Z) (k k' : K) :
  edge_count (incr_count m k') k
  = edge_count m k + (if decide (k' = k) then 1 else 0).
Proof.
  unfold edge_count, incr_count.
  destruct (decide (k' = k)) as [->|Hne].
  - destruct (m !! k); rewrite lookup_insert_eq; simpl; lia.
  - destruct (m !! k'); rewrite lookup_insert_ne by done; lia.
Qed.

Lemma edge_count_incr_all (ks : list K) (m : gmap K Z) (k : K) :
  edge_count (incr_all ks m) k = edge_count m k + Z.of_nat (times k ks).
Proof.
  revert m. induction ks as [|k' ks IH]; intros m; simpl; [lia|].
  unfold incr_all in *. rewrite IH, edge_count_incr.
  destruct (decide (k' = k)); lia.
Qed.

Lemma incr_all_app (ks1 ks2 : list K) (m : gmap K Z) :
  incr_all (ks1 ++ ks2) m = incr_all ks2 (incr_all ks1 m).
Proof. apply fold_left_app. Qed.

(** The counts of the graph of a family after [add_path] calls. *)
Lemma counts_after_adds (fam : family) (evs : list event) (o : graphs K) :
  Forall is_add_path evs ->
  nx.counts (graph_of fam (fold_left (fun a e => graph_deliver e a) evs o))
  = incr_all (added_keys edge_of fam evs) (nx.counts (graph_of fam o)).
Proof.
  intros Hadd. revert o. induction Hadd as [|e evs He _ IH]; intros o; [done|].
  destruct e as [fam' rc peer pfx p| |]; [|done..].
  simpl fold_left. rewrite IH, graph_deliver_add.
  unfold added_keys. rewrite fmap_cons. simpl concat. rewrite incr_all_app.
  f_equal. unfold base_add_path. rewrite graph_of_on_family.
  destruct (decide (fam = fam')) as [->|Hne].
  - rewrite decide_True by done. unfold add_with, graph_add_path.
    apply counts_add_hops.
  - by rewrite decide_False by done.
Qed.

Lemma edge_count_after_adds (fam : family) (evs : list event) (o : graphs K) (k : K) :
  Forall is_add_path evs ->
  edge_count (nx.counts (graph_of fam (fold_left (fun a e => graph_deliver e a) evs o))) k
  = edge_count (nx.counts (graph_of fam o)) k
    + Z.of_nat (times k (added_keys edge_of fam evs)).
Proof.
  intros Hadd. rewrite (counts_after_adds fam evs o Hadd).
  apply edge_count_incr_all.
Qed.
End GraphAdditions.

(** ** Runs *)

Lemma run_invariant {A : Type} `{Observer A} (P : A -> Prop) (evs : list event) (a : A) :
  (forall e a, P a -> P (deliver e a)) -> P a -> P (run evs a).
Proof.
  intros Hstep. revert a. induction evs as [|e evs IH]; intros a Ha; [done|].
  simpl. apply IH. by apply Hstep.
Qed.

Lemma run_app {A : Type} `{Observer A} (evs1 evs2 : list event) (a : A) :
  run (evs1 ++ evs2) a = run evs2 (run evs1 a).
Proof. apply fold_left_app. Qed.

Lemma graph_deliver_positive (e : event) (o : ASGraphObserver.t) :
  graphs_positive o -> graphs_positive (deliver e o).
Proof.
  intros Ho. destruct e; simpl.
  - by apply (base_add_positive (fun _ _ : string => nx.edge_key)).
  - by apply (base_withdrawal_positive (fun _ _ : string => nx.edge_key)).
  - by apply (base_announcement_positive (fun _ _ : string => nx.edge_key)).
Qed.

Lemma multigraph_deliver_positive (e : event) (o : ASMultiGraphObserver.t) :
  graphs_positive o -> graphs_positive (deliver e o).
Proof.
  intros Ho. destruct e; simpl.
  - by apply (base_add_positive ASMultiGraphObserver.edge_of).
  - by apply (base_withdrawal_positive ASMultiGraphObserver.edge_of).
  - by apply (base_announcement_positive ASMultiGraphObserver.edge_of).
Qed.

Lemma graph_deliver_ends (e : event) (o : ASGraphObserver.t) :
  graphs_ends_are_nodes id o -> graphs_ends_are_nodes id (deliver e o).
Proof.
  intros Ho.
  pose proof (fun _ _ : string => edge_key_ends) as Hends.
  destruct e as [fam rc peer pfx p|fam rc peer pfx p|fam rc peer pfx n old].
  - exact (base_add_ends (fun _ _ => nx.edge_key) id Hends fam rc peer pfx p o Ho).
  - exact (base_withdrawal_ends (fun _ _ => nx.edge_key) id fam rc peer pfx p o Ho).
  - exact (base_announcement_ends (fun _ _ => nx.edge_key) id Hends
             fam rc peer pfx n old o Ho).
Qed.

Lemma multi_edge_ends (rc peer_ip : string) (u v : Z) :
  fst (ASMultiGraphObserver.edge_of rc peer_ip u v) = (u, v) \/
  fst (ASMultiGraphObserver.edge_of rc peer_ip u v) = (v, u).
Proof. apply edge_key_ends. Qed.

Lemma multigraph_deliver_ends (e : event) (o : ASMultiGraphObserver.t) :
  graphs_ends_are_nodes fst o -> graphs_ends_are_nodes fst (deliver e o).
Proof.
  intros Ho.
  destruct e as [fam rc peer pfx p|fam rc peer pfx p|fam rc peer pfx n old].
  - exact (base_add_ends ASMultiGraphObserver.edge_of fst multi_edge_ends
             fam rc peer pfx p o Ho).
  - exact (base_withdrawal_ends ASMultiGraphObserver.edge_of fst
             fam rc peer pfx p o Ho).
  - exact (base_announcement_ends ASMultiGraphObserver.edge_of fst multi_edge_ends
             fam rc peer pfx n old o Ho).
Qed.

Lemma deliver_positive (e : event) (o : observer_state) :
  counts_positive o -> counts_positive (deliver e o).
Proof.
  destruct o as [g|g|c|pc]; intros Ho.
  - pose proof (graph_deliver_positive e g Ho). by destruct e.
  - pose proof (multigraph_deliver_positive e g Ho). by destruct e.
  - pose proof (update_count_deliver_positive e c Ho). by destruct e.
  - pose proof (path_deliver_positive e pc Ho). by destruct e.
Qed.

Lemma init_graphs_positive {K : Type} `{Countable K} :
  graphs_positive (mk_graphs (K:=K) nx.empty nx.empty).
Proof. split; apply map_Forall_empty. Qed.

Lemma init_graphs_ends {K : Type} `{Countable K} (ends_of : K -> Z * Z) :
  graphs_ends_are_nodes ends_of (mk_graphs (K:=K) nx.empty nx.empty).
Proof. split; apply map_Forall_empty. Qed.

(** ** Non-negativity of the counts *)

(** C7. Whatever sequence of [add_path], [update_announcement] and
    [update_withdrawal] calls an observer has received since it was
    created, every count it holds is at least one: the [paths_count] of a
    graph edge and of a multigraph edge under its key, the multiplicity of
    a path, and every counter of updates. So no count is negative after
    any call, and an edge or a path whose count came down to zero is gone
    from the structure. *)
Theorem counts_never_negative (evs : list event) :
  counts_positive (run evs (OGraph ASGraphObserver.init)) /\
  counts_positive (run evs (OMultiGraph ASMultiGraphObserver.init)) /\
  counts_positive (run evs (OUpdateCount UpdateCountObserver.init)) /\
  counts_positive (run evs (OPath PathObserver.init)).
Proof.
  repeat split;
    (apply (run_invariant counts_positive); [apply deliver_positive|]);
    try apply map_Forall_empty; simpl; try apply init_graphs_positive.
  repeat split; apply map_Forall_empty.
Qed.

(** ** Announcements against withdrawals and additions *)

(** C5. For the graph observer, the multigraph observer and the path
    observer, an announcement that carries a non-empty old path [o] and
    the new path [n] leaves the observer as a withdrawal of [o] followed
    by an addition of [n] does. *)
Theorem announcement_symmetry (fam : family) (rc peer_ip pfx : string) (n o : path) :
  o <> [] ->
  (forall g : ASGraphObserver.t,
     update_announcement fam rc peer_ip pfx n (Some o) g
     = add_path fam rc peer_ip pfx n (update_withdrawal fam rc peer_ip pfx o g)) /\
  (forall g : ASMultiGraphObserver.t,
     update_announcement fam rc peer_ip pfx n (Some o) g
     = add_path fam rc peer_ip pfx n (update_withdrawal fam rc peer_ip pfx o g)) /\
  (forall pc : PathObserver.t,
     update_announcement fam rc peer_ip pfx n (Some o) pc
     = add_path fam rc peer_ip pfx n (update_withdrawal fam rc peer_ip pfx o pc)).
Proof.
  intros Ho. destruct o as [|a o]; [done|].
  repeat split; intros g; simpl; try done;
    unfold base_update_announcement, base_add_path, base_update_withdrawal; simpl;
    by destruct fam.
Qed.

Lemma announcement_symmetry_witness :
  update_announcement IPv4 "rrc00" "1.2.3.4" "10.0.0.0/24" [100; 200; 400]
    (Some [100; 200; 300]) (PathObserver._add_path PathObserver.init [100; 200; 300])
  = add_path IPv4 "rrc00" "1.2.3.4" "10.0.0.0/24" [100; 200; 400]
      (update_withdrawal IPv4 "rrc00" "1.2.3.4" "10.0.0.0/24" [100; 200; 300]
         (PathObserver._add_path PathObserver.init [100; 200; 300])).
Proof.
  apply (announcement_symmetry IPv4 "rrc00" "1.2.3.4" "10.0.0.0/24"
           [100; 200; 400] [100; 200; 300]).
  discriminate.
Defined.

(** ** A path added and removed *)

(** C6, as the code has it. In every state an observer can reach,
    [add_path(p)] followed by the removal of [p] gives the path observer
    its prior state back, and gives a graph observer (graph or multigraph)
    its prior edges with their prior counts back; the vertices, though, are
    the prior ones and those of the hops of [p] in the graph of the family
    of the call: removing an edge leaves its ends in the graph. *)
Theorem add_remove_round_trip (evs : list event) (fam : family)
    (rc peer_ip pfx : string) (p : path) :
  (let pc := run evs PathObserver.init in
   update_withdrawal fam rc peer_ip pfx p (add_path fam rc peer_ip pfx p pc) = pc) /\
  (let o := run evs ASGraphObserver.init in
   let o' := update_withdrawal fam rc peer_ip pfx p (add_path fam rc peer_ip pfx p o) in
   forall fam',
     nx.counts (graph_of fam' o') = nx.counts (graph_of fam' o) /\
     nx.nodes (graph_of fam' o')
     = nx.nodes (graph_of fam' o)
       ∪ (if decide (fam' = fam) then hop_ends (hops p) else ∅)) /\
  (let o := run evs ASMultiGraphObserver.init in
   let o' := update_withdrawal fam rc peer_ip pfx p (add_path fam rc peer_ip pfx p o) in
   forall fam',
     nx.counts (graph_of fam' o') = nx.counts (graph_of fam' o) /\
     nx.nodes (graph_of fam' o')
     = nx.nodes (graph_of fam' o)
       ∪ (if decide (fam' = fam) then hop_ends (hops p) else ∅)).
Proof.
  split; [|split]; cbv zeta.
  - apply path_add_remove.
    apply (run_invariant positive); [apply path_deliver_positive|].
    apply map_Forall_empty.
  - intros fam'.
    apply (base_add_withdraw (fun _ _ => nx.edge_key) id
             (fun _ _ : string => edge_key_ends) fam rc peer_ip pfx p
             (run evs ASGraphObserver.init) fam').
    + apply (run_invariant graphs_positive); [apply graph_deliver_positive|].
      apply init_graphs_positive.
    + apply (run_invariant (graphs_ends_are_nodes id)); [apply graph_deliver_ends|].
      apply init_graphs_ends.
  - intros fam'.
    apply (base_add_withdraw ASMultiGraphObserver.edge_of fst multi_edge_ends
             fam rc peer_ip pfx p (run evs ASMultiGraphObserver.init) fam').
    + apply (run_invariant graphs_positive); [apply multigraph_deliver_positive|].
      apply init_graphs_positive.
    + apply (run_invariant (graphs_ends_are_nodes fst));
        [apply multigraph_deliver_ends|].
      apply init_graphs_ends.
Qed.

(** The graph observer that has seen nothing does not come back to its
    state: the two vertices of the path remain. *)
Lemma add_remove_round_trip_counterexample :
  update_withdrawal IPv4 "rrc00" "1.2.3.4" "10.0.0.0/24" [100; 200]
    (add_path IPv4 "rrc00" "1.2.3.4" "10.0.0.0/24" [100; 200] ASGraphObserver.init)
  <> ASGraphObserver.init.
Proof.
  intros Heq.
  apply (f_equal (fun o => elements (nx.nodes (graph_ipv4 o)))) in Heq.
  vm_compute in Heq. discriminate Heq.
Qed.

(** ** The loop over the records of an update file *)

Section UpdateLoop.
Import RIBTable.
Variable peer_ip_filter : list string.
Variables ts_start ts_end : Z.
Variable rc : string.



Lemma update_turn_within (u : update_record) (w : work) :
  in_window ts_start ts_end u ->
  update_turn peer_ip_filter ts_start ts_end rc u w
  = Continue <$> apply_update peer_ip_filter rc (update_fields u) w.
Proof.
  intros [Hs He]. unfold update_turn.
  rewrite (proj2 (Z.ltb_ge _ _) Hs). by rewrite (proj2 (Z.ltb_ge _ _) He).
Qed.








End UpdateLoop.

(** ** Announcements that the sanitizer rejects *)

Section Announcements.
Import RIBTable.

Lemma apply_update_announcement (peer_ip_filter : list string) (rc : string)
    (update : fields) (peer_ip pfx as_path : string) (peer_asn : Z) (w : work) :
  announcement update peer_ip pfx as_path peer_asn ->
  peer_ip_filter = [] \/ peer_ip ∈ peer_ip_filter ->
  apply_update peer_ip_filter rc update w
  = Ok match w.2 !! peer_ip with
       | Some routes =>
           match sanitize as_path peer_asn with
           | Some new_path =>
               (notify_by_family pfx
                  (fun fam =>
                     _notify_update_announcement fam rc peer_ip pfx new_path
                       (routes !! pfx)) w.1,
                <[peer_ip := <[pfx := new_path]> routes]> w.2)
           | None => purge rc peer_ip pfx routes w
           end
       | None => w
       end.
Proof.
  intros [Hlen Htype Hpeer (text & Htext & Hasn) Hpfx Hpath] Hfilter.
  unfold apply_update. rewrite Htype, Hpeer, Hpfx, Htext, Hpath, Hlen. simpl.
  rewrite Hasn.
  assert (negb (bool_decide (peer_ip_filter = []))
          && negb (bool_decide (peer_ip ∈ peer_ip_filter)) = false) as ->.
  { destruct Hfilter as [Hf|Hf].
    - by rewrite (bool_decide_eq_true_2 _ Hf).
    - rewrite (bool_decide_eq_true_2 _ Hf). apply andb_false_r. }
  destruct (w.2 !! peer_ip) as [routes|]; [|done].
  unfold sanitize. destruct (parse_as_path as_path) as [p|]; [|done].
  by destruct (is_valid_path p peer_asn).
Qed.

Lemma entry_insert_eq (rib : peer_to_pfx_to_path) (peer_ip pfx : string)
    (routes : pfx_to_path) :
  entry (<[peer_ip := routes]> rib) peer_ip pfx = routes !! pfx.
Proof. unfold entry. by rewrite lookup_insert_eq. Qed.

Lemma entry_insert_ne (rib : peer_to_pfx_to_path) (peer_ip peer' pfx' : string)
    (routes : pfx_to_path) :
  peer' <> peer_ip -> entry (<[peer_ip := routes]> rib) peer' pfx' = entry rib peer' pfx'.
Proof. intros Hne. unfold entry. by rewrite lookup_insert_ne. Qed.

(** What [purge] does to the table: the entry goes, the others stay. *)
Lemma purge_table (rc peer_ip pfx : string) (routes : pfx_to_path) (w : work) :
  w.2 !! peer_ip = Some routes ->
  entry (purge rc peer_ip pfx routes w).2 peer_ip pfx = None /\
  forall peer' pfx',
    (peer', pfx') <> (peer_ip, pfx) ->
    entry (purge rc peer_ip pfx routes w).2 peer' pfx' = entry w.2 peer' pfx'.
Proof.
  intros Hroutes. unfold purge. destruct (routes !! pfx) as [old|] eqn:E; simpl.
  - split; [rewrite entry_insert_eq; apply lookup_delete_eq|].
    intros peer' pfx' Hne. destruct (decide (peer' = peer_ip)) as [->|Hp].
    + rewrite entry_insert_eq. unfold entry. rewrite Hroutes. simpl.
      apply lookup_delete_ne. congruence.
    + by apply entry_insert_ne.
  - split; [|done]. unfold entry. by rewrite Hroutes.
Qed.

(** What the dispatch by family sends, in terms of the callbacks of the
    observers: every observer takes the call [e fam] of the family of the
    prefix, and no observer takes any call for a prefix of neither
    family. *)
Lemma notify_withdrawal_callbacks (pfx rc peer_ip : string) (old : path)
    (obs : list observer) :
  notify_by_family pfx (fun fam => _notify_update_withdrawal fam rc peer_ip pfx old) obs
  = match family_of pfx with
    | Some fam => on_state (deliver (UpdateWithdrawal fam rc peer_ip pfx old)) <$> obs
    | None => obs
    end.
Proof. unfold notify_by_family. by destruct (family_of pfx). Qed.

(** C8, as the code has it. An announcement in the window, from a peer
    the filter lets through, whose AS-path the sanitizer rejects
    (malformed or invalid). When the table holds an entry for its peer and
    its prefix, the entry is gone afterwards, nothing is installed and
    every other entry is as before; every observer has taken exactly the
    one call [update_withdrawal] of the family read off the prefix, with
    the old path, when the text of the prefix holds a dot or else a colon,
    and no observer has taken any call when it holds neither. When the
    table holds no such entry, the observers and the table are
    unchanged. *)
Theorem malformed_announcement_purge
    (peer_ip_filter : list string) (ts_start ts_end : Z) (rc : string)
    (u : update_record) (peer_ip pfx as_path : string) (peer_asn : Z) (w : work) :
  in_window ts_start ts_end u ->
  announcement (update_fields u) peer_ip pfx as_path peer_asn ->
  peer_ip_filter = [] \/ peer_ip ∈ peer_ip_filter ->
  sanitize as_path peer_asn = None ->
  (forall old,
     entry w.2 peer_ip pfx = Some old ->
     exists w',
       update_turn peer_ip_filter ts_start ts_end rc u w = Ok (Continue w') /\
       w'.1 = match family_of pfx with
              | Some fam =>
                  on_state (deliver (UpdateWithdrawal fam rc peer_ip pfx old)) <$> w.1
              | None => w.1
              end /\
       entry w'.2 peer_ip pfx = None /\
       forall peer' pfx',
         (peer', pfx') <> (peer_ip, pfx) -> entry w'.2 peer' pfx' = entry w.2 peer' pfx') /\
  (entry w.2 peer_ip pfx = None ->
   update_turn peer_ip_filter ts_start ts_end rc u w = Ok (Continue w)).
Proof.
  intros Hwin Hann Hfilter Hbad.
  rewrite (update_turn_within _ _ _ _ _ _ Hwin).
  rewrite (apply_update_announcement _ _ _ _ _ _ _ _ Hann Hfilter), Hbad.
  split.
  - intros old Hold. unfold entry in Hold.
    destruct (w.2 !! peer_ip) as [routes|] eqn:Hroutes; [|done]. simpl in Hold.
    eexists. split; [done|].
    split; [|by apply purge_table].
    unfold purge. rewrite Hold. simpl. apply notify_withdrawal_callbacks.
  - intros Hnone. unfold entry in Hnone.
    destruct (w.2 !! peer_ip) as [routes|] eqn:Hroutes; [|done]. simpl in Hnone.
    unfold purge. by rewrite Hnone.
Qed.

Lemma malformed_announcement_purge_witness :
  exists w',
    update_turn [] 0 (100 * one_second) "rrc00"
      (Scenario.announce 5 "1.2.3.4" "100" "10.0.0.0/24" "100 {200,201} 300")
      (Scenario.observers, Scenario.rib) = Ok (Continue w') /\
    w'.1 = on_state (deliver (UpdateWithdrawal IPv4 "rrc00" "1.2.3.4" "10.0.0.0/24"
                                [100; 200; 300])) <$> Scenario.observers /\
    entry w'.2 "1.2.3.4" "10.0.0.0/24" = None /\
    forall peer' pfx',
      (peer', pfx') <> ("1.2.3.4", "10.0.0.0/24")%string ->
      entry w'.2 peer' pfx' = entry Scenario.rib peer' pfx'.
Proof.
  apply (proj1 (malformed_announcement_purge [] 0 (100 * one_second) "rrc00"
                  (Scenario.announce 5 "1.2.3.4" "100" "10.0.0.0/24" "100 {200,201} 300")
                  "1.2.3.4" "10.0.0.0/24" "100 {200,201} 300" 100
                  (Scenario.observers, Scenario.rib)
                  ltac:(unfold in_window, one_second; simpl; lia)
                  ltac:(split; try reflexivity; exists "100"%string; split; reflexivity)
                  ltac:(left; reflexivity)
                  ltac:(reflexivity))
           [100; 200; 300]); reflexivity.
Defined.

(** An entry under a prefix whose text holds neither a dot nor a colon,
    as [build] stores one without telling the observers. An announcement
    for it that the sanitizer rejects removes the entry, and no
    notification is emitted: the observers, the update counter among
    them, are still as they were attached. *)
Lemma malformed_announcement_purge_counterexample :
  (fun s => (stored s "rrc00" "1.2.3.4" "default", _observers s))
    <$> Scenario.without_family
  = Ok (Some [100; 200; 300], Scenario.observers) /\
  (fun s => (stored s "rrc00" "1.2.3.4" "default", _observers s))
    <$> Scenario.without_family_purged
  = Ok (None, Scenario.observers).
Proof. split; vm_compute; reflexivity. Qed.

(** A prefix whose text shows neither family is purged all the same, and
    then no observer hears of it. *)
Remark purge_without_family (rc peer_ip pfx : string) (routes : pfx_to_path)
    (old : path) (w : work) :
  routes !! pfx = Some old -> family_of pfx = None ->
  purge rc peer_ip pfx routes w = (w.1, <[peer_ip := delete pfx routes]> w.2).
Proof. intros Hold Hfam. unfold purge, notify_by_family. by rewrite Hold, Hfam. Qed.

End Announcements.

(** ** The scenarios of the specification *)

Example scenario_s2 :
  (fun s => (Scenario.edge_count_of s 100 200, Scenario.edge_count_of s 200 300,
             Scenario.path_count_of s [100; 200; 300])) <$> Scenario.s2
  = Ok (Some 1, Some 1, Some 1).
Proof. vm_compute. reflexivity. Qed.

Example scenario_s3 :
  (fun s => (Scenario.edge_count_of s 100 200, Scenario.edge_count_of s 200 300,
             Scenario.edge_count_of s 200 400,
             Scenario.path_count_of s [100; 200; 300],
             Scenario.path_count_of s [100; 200; 400])) <$> Scenario.s3
  = Ok (Some 1, None, Some 1, None, Some 1).
Proof. vm_compute. reflexivity. Qed.

Example scenario_s4 :
  RIBTable.update Scenario.tracking
    [("rrc00"%string, [Scenario.withdraw (5 * one_second) "1.2.3.4" "100" "10.0.0.0/8"])]
  = Ok Scenario.tracking.
Proof. vm_compute. reflexivity. Qed.

(** ** The window and the flag of a collector *)

Section Window.
Import RIBTable.











End Window.



Example stopped_is_stopped_store : Scenario.stopped = Ok Scenario.stopped_store.
Proof. vm_compute. reflexivity. Qed.

(** ** What [build] sends to the observers *)

Section Build.
Import RIBTable.

Lemma on_state_id (obs : list observer) : on_state (run []) <$> obs = obs.
Proof.
  induction obs as [|[n s] obs IH]; [done|].
  rewrite fmap_cons, IH. done.
Qed.

Lemma on_state_run_app (evs1 evs2 : list event) (obs : list observer) :
  on_state (run (evs1 ++ evs2)) <$> obs
  = on_state (run evs2) <$> (on_state (run evs1) <$> obs).
Proof.
  rewrite <- list_fmap_compose. apply list_fmap_ext.
  intros _ [n s] _. unfold on_state. simpl. by rewrite run_app.
Qed.

Lemma build_line_observers (peer_ip_filter : list string) (rc : string)
    (res : fields) (w w' : work) :
  build_line peer_ip_filter rc res w = Ok w' ->
  w'.1 = on_state (run (line_events peer_ip_filter rc res)) <$> w.1.
Proof.
  unfold build_line, line_events, sanitize.
  destruct (take 4 (drop 3 res)) as [|peer_ip [|peer_asn [|pfx [|as_path [|]]]]];
    try done.
  destruct (Py.int peer_asn) as [asn|]; [|done].
  destruct (bool_decide (peer_ip_filter = []) || bool_decide (peer_ip ∈ peer_ip_filter));
    [|intros [= <-]; by rewrite on_state_id].
  destruct (parse_as_path as_path) as [p|]; [|intros [= <-]; by rewrite on_state_id].
  destruct (is_valid_path p asn); [|intros [= <-]; by rewrite on_state_id].
  intros [= <-]. simpl. unfold notify_by_family.
  destruct (family_of pfx) as [fam|]; [done|by rewrite on_state_id].
Qed.

Lemma build_lines_observers (peer_ip_filter : list string) (rc : string)
    (lines : list fields) (w w' : work) :
  build_lines peer_ip_filter rc lines w = Ok w' ->
  w'.1 = on_state (run (lines_events peer_ip_filter rc lines)) <$> w.1.
Proof.
  revert w. induction lines as [|res lines IH]; intros w.
  - intros [= <-]. by rewrite on_state_id.
  - simpl. destruct (build_line peer_ip_filter rc res w) as [w1|e] eqn:E; [|done].
    simpl. intros Hrest. apply IH in Hrest. apply build_line_observers in E.
    unfold lines_events. rewrite fmap_cons. simpl concat.
    rewrite on_state_run_app, <- E. exact Hrest.
Qed.

(** The table that [build] makes of the lines does not depend on the
    observers, nor does the exception. *)
Lemma build_line_table (peer_ip_filter : list string) (rc : string)
    (res : fields) (obs obs' : list observer) (rib : peer_to_pfx_to_path) :
  snd <$> build_line peer_ip_filter rc res (obs, rib)
  = snd <$> build_line peer_ip_filter rc res (obs', rib).
Proof.
  unfold build_line.
  destruct (take 4 (drop 3 res)) as [|peer_ip [|peer_asn [|pfx [|as_path [|]]]]];
    try done.
  destruct (Py.int peer_asn) as [asn|]; [|done].
  destruct (bool_decide (peer_ip_filter = []) || bool_decide (peer_ip ∈ peer_ip_filter));
    [|done].
  destruct (parse_as_path as_path) as [p|]; [|done].
  by destruct (is_valid_path p asn).
Qed.

Lemma build_lines_table (peer_ip_filter : list string) (rc : string)
    (lines : list fields) (obs obs' : list observer) (rib : peer_to_pfx_to_path) :
  snd <$> build_lines peer_ip_filter rc lines (obs, rib)
  = snd <$> build_lines peer_ip_filter rc lines (obs', rib).
Proof.
  revert obs obs' rib. induction lines as [|res lines IH]; intros obs obs' rib; [done|].
  simpl. pose proof (build_line_table peer_ip_filter rc res obs obs' rib) as Hl.
  destruct (build_line peer_ip_filter rc res (obs, rib)) as [[o1 r1]|e1];
    destruct (build_line peer_ip_filter rc res (obs', rib)) as [[o2 r2]|e2];
    unfold fmap, outcome_fmap, omap in Hl; simpl in *; try congruence.
  injection Hl as ->. apply IH.
Qed.

Lemma build_data_table (peer_ip_filter : list string)
    (rc_to_url : list (string * list fields)) (obs obs' : list observer)
    (acc : gmap string peer_to_pfx_to_path) :
  snd <$> build_data peer_ip_filter rc_to_url (obs, acc)
  = snd <$> build_data peer_ip_filter rc_to_url (obs', acc).
Proof.
  revert obs obs' acc.
  induction rc_to_url as [|[rc lines] rest IH]; intros obs obs' acc; [done|].
  simpl. unfold _build_rib_from_url.
  pose proof (build_lines_table peer_ip_filter rc lines obs obs' ∅) as Hl.
  destruct (build_lines peer_ip_filter rc lines (obs, ∅)) as [[o1 r1]|e1];
    destruct (build_lines peer_ip_filter rc lines (obs', ∅)) as [[o2 r2]|e2];
    unfold fmap, outcome_fmap, omap in Hl; simpl in *; try congruence.
  injection Hl as ->. apply IH.
Qed.

Lemma build_data_observers (peer_ip_filter : list string)
    (rc_to_url : list (string * list fields))
    (acc acc' : list observer * gmap string peer_to_pfx_to_path) :
  build_data peer_ip_filter rc_to_url acc = Ok acc' ->
  acc'.1 = on_state (run (build_events peer_ip_filter rc_to_url)) <$> acc.1.
Proof.
  revert acc. induction rc_to_url as [|[rc lines] rest IH]; intros acc.
  - intros [= <-]. by rewrite on_state_id.
  - simpl. unfold _build_rib_from_url.
    destruct (build_lines peer_ip_filter rc lines (acc.1, ∅)) as [w|e] eqn:E; [|done].
    simpl. intros Hrest. apply IH in Hrest. apply build_lines_observers in E.
    unfold build_events. rewrite fmap_cons. simpl concat.
    rewrite on_state_run_app. simpl in *. by rewrite <- E.
Qed.

Lemma line_events_add (peer_ip_filter : list string) (rc : string) (res : fields) :
  Forall is_add_path (line_events peer_ip_filter rc res).
Proof.
  unfold line_events.
  destruct (take 4 (drop 3 res)) as [|peer_ip [|peer_asn [|pfx [|as_path [|]]]]];
    try constructor.
  destruct (Py.int peer_asn) as [asn|]; [|constructor].
  destruct (bool_decide (peer_ip_filter = []) || bool_decide (peer_ip ∈ peer_ip_filter));
    [|constructor].
  destruct (sanitize as_path asn), (family_of pfx); repeat constructor.
Qed.

Lemma build_events_add (peer_ip_filter : list string)
    (rc_to_url : list (string * list fields)) :
  Forall is_add_path (build_events peer_ip_filter rc_to_url).
Proof.
  unfold build_events. apply Forall_concat, Forall_fmap, Forall_forall.
  intros [rc lines] _. simpl. unfold lines_events.
  apply Forall_concat, Forall_fmap, Forall_forall. intros res _.
  apply line_events_add.
Qed.

Lemma all_false_lookup {A : Type} (rc_to_url : list (string * A)) (rc : string) :
  rc ∈ rc_to_url.*1 -> all_false rc_to_url !! rc = Some false.
Proof.
  unfold all_false.
  assert (Hgen : forall m : gmap string bool,
            rc ∈ rc_to_url.*1 \/ m !! rc = Some false ->
            fold_left (fun m e => <[e.1 := false]> m) rc_to_url m !! rc = Some false).
  { induction rc_to_url as [|[rc' a] rest IH]; intros m [Hin|Hm]; simpl.
    - by apply elem_of_nil in Hin.
    - done.
    - apply IH. rewrite fmap_cons in Hin. apply elem_of_cons in Hin as [->|Hin].
      + right. apply lookup_insert_eq.
      + by left.
    - apply IH. right. destruct (decide (rc' = rc)) as [->|Hne].
      + apply lookup_insert_eq.
      + by rewrite lookup_insert_ne. }
  intros Hin. apply Hgen. by left.
Qed.

(** The path observer under additions: the multiplicity of a path grows by
    the number of times the path was added. *)
Lemma path_count_adds (evs : list event) (pc : PathObserver.t) (p : path) :
  Forall is_add_path evs ->
  path_count (run evs pc) p = path_count pc p + Z.of_nat (adds_of p evs).
Proof.
  intros Hadd. revert pc. induction Hadd as [|e evs He _ IH]; intros pc.
  - simpl. lia.
  - destruct e as [fam rc peer pfx q| |]; [|done..].
    change (run (AddPath fam rc peer pfx q :: evs) pc)
      with (run evs (PathObserver._add_path pc q)).
    rewrite IH. cbn [adds_of]. unfold path_count, PathObserver._add_path.
    destruct (decide (q = p)) as [->|Hne].
    + rewrite lookup_insert_eq. simpl. lia.
    + rewrite lookup_insert_ne by done. lia.
Qed.

Lemma run_path_state (evs : list event) (pc : PathObserver.t) :
  run evs (OPath pc) = OPath (run evs pc).
Proof.
  revert pc. induction evs as [|e evs IH]; intros pc; [done|].
  simpl. rewrite <- IH. by destruct e.
Qed.

Lemma run_graph_state (evs : list event) (g : ASGraphObserver.t) :
  run evs (OGraph g) = OGraph (run evs g).
Proof.
  revert g. induction evs as [|e evs IH]; intros g; [done|].
  simpl. rewrite <- IH. by destruct e.
Qed.

Lemma run_multigraph_state (evs : list event) (g : ASMultiGraphObserver.t) :
  run evs (OMultiGraph g) = OMultiGraph (run evs g).
Proof.
  revert g. induction evs as [|e evs IH]; intros g; [done|].
  simpl. rewrite <- IH. by destruct e.
Qed.

(** C10. A call of [build] on a store that was built before: the tables
    and the flags are those a store without history gets from the same
    files, every collector of the call has its flag at false, and nothing
    of the old tables remains; the observers are not reset: each keeps its
    state and receives, on top of it, the [add_path] calls of the new
    files, and only such calls. So the counts add up over the builds: the
    multiplicity of a path in a path observer after the call is its
    multiplicity before the call plus the number of times the new files
    add it, and the [paths_count] of an edge in a graph or multigraph
    observer is its count before the call plus the number of hops of the
    new paths over that edge. *)
Theorem rebuild_accumulates (self self' : RIBTable.t)
    (rc_to_url : list (string * list fields)) :
  build self rc_to_url = Ok self' ->
  let evs := build_events (peer_ip_filter self) rc_to_url in
  data <$> build (init (peer_ip_filter self) (ts_start self) (ts_end self)) rc_to_url
  = Ok (data self') /\
  stop_updating self' = all_false rc_to_url /\
  (forall rc, rc ∈ rc_to_url.*1 -> stop_updating self' !! rc = Some false) /\
  _observers self' = on_state (run evs) <$> _observers self /\
  Forall is_add_path evs /\
  (forall i n pc,
     _observers self !! i = Some (mk_observer n (OPath pc)) ->
     exists pc',
       _observers self' !! i = Some (mk_observer n (OPath pc')) /\
       forall p, path_count pc' p = path_count pc p + Z.of_nat (adds_of p evs)) /\
  (forall i n g,
     _observers self !! i = Some (mk_observer n (OGraph g)) ->
     exists g',
       _observers self' !! i = Some (mk_observer n (OGraph g')) /\
       forall fam k,
         edge_count (nx.counts (graph_of fam g')) k
         = edge_count (nx.counts (graph_of fam g)) k
           + Z.of_nat (times k (added_keys (fun _ _ => nx.edge_key) fam evs))) /\
  (forall i n g,
     _observers self !! i = Some (mk_observer n (OMultiGraph g)) ->
     exists g',
       _observers self' !! i = Some (mk_observer n (OMultiGraph g')) /\
       forall fam k,
         edge_count (nx.counts (graph_of fam g')) k
         = edge_count (nx.counts (graph_of fam g)) k
           + Z.of_nat (times k (added_keys ASMultiGraphObserver.edge_of fam evs))).
Proof.
  unfold build. intros Hb. cbv zeta.
  destruct (build_data (peer_ip_filter self) rc_to_url (_observers self, ∅))
    as [[obs' data']|e] eqn:E; [|done].
  simpl in Hb. injection Hb as <-. simpl.
  pose proof (build_data_observers _ _ _ _ E) as Hobs. simpl in Hobs.
  pose proof (build_data_table (peer_ip_filter self) rc_to_url (_observers self) [] ∅)
    as Htab.
  rewrite E in Htab. unfold init. simpl.
  destruct (build_data (peer_ip_filter self) rc_to_url ([], ∅)) as [[o2 d2]|e2];
    unfold fmap, outcome_fmap, omap in Htab; simpl in Htab; [|done].
  injection Htab as <-.
  split; [done|]. split; [done|].
  split; [intros rc; apply all_false_lookup|].
  split; [done|]. split; [apply build_events_add|].
  split; [|split].
  - intros i n pc Hi. rewrite Hobs, list_lookup_fmap, Hi. simpl.
    unfold on_state. simpl. rewrite run_path_state.
    eexists. split; [done|]. intros p. apply path_count_adds, build_events_add.
  - intros i n g Hi. rewrite Hobs, list_lookup_fmap, Hi. simpl.
    unfold on_state. simpl. rewrite run_graph_state.
    eexists. split; [done|]. intros fam k.
    apply (edge_count_after_adds (fun _ _ => nx.edge_key) deliver);
      [done|apply build_events_add].
  - intros i n g Hi. rewrite Hobs, list_lookup_fmap, Hi. simpl.
    unfold on_state. simpl. rewrite run_multigraph_state.
    eexists. split; [done|]. intros fam k.
    apply (edge_count_after_adds ASMultiGraphObserver.edge_of deliver);
      [done|apply build_events_add].
Qed.

Lemma rebuild_accumulates_witness :
  exists self' pc',
    build Scenario.loaded_store
      [("rrc00"%string,
        [Scenario.rib_line "1.2.3.4" "100" "10.0.0.0/24" "100 200 300"])]
    = Ok self' /\
    _observers self' !! 3%nat = Some (mk_observer "path" (OPath pc')) /\
    path_count pc' [100; 200; 300] = 2.
Proof.
  assert (exists s,
            build Scenario.loaded_store
              [("rrc00"%string,
                [Scenario.rib_line "1.2.3.4" "100" "10.0.0.0/24" "100 200 300"])]
            = Ok s) as [s Hs] by (eexists; vm_compute; reflexivity).
  destruct (rebuild_accumulates _ _ _ Hs) as (_ & _ & _ & _ & _ & Hpath & _).
  destruct (Hpath 3%nat "path"%string
              (PathObserver._add_path PathObserver.init [100; 200; 300])
              ltac:(reflexivity))
    as (pc' & Hpc' & Hcount).
  exists s, pc'. split; [exact Hs|]. split; [exact Hpc'|].
  rewrite Hcount. vm_compute. reflexivity.
Defined.

End Build.

(** ** The paths the store holds *)

Section Canonicality.
Import RIBTable.

Lemma is_valid_path_spec (p : path) (peer_asn : Z) :
  is_valid_path p peer_asn = true -> (2 <= length p)%nat /\ head p = Some peer_asn.
Proof.
  unfold is_valid_path. intros H. apply andb_prop in H as [Hlen Hhd].
  apply Z.ltb_lt in Hlen. destruct p as [|a p]; [done|].
  apply Z.eqb_eq in Hhd. subst a. split; [simpl in *; lia|done].
Qed.

(** Over plain numerals [int] keeps apart what the text keeps apart. *)
Lemma mapM_int_no_adjacent_dup (toks : list string) (p : path) :
  Forall (fun tok => plain_numeral tok = true) toks ->
  no_adjacent_dup toks = true ->
  mapM Py.int toks = Some p ->
  no_adjacent_dup p = true.
Proof.
  intros Hplain. revert p. induction Hplain as [|a toks Ha Htoks IH]; intros p.
  - intros _ [= <-]. done.
  - intros Hdup Hp. apply mapM_Some in Hp.
    inversion Hp as [|? x ? p' Hx Hrest]; subst.
    destruct toks as [|b toks].
    { inversion Hrest; subst. done. }
    change (no_adjacent_dup (a :: b :: toks))
      with (negb (bool_decide (a = b)) && no_adjacent_dup (b :: toks)) in Hdup.
    apply andb_prop in Hdup as [Hab Hdup].
    inversion Hrest as [|? y ? p'' Hy Hrest']; subst.
    change (no_adjacent_dup (x :: y :: p''))
      with (negb (bool_decide (x = y)) && no_adjacent_dup (y :: p'')).
    rewrite (IH (y :: p'') Hdup); [|by apply mapM_Some].
    rewrite andb_true_r. apply negb_true_iff, bool_decide_eq_false.
    apply negb_true_iff, bool_decide_eq_false in Hab.
    intros ->. apply Hab. inversion Htoks; subst.
    by apply (plain_numeral_inj _ _ y).
Qed.

Lemma parse_plain_no_adjacent_dup (as_path : string) (p : path) :
  Forall (fun tok => plain_numeral tok = true) (Py.split " " as_path) ->
  parse_as_path as_path = Some p -> no_adjacent_dup p = true.
Proof.
  intros Hplain. unfold parse_as_path.
  apply mapM_int_no_adjacent_dup; [|apply groupby_keys_no_adjacent_dup].
  rewrite Forall_forall in *. intros tok Hin. apply Hplain.
  apply list_elem_of_In. apply list_elem_of_In in Hin.
  exact (proj1 (groupby_keys_elem _ _) Hin).
Qed.

Lemma slice_fields (res : fields) (a b c d : string) :
  take 4 (drop 3 res) = [a; b; c; d] ->
  res !! 3%nat = Some a /\ res !! 4%nat = Some b /\
  res !! 5%nat = Some c /\ res !! 6%nat = Some d.
Proof.
  destruct res as [|? [|? [|? [|? [|? [|? [|? ?]]]]]]]; try done.
  simpl. by intros [= -> -> -> ->].
Qed.

Lemma entry_install (rib : peer_to_pfx_to_path) (routes : pfx_to_path)
    (peer_ip pfx peer' pfx' : string) (p : path) :
  rib !! peer_ip = Some routes \/ (rib !! peer_ip = None /\ routes = ∅) ->
  entry (<[peer_ip := <[pfx := p]> routes]> rib) peer' pfx'
  = if decide ((peer', pfx') = (peer_ip, pfx)) then Some p else entry rib peer' pfx'.
Proof.
  intros Hroutes. destruct (decide (peer' = peer_ip)) as [->|Hp].
  - rewrite entry_insert_eq. destruct (decide (pfx' = pfx)) as [->|Hx].
    + rewrite lookup_insert_eq. by rewrite decide_True.
    + rewrite lookup_insert_ne by done. rewrite decide_False by congruence.
      unfold entry. destruct Hroutes as [->|[-> ->]]; done.
  - rewrite entry_insert_ne by done. by rewrite decide_False by congruence.
Qed.

Lemma announced_install (S : fields -> Prop) (rib : peer_to_pfx_to_path)
    (routes : pfx_to_path) (f : fields) (peer_ip pfx : string) (p : path) :
  rib !! peer_ip = Some routes \/ (rib !! peer_ip = None /\ routes = ∅) ->
  announced_table S rib -> S f -> announces f peer_ip pfx p ->
  announced_table S (<[peer_ip := <[pfx := p]> routes]> rib).
Proof.
  intros Hroutes Hrib Hf Hann peer' pfx' q. rewrite (entry_install _ _ _ _ _ _ _ Hroutes).
  destruct (decide _) as [[= -> ->]|_]; [|apply Hrib].
  intros [= <-]. by exists f.
Qed.

Lemma announced_purge (S : fields -> Prop) (rc peer_ip pfx : string)
    (routes : pfx_to_path) (w : work) :
  w.2 !! peer_ip = Some routes ->
  announced_table S w.2 -> announced_table S (purge rc peer_ip pfx routes w).2.
Proof.
  intros Hroutes Hrib peer' pfx' q Hq.
  destruct (purge_table rc peer_ip pfx routes w Hroutes) as [Hgone Hrest].
  destruct (decide ((peer', pfx') = (peer_ip, pfx))) as [[= -> ->]|Hne].
  - congruence.
  - apply Hrib. by rewrite <- Hrest.
Qed.

Lemma build_line_announced (S : fields -> Prop) (peer_ip_filter : list string)
    (rc : string) (res : fields) (w w' : work) :
  announced_table S w.2 -> S res ->
  build_line peer_ip_filter rc res w = Ok w' -> announced_table S w'.2.
Proof.
  intros Hrib Hres. unfold build_line.
  destruct (take 4 (drop 3 res)) as [|peer_ip [|asn_text [|pfx [|as_path [|]]]]] eqn:E;
    try done.
  apply slice_fields in E as (H3 & H4 & H5 & H6).
  destruct (Py.int asn_text) as [asn|] eqn:Hasn; [|done].
  destruct (bool_decide (peer_ip_filter = []) || bool_decide (peer_ip ∈ peer_ip_filter));
    [|by intros [= <-]].
  destruct (parse_as_path as_path) as [p|] eqn:Hp; [|by intros [= <-]].
  destruct (is_valid_path p asn) eqn:Hv; [|by intros [= <-]].
  intros [= <-]. simpl. apply (announced_install S _ _ res); [|done..|].
  - destruct (w.2 !! peer_ip); simpl; auto.
  - split; [done|]. split; [done|]. by exists asn_text, as_path, asn.
Qed.

Lemma build_lines_announced (S : fields -> Prop) (peer_ip_filter : list string)
    (rc : string) (lines : list fields) (w w' : work) :
  announced_table S w.2 -> Forall S lines ->
  build_lines peer_ip_filter rc lines w = Ok w' -> announced_table S w'.2.
Proof.
  intros Hrib Hlines. revert w Hrib.
  induction Hlines as [|res lines Hres _ IH]; intros w Hrib.
  - by intros [= <-].
  - simpl. destruct (build_line peer_ip_filter rc res w) as [w1|e] eqn:E; [|done].
    simpl. apply IH. by eapply build_line_announced.
Qed.

Lemma apply_update_announced (S : fields -> Prop) (peer_ip_filter : list string)
    (rc : string) (update : fields) (w w' : work) :
  announced_table S w.2 -> S update ->
  apply_update peer_ip_filter rc update w = Ok w' -> announced_table S w'.2.
Proof.
  intros Hrib Hupd. unfold apply_update.
  destruct (update !! 2%nat) as [update_type|]; [|done].
  destruct (update !! 3%nat) as [peer_ip|] eqn:H3; [|done].
  destruct (update !! 5%nat) as [pfx|] eqn:H5; [|done].
  destruct (negb _ && negb _); [by intros [= <-]|].
  destruct (bool_decide (length update = 6%nat) && String.eqb update_type "W").
  { destruct (w.2 !! peer_ip) as [routes|] eqn:Hroutes; intros [= <-]; [|done].
    by apply announced_purge. }
  destruct (bool_decide (length update = 15%nat) && String.eqb update_type "A") eqn:Hl;
    [|by intros [= <-]].
  apply andb_prop in Hl as [Hlen _]. apply bool_decide_eq_true in Hlen.
  destruct (update !! 4%nat) as [asn_text|] eqn:H4.
  2:{ apply lookup_ge_None in H4. lia. }
  destruct (update !! 6%nat) as [as_path|] eqn:H6.
  2:{ apply lookup_ge_None in H6. lia. }
  simpl. destruct (Py.int asn_text) as [asn|] eqn:Hasn; [|done].
  destruct (w.2 !! peer_ip) as [routes|] eqn:Hroutes; [|by intros [= <-]].
  destruct (parse_as_path as_path) as [p|] eqn:Hp;
    [|intros [= <-]; by apply announced_purge].
  destruct (is_valid_path p asn) eqn:Hv; [|intros [= <-]; by apply announced_purge].
  intros [= <-]. simpl. apply (announced_install S _ _ update); auto.
  split; [done|]. split; [done|]. by exists asn_text, as_path, asn.
Qed.

Lemma update_loop_announced (S : fields -> Prop) (peer_ip_filter : list string)
    (ts_start ts_end : Z) (rc : string) (stream : list update_record)
    (w : work) (r : work * bool) :
  announced_table S w.2 -> Forall (fun u => S (update_fields u)) stream ->
  update_loop peer_ip_filter ts_start ts_end rc stream w = Ok r ->
  announced_table S r.1.2.
Proof.
  intros Hrib Hstream. revert w Hrib.
  induction Hstream as [|u stream Hu _ IH]; intros w Hrib.
  - by intros [= <-].
  - simpl. unfold update_turn.
    destruct (update_ts u <? ts_start); simpl; [by apply IH|].
    destruct (ts_end + one_second <? update_ts u); simpl; [by intros [= <-]|].
    destruct (apply_update peer_ip_filter rc (update_fields u) w) as [w1|e] eqn:E;
      [|done].
    simpl. apply IH. by eapply apply_update_announced.
Qed.

Lemma update_announced (S : string -> fields -> Prop) (self self' : t)
    (rc_to_url : list (string * list update_record)) :
  announced_data S (data self) ->
  Forall (fun e => Forall (fun u => S e.1 (update_fields u)) e.2) rc_to_url ->
  update self rc_to_url = Ok self' -> announced_data S (data self').
Proof.
  intros Hdata Hall. revert self Hdata.
  induction Hall as [|[rc stream] rest Hstream _ IH]; intros self Hdata.
  - by intros [= <-].
  - simpl. destruct (data self !! rc) as [rib|] eqn:Hrib; [|done].
    unfold _update_rib_from_url.
    destruct (update_loop _ _ _ rc stream _) as [r|e] eqn:E; [|done].
    simpl. apply IH. simpl. intros rc' rib'.
    destruct (decide (rc = rc')) as [<-|Hne].
    + rewrite lookup_insert_eq. intros [= <-].
      eapply (update_loop_announced (S rc)); [|exact Hstream|exact E].
      simpl. by apply Hdata.
    + rewrite lookup_insert_ne by done. apply Hdata.
Qed.

Lemma build_data_announced (S : string -> fields -> Prop)
    (peer_ip_filter : list string) (rc_to_url : list (string * list fields))
    (acc acc' : list observer * gmap string peer_to_pfx_to_path) :
  announced_data S acc.2 ->
  Forall (fun e => Forall (S e.1) e.2) rc_to_url ->
  build_data peer_ip_filter rc_to_url acc = Ok acc' -> announced_data S acc'.2.
Proof.
  intros Hdata Hall. revert acc Hdata.
  induction Hall as [|[rc lines] rest Hlines _ IH]; intros acc Hdata.
  - by intros [= <-].
  - simpl. unfold _build_rib_from_url.
    destruct (build_lines peer_ip_filter rc lines (acc.1, ∅)) as [w|e] eqn:E; [|done].
    simpl. apply IH. simpl. intros rc' rib'.
    destruct (decide (rc = rc')) as [<-|Hne].
    + rewrite lookup_insert_eq. intros [= <-].
      eapply (build_lines_announced (S rc)); [|exact Hlines|exact E].
      intros peer pfx p. unfold entry. simpl. by rewrite lookup_empty.
    + rewrite lookup_insert_ne by done. apply Hdata.
Qed.

Lemma updates_announced (S : string -> fields -> Prop) (self self' : t)
    (calls : list (list (string * list update_record))) :
  announced_data S (data self) ->
  Forall (Forall (fun e => Forall (fun u => S e.1 (update_fields u)) e.2)) calls ->
  updates self calls = Ok self' -> announced_data S (data self').
Proof.
  intros Hdata Hall. revert self Hdata.
  induction Hall as [|call calls Hcall _ IH]; intros self Hdata.
  - by intros [= <-].
  - simpl. destruct (update self call) as [s|e] eqn:E; [|done].
    simpl. apply IH. by eapply update_announced.
Qed.

Lemma rib_lines_of_elem (rc : string) (rc_to_url : list (string * list fields)) :
  Forall (fun e => Forall (fun f => e.1 = rc -> f ∈ rib_lines_of rc rc_to_url) e.2)
    rc_to_url.
Proof.
  apply Forall_forall. intros [rc' lines] He. apply Forall_forall.
  intros f Hf. simpl. intros ->. unfold rib_lines_of.
  apply list_elem_of_In, in_concat. exists lines.
  split; [|by apply list_elem_of_In].
  apply list_elem_of_In, list_elem_of_fmap. exists (rc, lines).
  simpl. by rewrite decide_True.
Qed.

Lemma update_lines_of_elem (rc : string)
    (rc_to_url : list (string * list update_record)) :
  Forall (fun e => Forall (fun u => e.1 = rc ->
                                    update_fields u ∈ update_lines_of rc rc_to_url) e.2)
    rc_to_url.
Proof.
  apply Forall_forall. intros [rc' stream] He. apply Forall_forall.
  intros u Hu. simpl. intros ->. unfold update_lines_of.
  apply list_elem_of_In, in_concat. exists (update_fields <$> stream).
  split; [|by apply list_elem_of_In, list_elem_of_fmap_2].
  apply list_elem_of_In, list_elem_of_fmap. exists (rc, stream).
  simpl. by rewrite decide_True.
Qed.

Lemma lookup_empty_announced (S : string -> fields -> Prop) (obs : list observer) :
  announced_data S (obs, ∅ : gmap string peer_to_pfx_to_path).2.
Proof. intros rc rib Hn. simpl in Hn. by rewrite lookup_empty in Hn. Qed.

Lemma lines_seen_build (rc_to_url : list (string * list fields))
    (calls : list (list (string * list update_record))) :
  Forall (fun e => Forall (fun f => f ∈ lines_seen e.1 rc_to_url calls) e.2) rc_to_url.
Proof.
  apply Forall_forall. intros e He. apply Forall_forall. intros f Hf.
  unfold lines_seen. apply elem_of_app. left.
  pose proof (rib_lines_of_elem e.1 rc_to_url) as Hall.
  rewrite Forall_forall in Hall. specialize (Hall e He).
  rewrite Forall_forall in Hall. by apply Hall.
Qed.

Lemma lines_seen_updates (rc_to_url : list (string * list fields))
    (calls : list (list (string * list update_record))) :
  Forall (Forall (fun e =>
            Forall (fun u => update_fields u ∈ lines_seen e.1 rc_to_url calls) e.2))
    calls.
Proof.
  apply Forall_forall. intros call Hcall. apply Forall_forall. intros e He.
  apply Forall_forall. intros u Hu.
  unfold lines_seen. apply elem_of_app. right.
  apply list_elem_of_In, in_concat. exists (update_lines_of e.1 call).
  split; [by apply list_elem_of_In, list_elem_of_fmap_2|].
  apply list_elem_of_In.
  pose proof (update_lines_of_elem e.1 call) as Hall.
  rewrite Forall_forall in Hall. specialize (Hall e He).
  rewrite Forall_forall in Hall. by apply Hall.
Qed.

(** C1, as the code has it. After [build] and after any updates, every
    AS-path the store holds for a collector, a peer and a prefix was
    announced by a record of that collector for that peer and that prefix;
    the path has at least two ASNs and its first ASN is the ASN of the
    peer in that record. Runs of equal tokens were collapsed in the text
    of the record before the tokens were read as numbers: no two adjacent
    ASNs of the path are equal provided each token of the AS-path field
    writes its number the plain way (decimal digits, no sign, no
    underscore, no superfluous leading zero). *)
Theorem canonicality (self0 st1 st : RIBTable.t)
    (rc_to_url : list (string * list fields))
    (calls : list (list (string * list update_record)))
    (rc peer_ip pfx : string) (p : path) :
  build self0 rc_to_url = Ok st1 ->
  updates st1 calls = Ok st ->
  stored st rc peer_ip pfx = Some p ->
  exists f asn_text as_path peer_asn,
    f ∈ lines_seen rc rc_to_url calls /\
    f !! 3%nat = Some peer_ip /\ f !! 4%nat = Some asn_text /\
    f !! 5%nat = Some pfx /\ f !! 6%nat = Some as_path /\
    Py.int asn_text = Some peer_asn /\
    parse_as_path as_path = Some p /\
    (2 <= length p)%nat /\
    head p = Some peer_asn /\
    (Forall (fun tok => plain_numeral tok = true) (Py.split " " as_path) ->
     no_adjacent_dup p = true).
Proof.
  intros Hbuild Hupd Hstored.
  assert (Hdata : announced_data (fun rc f => f ∈ lines_seen rc rc_to_url calls)
                    (data st)).
  { apply (updates_announced _ st1 st calls); [|apply lines_seen_updates|done].
    unfold build in Hbuild.
    destruct (build_data (peer_ip_filter self0) rc_to_url (_observers self0, ∅))
      as [acc|e] eqn:E; [|done].
    injection Hbuild as <-. simpl.
    apply (build_data_announced _ _ _ _ _ (lookup_empty_announced _ _)
             (lines_seen_build _ _) E). }
  unfold stored in Hstored.
  destruct (data st !! rc) as [rib|] eqn:Hrib; [|done]. simpl in Hstored.
  destruct (Hdata rc rib Hrib peer_ip pfx p Hstored)
    as (f & Hf & H3 & H5 & asn_text & as_path & asn & H4 & H6 & Hasn & Hp & Hv).
  destruct (is_valid_path_spec p asn Hv) as [Hlen Hhd].
  exists f, asn_text, as_path, asn. repeat (split; [done|]).
  intros Hplain. by eapply parse_plain_no_adjacent_dup.
Qed.

Lemma canonicality_witness :
  exists f asn_text as_path peer_asn,
    f ∈ lines_seen "rrc00"
          [("rrc00"%string,
            [Scenario.rib_line "1.2.3.4" "100" "10.0.0.0/24" "100 200 300"])] [] /\
    f !! 3%nat = Some "1.2.3.4"%string /\ f !! 4%nat = Some asn_text /\
    f !! 5%nat = Some "10.0.0.0/24"%string /\ f !! 6%nat = Some as_path /\
    Py.int asn_text = Some peer_asn /\
    parse_as_path as_path = Some [100; 200; 300] /\
    (2 <= length [100; 200; 300])%nat /\
    head [100; 200; 300] = Some peer_asn /\
    (Forall (fun tok => plain_numeral tok = true) (Py.split " " as_path) ->
     no_adjacent_dup [100; 200; 300] = true).
Proof.
  assert (Hb : build Scenario.fresh
                 [("rrc00"%string,
                   [Scenario.rib_line "1.2.3.4" "100" "10.0.0.0/24" "100 200 300"])]
               = Ok Scenario.loaded_store) by (vm_compute; reflexivity).
  apply (canonicality Scenario.fresh Scenario.loaded_store Scenario.loaded_store
           [("rrc00"%string,
             [Scenario.rib_line "1.2.3.4" "100" "10.0.0.0/24" "100 200 300"])] []
           "rrc00" "1.2.3.4" "10.0.0.0/24" [100; 200; 300] Hb).
  - reflexivity.
  - vm_compute. reflexivity.
Defined.

(** A record whose AS-path writes one ASN in two ways, [100] and [0100]:
    the two tokens differ, both are kept, and the path the store holds has
    two equal neighbours. *)
Lemma canonicality_counterexample :
  (fun s => stored s "rrc00" "1.2.3.4" "10.0.0.0/24")
    <$> build Scenario.fresh
          [("rrc00"%string,
            [Scenario.rib_line "1.2.3.4" "100" "10.0.0.0/24" "100 0100 200"])]
  = Ok (Some [100; 100; 200]) /\
  no_adjacent_dup [100; 100; 200] = false.
Proof. split; vm_compute; reflexivity. Qed.

End Canonicality.

(** ** [compare] *)

Section Compare.
Import RIBTable.

Lemma graph_compare_idempotent (g : ASGraphObserver.t) :
  ASGraphObserver.compare (ASGraphObserver.compare g) = ASGraphObserver.compare g.
Proof.
  unfold ASGraphObserver.compare, nx.remove_isolates. simpl. f_equal. f_equal.
  unfold nx.touched. simpl. set_solver.
Qed.

Lemma pruned_or_same_refl (o : observer) : pruned_or_same o o.
Proof. split; [done|by left]. Qed.

Lemma pruned_or_same_trans (o1 o2 o3 : observer) :
  pruned_or_same o1 o2 -> pruned_or_same o2 o3 -> pruned_or_same o1 o3.
Proof.
  intros [Hn12 H12] [Hn23 H23]. split; [congruence|].
  destruct H12 as [H12|(g & Hg & H12)], H23 as [H23|(g' & Hg' & H23)].
  - left. congruence.
  - right. exists g'. split; congruence.
  - right. exists g. split; congruence.
  - right. exists g. split; [done|].
    rewrite H23. rewrite H12 in Hg'. injection Hg' as <-.
    by rewrite graph_compare_idempotent.
Qed.

Lemma observer_compare_pruned (own other s : observer_state) (n : string) :
  observer_compare own other = Ok s ->
  pruned_or_same (mk_observer n own) (mk_observer n s).
Proof.
  destruct own as [g|g|c|pc]; simpl.
  - destruct other; intros [= <-]; split; try done; right; by exists g.
  - done.
  - intros [= <-]. apply pruned_or_same_refl.
  - intros [= <-]. apply pruned_or_same_refl.
Qed.

Lemma compare_with_pruned (other : observer) (own own' : list observer) :
  compare_with other own = Ok own' -> Forall2 pruned_or_same own own'.
Proof.
  revert own'. induction own as [|[n s] own IH]; intros own'.
  - intros [= <-]. constructor.
  - simpl. destruct (String.eqb (name other) n).
    + destruct (observer_compare s (state other)) as [s'|e] eqn:E; [|done]. simpl.
      destruct (compare_with other own) as [rest|e]; [|done]. simpl.
      intros [= <-]. constructor; [|by apply IH].
      by eapply observer_compare_pruned.
    + simpl. destruct (compare_with other own) as [rest|e]; [|done]. simpl.
      intros [= <-]. constructor; [apply pruned_or_same_refl|by apply IH].
Qed.

Lemma Forall2_pruned_trans (l1 l2 l3 : list observer) :
  Forall2 pruned_or_same l1 l2 -> Forall2 pruned_or_same l2 l3 ->
  Forall2 pruned_or_same l1 l3.
Proof.
  intros H12. revert l3. induction H12 as [|o1 o2 l1 l2 Ho _ IH]; intros l3 H23.
  - inversion H23. constructor.
  - inversion H23 as [|? o3 ? l3' Ho' Hrest]; subst.
    constructor; [by eapply pruned_or_same_trans|by apply IH].
Qed.

Lemma compare_observers_pruned (others own own' : list observer) :
  compare_observers others own = Ok own' -> Forall2 pruned_or_same own own'.
Proof.
  revert own. induction others as [|other others IH]; intros own.
  - intros [= <-]. apply Forall_Forall2_diag, Forall_forall.
    intros o _. apply pruned_or_same_refl.
  - simpl. destruct (compare_with other own) as [own1|e] eqn:E; [|done]. simpl.
    intros Hrest. eapply Forall2_pruned_trans; [by eapply compare_with_pruned|].
    by apply IH.
Qed.











End Compare.

(** ** The store returns on records it can read *)

Section Totality.
Import RIBTable.

Lemma build_line_returns (peer_ip_filter : list string) (rc : string)
    (res : fields) (w : work) :
  readable_line res -> exists w', build_line peer_ip_filter rc res w = Ok w'.
Proof.
  intros [Hlen [asn Hasn]]. unfold build_line.
  destruct res as [|? [|? [|? [|a [|b [|c [|d res]]]]]]]; simpl in Hlen; try lia.
  simpl in *. rewrite Hasn.
  destruct (_ || _); [|by eexists].
  destruct (parse_as_path d) as [p|]; [|by eexists].
  destruct (is_valid_path p asn); by eexists.
Qed.

Lemma build_lines_returns (peer_ip_filter : list string) (rc : string)
    (lines : list fields) (w : work) :
  Forall readable_line lines -> exists w', build_lines peer_ip_filter rc lines w = Ok w'.
Proof.
  intros Hall. revert w. induction Hall as [|res lines Hres _ IH]; intros w.
  - by eexists.
  - simpl. destruct (build_line_returns peer_ip_filter rc res w Hres) as [w1 ->].
    simpl. apply IH.
Qed.

(** [build] returns when every line can be read. *)
Lemma build_returns (self : t) (rc_to_url : list (string * list fields)) :
  Forall (fun e => Forall readable_line e.2) rc_to_url ->
  exists self', build self rc_to_url = Ok self'.
Proof.
  intros Hall. unfold build.
  assert (Hdata : forall acc, exists acc',
            build_data (peer_ip_filter self) rc_to_url acc = Ok acc').
  { induction Hall as [|[rc lines] rest Hlines _ IH]; intros acc.
    - by eexists.
    - simpl. unfold _build_rib_from_url.
      destruct (build_lines_returns (peer_ip_filter self) rc lines (acc.1, ∅) Hlines)
        as [w ->].
      simpl. apply IH. }
  destruct (Hdata (_observers self, ∅)) as [acc ->]. simpl. by eexists.
Qed.

Lemma apply_update_returns (peer_ip_filter : list string) (rc : string)
    (u : update_record) (w : work) :
  readable_update u ->
  exists w', apply_update peer_ip_filter rc (update_fields u) w = Ok w'.
Proof.
  intros [Hlen Hasn]. unfold apply_update.
  destruct (update_fields u !! 2%nat) as [update_type|] eqn:H2.
  2:{ apply lookup_ge_None in H2. lia. }
  destruct (update_fields u !! 3%nat) as [peer_ip|] eqn:H3.
  2:{ apply lookup_ge_None in H3. lia. }
  destruct (update_fields u !! 5%nat) as [pfx|] eqn:H5.
  2:{ apply lookup_ge_None in H5. lia. }
  destruct (negb _ && negb _); [by eexists|].
  destruct (bool_decide (length (update_fields u) = 6%nat) && _).
  { destruct (w.2 !! peer_ip); by eexists. }
  destruct (bool_decide (length (update_fields u) = 15%nat) && _) eqn:Hl;
    [|by eexists].
  apply andb_prop in Hl as [Hl _]. apply bool_decide_eq_true in Hl.
  destruct (Hasn Hl) as [asn Hint].
  destruct (update_fields u !! 4%nat) as [text|]; [|done]. simpl in *.
  rewrite Hint. destruct (w.2 !! peer_ip); [|by eexists].
  destruct (parse_as_path _) as [p|]; [|by eexists].
  destruct (is_valid_path p asn); by eexists.
Qed.

Lemma update_loop_returns (peer_ip_filter : list string) (ts_start ts_end : Z)
    (rc : string) (stream : list update_record) (w : work) :
  Forall readable_update stream ->
  exists r, update_loop peer_ip_filter ts_start ts_end rc stream w = Ok r.
Proof.
  intros Hall. revert w. induction Hall as [|u stream Hu _ IH]; intros w.
  - by eexists.
  - simpl. unfold update_turn.
    destruct (update_ts u <? ts_start); simpl; [apply IH|].
    destruct (ts_end + one_second <? update_ts u); simpl; [by eexists|].
    destruct (apply_update_returns peer_ip_filter rc u w Hu) as [w' ->].
    simpl. apply IH.
Qed.

(** [update] returns when every record can be read and every collector of
    the call was built. *)
Lemma update_returns (self : t) (rc_to_url : list (string * list update_record)) :
  Forall (fun e => is_Some (data self !! e.1) /\ Forall readable_update e.2) rc_to_url ->
  exists self', update self rc_to_url = Ok self'.
Proof.
  intros Hall. revert self Hall.
  induction rc_to_url as [|[rc stream] rest IH]; intros self Hall.
  - by eexists.
  - apply Forall_cons in Hall as [[[rib Hrib] Hstream] Hrest]. simpl in *.
    rewrite Hrib. unfold _update_rib_from_url.
    destruct (update_loop_returns (peer_ip_filter self) (ts_start self) (ts_end self)
                rc stream (_observers self, rib) Hstream) as [r ->].
    simpl. apply IH. apply Forall_forall. intros e He. simpl.
    rewrite Forall_forall in Hrest. destruct (Hrest e He) as [[rib' Hrib'] Hs].
    split; [|done]. destruct (decide (rc = e.1)) as [->|Hne].
    + rewrite lookup_insert_eq. by eexists.
    + rewrite lookup_insert_ne by done. by eexists.
Qed.

End Totality.

(** * Further properties of the code *)

(** ** What one record of an update file does *)

Section Records.
Import RIBTable.

Lemma apply_update_withdrawal (peer_ip_filter : list string) (rc : string)
    (update : fields) (peer_ip pfx : string) (w : work) :
  withdrawal update peer_ip pfx ->
  peer_ip_filter = [] \/ peer_ip ∈ peer_ip_filter ->
  apply_update peer_ip_filter rc update w
  = Ok match w.2 !! peer_ip with
       | Some routes => purge rc peer_ip pfx routes w
       | None => w
       end.
Proof.
  intros [Hlen Htype Hpeer Hpfx] Hfilter.
  unfold apply_update. rewrite Htype, Hpeer, Hpfx, Hlen. simpl.
  assert (negb (bool_decide (peer_ip_filter = []))
          && negb (bool_decide (peer_ip ∈ peer_ip_filter)) = false) as ->.
  { destruct Hfilter as [Hf|Hf].
    - by rewrite (bool_decide_eq_true_2 _ Hf).
    - rewrite (bool_decide_eq_true_2 _ Hf). apply andb_false_r. }
  by destruct (w.2 !! peer_ip).
Qed.

(** The calls [_notify_update_announcement] makes, as calls on the
    observers: every observer takes the call [update_announcement] of the
    family of the prefix, and no observer takes any call for a prefix of
    neither family. *)
Lemma notify_announcement_callbacks (pfx rc peer_ip : string) (new_path : path)
    (old_path : option path) (obs : list observer) :
  notify_by_family pfx
    (fun fam => _notify_update_announcement fam rc peer_ip pfx new_path old_path) obs
  = match family_of pfx with
    | Some fam =>
        on_state (deliver (UpdateAnnouncement fam rc peer_ip pfx new_path old_path))
          <$> obs
    | None => obs
    end.
Proof. unfold notify_by_family. by destruct (family_of pfx). Qed.

(** A withdrawal in the window from a peer the filter lets through. When
    the table holds an entry for the peer and the prefix, every observer
    has taken exactly the one call [update_withdrawal] with the old path,
    in the family of the prefix (and no call at all when the prefix shows
    no family), the entry is gone and the other entries stay; without
    such an entry, nothing changes. *)
Theorem withdrawal_removes_entry
    (peer_ip_filter : list string) (ts_start ts_end : Z) (rc : string)
    (u : update_record) (peer_ip pfx : string) (w : work) :
  in_window ts_start ts_end u ->
  withdrawal (update_fields u) peer_ip pfx ->
  peer_ip_filter = [] \/ peer_ip ∈ peer_ip_filter ->
  (forall old,
     entry w.2 peer_ip pfx = Some old ->
     exists w',
       update_turn peer_ip_filter ts_start ts_end rc u w = Ok (Continue w') /\
       w'.1 = match family_of pfx with
              | Some fam =>
                  on_state (deliver (UpdateWithdrawal fam rc peer_ip pfx old)) <$> w.1
              | None => w.1
              end /\
       entry w'.2 peer_ip pfx = None /\
       forall peer' pfx',
         (peer', pfx') <> (peer_ip, pfx) -> entry w'.2 peer' pfx' = entry w.2 peer' pfx') /\
  (entry w.2 peer_ip pfx = None ->
   update_turn peer_ip_filter ts_start ts_end rc u w = Ok (Continue w)).
Proof.
  intros Hwin Hwd Hfilter.
  rewrite (update_turn_within _ _ _ _ _ _ Hwin).
  rewrite (apply_update_withdrawal _ _ _ _ _ _ Hwd Hfilter).
  split.
  - intros old Hold. unfold entry in Hold.
    destruct (w.2 !! peer_ip) as [routes|] eqn:Hroutes; [|done]. simpl in Hold.
    eexists. split; [done|]. split; [|by apply purge_table].
    unfold purge. rewrite Hold. simpl. apply notify_withdrawal_callbacks.
  - intros Hnone. unfold entry in Hnone.
    destruct (w.2 !! peer_ip) as [routes|] eqn:Hroutes; [|done]. simpl in Hnone.
    unfold purge. by rewrite Hnone.
Qed.

Lemma withdrawal_removes_entry_witness :
  exists w',
    update_turn [] 0 (100 * one_second) "rrc00"
      (Scenario.withdraw 5 "1.2.3.4" "100" "10.0.0.0/24")
      (Scenario.observers, Scenario.rib) = Ok (Continue w') /\
    w'.1 = on_state (deliver (UpdateWithdrawal IPv4 "rrc00" "1.2.3.4" "10.0.0.0/24"
                                [100; 200; 300])) <$> Scenario.observers /\
    entry w'.2 "1.2.3.4" "10.0.0.0/24" = None /\
    forall peer' pfx',
      (peer', pfx') <> ("1.2.3.4", "10.0.0.0/24")%string ->
      entry w'.2 peer' pfx' = entry Scenario.rib peer' pfx'.
Proof.
  apply (proj1 (withdrawal_removes_entry [] 0 (100 * one_second) "rrc00"
                  (Scenario.withdraw 5 "1.2.3.4" "100" "10.0.0.0/24")
                  "1.2.3.4" "10.0.0.0/24" (Scenario.observers, Scenario.rib)
                  ltac:(unfold in_window, one_second; simpl; lia)
                  ltac:(split; reflexivity)
                  ltac:(left; reflexivity))
           [100; 200; 300]).
  reflexivity.
Defined.

(** An announcement in the window, from a tracked peer the filter lets
    through, whose AS-path the sanitizer accepts: every observer has taken
    exactly the one call [update_announcement] in the family of the
    prefix, with the new path and with the path the table held for the
    prefix, if any, as the old path (and no call at all when the prefix
    shows no family); the entry then holds the new path and the other
    entries stay. *)
Theorem announcement_installs
    (peer_ip_filter : list string) (ts_start ts_end : Z) (rc : string)
    (u : update_record) (peer_ip pfx as_path : string) (peer_asn : Z)
    (new_path : path) (routes : pfx_to_path) (w : work) :
  in_window ts_start ts_end u ->
  announcement (update_fields u) peer_ip pfx as_path peer_asn ->
  peer_ip_filter = [] \/ peer_ip ∈ peer_ip_filter ->
  sanitize as_path peer_asn = Some new_path ->
  w.2 !! peer_ip = Some routes ->
  exists w',
    update_turn peer_ip_filter ts_start ts_end rc u w = Ok (Continue w') /\
    w'.1 = match family_of pfx with
           | Some fam =>
               on_state (deliver (UpdateAnnouncement fam rc peer_ip pfx new_path
                                    (entry w.2 peer_ip pfx))) <$> w.1
           | None => w.1
           end /\
    entry w'.2 peer_ip pfx = Some new_path /\
    forall peer' pfx',
      (peer', pfx') <> (peer_ip, pfx) -> entry w'.2 peer' pfx' = entry w.2 peer' pfx'.
Proof.
  intros Hwin Hann Hfilter Hok Hroutes.
  rewrite (update_turn_within _ _ _ _ _ _ Hwin).
  rewrite (apply_update_announcement _ _ _ _ _ _ _ _ Hann Hfilter), Hok, Hroutes.
  eexists. split; [done|]. simpl.
  split; [unfold entry; rewrite Hroutes; apply notify_announcement_callbacks|].
  split.
  - rewrite (entry_install _ routes) by auto. by rewrite decide_True.
  - intros peer' pfx' Hne. rewrite (entry_install _ routes) by auto.
    by rewrite decide_False.
Qed.

Lemma announcement_installs_witness :
  exists w',
    update_turn [] 0 (100 * one_second) "rrc00"
      (Scenario.announce 5 "1.2.3.4" "100" "10.0.0.0/24" "100 200 400")
      (Scenario.observers, Scenario.rib) = Ok (Continue w') /\
    w'.1 = on_state (deliver (UpdateAnnouncement IPv4 "rrc00" "1.2.3.4" "10.0.0.0/24"
                                [100; 200; 400] (Some [100; 200; 300])))
             <$> Scenario.observers /\
    entry w'.2 "1.2.3.4" "10.0.0.0/24" = Some [100; 200; 400] /\
    forall peer' pfx',
      (peer', pfx') <> ("1.2.3.4", "10.0.0.0/24")%string ->
      entry w'.2 peer' pfx' = entry Scenario.rib peer' pfx'.
Proof.
  apply (announcement_installs [] 0 (100 * one_second) "rrc00"
           (Scenario.announce 5 "1.2.3.4" "100" "10.0.0.0/24" "100 200 400")
           "1.2.3.4" "10.0.0.0/24" "100 200 400" 100 [100; 200; 400]
           {[ "10.0.0.0/24"%string := [100; 200; 300] ]}
           (Scenario.observers, Scenario.rib)).
  - unfold in_window, one_second. simpl. lia.
  - split; try reflexivity. exists "100"%string. split; reflexivity.
  - left. reflexivity.
  - reflexivity.
  - reflexivity.
Defined.

End Records.

(** ** The exceptions of the two loops *)

Section Exceptions.
Import RIBTable.

Lemma not_passes_filter (peer_ip_filter : list string) (update : fields) (peer_ip : string) :
  update !! 3%nat = Some peer_ip ->
  negb (bool_decide (peer_ip_filter = [])) && negb (bool_decide (peer_ip ∈ peer_ip_filter))
  = false <-> passes peer_ip_filter update.
Proof.
  intros Hpeer. unfold passes. split.
  - intros Hb. apply andb_false_iff in Hb as [Hb|Hb]; apply negb_false_iff in Hb;
      apply bool_decide_eq_true in Hb; [by left|right; by exists peer_ip].
  - intros [Hf|(p & Hp & Hin)].
    + by rewrite (bool_decide_eq_true_2 _ Hf).
    + rewrite Hpeer in Hp. injection Hp as <-.
      rewrite (bool_decide_eq_true_2 _ Hin). apply andb_false_r.
Qed.

(** The exceptions of the body of the loop of [_update_rib_from_url]. *)
Lemma apply_update_raises (peer_ip_filter : list string) (rc : string)
    (update : fields) (w : work) (e : exn) :
  apply_update peer_ip_filter rc update w = Raise e <->
  (e = IndexError /\ (length update < 6)%nat) \/
  (e = ValueError /\ is_announcement update = true /\
   passes peer_ip_filter update /\ asn_unreadable update).
Proof.
  unfold apply_update, is_announcement, asn_unreadable.
  destruct (update !! 5%nat) as [pfx|] eqn:H5.
  2:{ apply lookup_ge_None in H5.
      assert (Hr : match update !! 2%nat, update !! 3%nat with
                   | Some _, Some _ => Raise IndexError
                   | _, _ => Raise IndexError
                   end = Raise (A:=work) IndexError)
        by (by destruct (update !! 2%nat), (update !! 3%nat)).
      destruct (update !! 2%nat), (update !! 3%nat); simpl;
        (split; [intros [= <-]; left; split; [done|lia]|]);
        (intros [[-> _]|(_ & Hl & _)]; [done|]);
        apply andb_prop in Hl as [Hl _]; apply bool_decide_eq_true in Hl; lia. }
  pose proof (lookup_lt_Some _ _ _ H5) as Hlen.
  destruct (update !! 2%nat) as [ty|] eqn:H2.
  2:{ apply lookup_ge_None in H2. lia. }
  destruct (update !! 3%nat) as [peer_ip|] eqn:H3.
  2:{ apply lookup_ge_None in H3. lia. }
  pose proof (not_passes_filter peer_ip_filter update peer_ip H3) as Hpass.
  destruct (negb _ && negb _) eqn:Hf.
  { split; [done|]. intros [[_ Hl]|(_ & _ & Hp & _)]; [lia|].
    apply Hpass in Hp. done. }
  destruct (bool_decide (length update = 6%nat) && String.eqb ty "W") eqn:Hw.
  { apply andb_prop in Hw as [Hw _]. apply bool_decide_eq_true in Hw.
    split.
    - by destruct (w.2 !! peer_ip).
    - intros [[_ Hl]|(_ & Hl & _)]; [lia|].
      apply andb_prop in Hl as [Hl _]. apply bool_decide_eq_true in Hl. lia. }
  destruct (bool_decide (length update = 15%nat) && String.eqb ty "A") eqn:Ha.
  2:{ split; [done|]. intros [[_ Hl]|(_ & Hl & _)]; [lia|done]. }
  destruct (update !! 4%nat) as [text|] eqn:H4.
  2:{ apply lookup_ge_None in H4. lia. }
  simpl. destruct (Py.int text) as [asn|] eqn:Hasn.
  - split.
    + destruct (w.2 !! peer_ip) as [routes|]; [|done].
      destruct (parse_as_path _) as [p|]; [|done]. by destruct (is_valid_path p asn).
    + intros [[_ Hl]|(_ & _ & _ & Hu)]; [lia|done].
  - split.
    + intros [= <-]. right. repeat split; try done. by apply Hpass.
    + intros [[_ Hl]|(-> & _)]; [lia|done].
Qed.

(** A record raises only inside the window: with fewer than six fields
    [IndexError], and for an announcement that the filter lets through
    with an ASN that cannot be read [ValueError]. Before [ts_start] and
    after [ts_end] plus one second the record is not looked at. *)
Theorem update_turn_raises
    (peer_ip_filter : list string) (ts_start ts_end : Z) (rc : string)
    (u : update_record) (w : work) (e : exn) :
  update_turn peer_ip_filter ts_start ts_end rc u w = Raise e <->
  in_window ts_start ts_end u /\
  ((e = IndexError /\ (length (update_fields u) < 6)%nat) \/
   (e = ValueError /\ is_announcement (update_fields u) = true /\
    passes peer_ip_filter (update_fields u) /\ asn_unreadable (update_fields u))).
Proof.
  unfold update_turn, in_window.
  destruct (update_ts u <? ts_start) eqn:E1.
  { apply Z.ltb_lt in E1. split; [done|]. intros [[? ?] _]. lia. }
  destruct (ts_end + one_second <? update_ts u) eqn:E2.
  { apply Z.ltb_lt in E2. split; [done|]. intros [[? ?] _]. lia. }
  apply Z.ltb_ge in E1, E2.
  rewrite <- (apply_update_raises peer_ip_filter rc (update_fields u) w e).
  unfold fmap, outcome_fmap, omap.
  destruct (apply_update _ _ _ _) as [w'|e']; simpl; split.
  - intros H; discriminate H.
  - intros [_ H]; discriminate H.
  - intros [= ->]. split; [lia|done].
  - by intros [_ [= ->]].
Qed.

Lemma build_line_raises (peer_ip_filter : list string) (rc : string)
    (res : fields) (w : work) (e : exn) :
  build_line peer_ip_filter rc res w = Raise e -> e = ValueError /\ ~ readable_line res.
Proof.
  unfold build_line, readable_line.
  destruct res as [|? [|? [|? [|a [|b [|c [|d res]]]]]]]; simpl;
    try (intros [= <-]; split; [done|]; intros [Hl _]; lia).
  destruct (Py.int b) as [asn|] eqn:Hasn.
  - destruct (_ || _); [|done].
    destruct (parse_as_path d) as [p|]; [|done]. by destruct (is_valid_path p asn).
  - intros [= <-]. split; [done|]. intros [_ [x Hx]]. done.
Qed.

Lemma build_lines_Ok_readable (peer_ip_filter : list string) (rc : string)
    (lines : list fields) (w w' : work) :
  build_lines peer_ip_filter rc lines w = Ok w' -> Forall readable_line lines.
Proof.
  revert w. induction lines as [|res lines IH]; intros w; [constructor|].
  simpl. destruct (build_line peer_ip_filter rc res w) as [w1|e] eqn:E; [|done].
  simpl. intros Hrest. constructor; [|by eapply IH].
  clear Hrest IH. unfold readable_line, build_line in *.
  destruct res as [|? [|? [|? [|a [|b [|c [|d res]]]]]]]; simpl in *; try done.
  split; [lia|]. destruct (Py.int b); [by eexists|done].
Qed.

Lemma build_lines_raises (peer_ip_filter : list string) (rc : string)
    (lines : list fields) (w : work) (e : exn) :
  build_lines peer_ip_filter rc lines w = Raise e -> e = ValueError.
Proof.
  revert w. induction lines as [|res lines IH]; intros w; [done|].
  simpl. destruct (build_line peer_ip_filter rc res w) as [w1|e1] eqn:E; simpl.
  - apply IH.
  - intros [= <-]. by apply build_line_raises in E as [? _].
Qed.

(** [build] returns exactly when every line of every file has at least
    seven fields and an ASN of the peer that [int] accepts, whether the
    filter keeps the peer or not; otherwise it raises [ValueError]. *)
Theorem build_returns_iff (self : RIBTable.t) (rc_to_url : list (string * list fields)) :
  ((exists self', build self rc_to_url = Ok self') <->
   Forall (fun e => Forall readable_line e.2) rc_to_url) /\
  (forall e, build self rc_to_url = Raise e -> e = ValueError).
Proof.
  split; [split; [|apply build_returns]|].
  - intros [self' Hb]. unfold build in Hb.
    destruct (build_data (peer_ip_filter self) rc_to_url (_observers self, ∅))
      as [acc'|e] eqn:E; [clear Hb|done].
    revert E. generalize (_observers self, ∅ : gmap string peer_to_pfx_to_path).
    induction rc_to_url as [|[rc lines] rest IH]; intros acc; [constructor|].
    simpl. unfold _build_rib_from_url.
    destruct (build_lines (peer_ip_filter self) rc lines (acc.1, ∅)) as [w|e] eqn:El;
      [|done].
    simpl. intros Hrest. constructor; [by eapply build_lines_Ok_readable|by eapply IH].
  - intros e. unfold build.
    destruct (build_data (peer_ip_filter self) rc_to_url (_observers self, ∅))
      as [acc'|e'] eqn:E; [done|].
    simpl. intros [= <-]. revert E.
    generalize (_observers self, ∅ : gmap string peer_to_pfx_to_path).
    induction rc_to_url as [|[rc lines] rest IH]; intros acc; [done|].
    simpl. unfold _build_rib_from_url.
    destruct (build_lines (peer_ip_filter self) rc lines (acc.1, ∅)) as [w|e] eqn:El;
      simpl.
    + apply IH.
    + intros [= <-]. by eapply build_lines_raises.
Qed.

End Exceptions.

(** ** What [update] leaves as it is *)

Section Frame.
Import RIBTable.

Lemma names_on_state (f : observer_state -> observer_state) (obs : list observer) :
  name <$> (on_state f <$> obs) = name <$> obs.
Proof. rewrite <- list_fmap_compose. by apply list_fmap_ext. Qed.

Lemma names_notify_by_family (pfx : string)
    (send : family -> list observer -> list observer) (obs : list observer) :
  (forall fam, name <$> send fam obs = name <$> obs) ->
  name <$> notify_by_family pfx send obs = name <$> obs.
Proof. intros Hsend. unfold notify_by_family. by destruct (family_of pfx). Qed.

Lemma purge_shape (rc peer_ip pfx : string) (routes : pfx_to_path) (w : work) :
  w.2 !! peer_ip = Some routes ->
  name <$> (purge rc peer_ip pfx routes w).1 = name <$> w.1 /\
  dom (purge rc peer_ip pfx routes w).2 = dom w.2.
Proof.
  intros Hroutes. unfold purge. destruct (routes !! pfx) as [old|]; [|done]. simpl. split.
  - apply names_notify_by_family. intros fam. apply names_on_state.
  - by apply dom_insert_lookup_L.
Qed.

Lemma apply_update_shape (peer_ip_filter : list string) (rc : string)
    (update : fields) (w w' : work) :
  apply_update peer_ip_filter rc update w = Ok w' ->
  name <$> w'.1 = name <$> w.1 /\ dom w'.2 = dom w.2.
Proof.
  unfold apply_update.
  destruct (update !! 2%nat) as [ty|]; [|done].
  destruct (update !! 3%nat) as [peer_ip|]; [|done].
  destruct (update !! 5%nat) as [pfx|]; [|done].
  destruct (negb _ && negb _); [by intros [= <-]|].
  destruct (bool_decide (length update = 6%nat) && String.eqb ty "W").
  { destruct (w.2 !! peer_ip) as [routes|] eqn:Hr; intros [= <-]; [|done].
    by apply purge_shape. }
  destruct (bool_decide (length update = 15%nat) && String.eqb ty "A");
    [|by intros [= <-]].
  destruct (Py.int _) as [asn|]; [|done].
  destruct (w.2 !! peer_ip) as [routes|] eqn:Hr; [|by intros [= <-]].
  destruct (parse_as_path _) as [p|]; [|intros [= <-]; by apply purge_shape].
  destruct (is_valid_path p asn); intros [= <-]; [|by apply purge_shape].
  simpl. split.
  - apply names_notify_by_family. intros fam. apply names_on_state.
  - by apply dom_insert_lookup_L.
Qed.

Lemma update_loop_shape (peer_ip_filter : list string) (ts_start ts_end : Z)
    (rc : string) (stream : list update_record) (w : work) (r : work * bool) :
  update_loop peer_ip_filter ts_start ts_end rc stream w = Ok r ->
  name <$> r.1.1 = name <$> w.1 /\ dom r.1.2 = dom w.2.
Proof.
  revert w. induction stream as [|u stream IH]; intros w; [by intros [= <-]|].
  simpl. unfold update_turn.
  destruct (update_ts u <? ts_start); simpl; [apply IH|].
  destruct (ts_end + one_second <? update_ts u); simpl; [by intros [= <-]|].
  unfold fmap, outcome_fmap, omap.
  destruct (apply_update peer_ip_filter rc (update_fields u) w) as [w1|e] eqn:E; [|done].
  simpl. intros Hrest. apply apply_update_shape in E as [E1 E2].
  apply IH in Hrest as [H1 H2].
  split; [exact (eq_trans H1 E1)|exact (eq_trans H2 E2)].
Qed.

Lemma tracked_insert (data : gmap string peer_to_pfx_to_path) (rc : string)
    (rib rib' : peer_to_pfx_to_path) :
  data !! rc = Some rib -> dom rib' = dom rib ->
  tracked (<[rc := rib']> data) = tracked data.
Proof.
  intros Hrc Hdom. unfold tracked. rewrite fmap_insert. apply insert_id.
  by rewrite lookup_fmap, Hrc, Hdom.
Qed.

(** [update] keeps the collectors of the store and, for each, the set of
    its peers: a peer first seen in an update file is never added, and a
    peer whose last entry is withdrawn stays with an empty table. The
    observers keep their names and their order, the filter and the window
    stay, and the table and the flag of a collector that the call does not
    name are untouched. *)
Theorem update_frame (self self' : t)
    (rc_to_url : list (string * list update_record)) :
  update self rc_to_url = Ok self' ->
  tracked (data self') = tracked (data self) /\
  name <$> _observers self' = name <$> _observers self /\
  peer_ip_filter self' = peer_ip_filter self /\
  ts_start self' = ts_start self /\
  ts_end self' = ts_end self /\
  forall rc, rc ∉ rc_to_url.*1 ->
    data self' !! rc = data self !! rc /\
    stop_updating self' !! rc = stop_updating self !! rc.
Proof.
  revert self. induction rc_to_url as [|[rc stream] rest IH]; intros self.
  - intros [= <-]. by repeat split.
  - simpl. destruct (data self !! rc) as [rib|] eqn:Hrib; [|done].
    unfold _update_rib_from_url.
    destruct (update_loop (peer_ip_filter self) (ts_start self) (ts_end self) rc stream
                (_observers self, rib)) as [r|e] eqn:E; [|done].
    simpl. intros Hrest. apply update_loop_shape in E as [Hn Hd].
    apply IH in Hrest as (H1 & H2 & H3 & H4 & H5 & H6). simpl in *.
    repeat split; try congruence.
    + rewrite H1. by eapply tracked_insert.
    + apply not_elem_of_cons in H as [Hne Hrc].
      destruct (H6 rc0 Hrc) as [-> _]. by rewrite lookup_insert_ne.
    + apply not_elem_of_cons in H as [Hne Hrc].
      destruct (H6 rc0 Hrc) as [_ ->].
      destruct r.2; [by rewrite lookup_insert_ne|done].
Qed.

Lemma update_frame_witness :
  exists self',
    update Scenario.loaded_store
      [("rrc00"%string,
        [Scenario.withdraw 5 "1.2.3.4" "100" "10.0.0.0/24";
         Scenario.announce 6 "5.6.7.8" "500" "10.0.1.0/24" "500 600"])]
    = Ok self' /\
    tracked (data self') = tracked (data Scenario.loaded_store) /\
    name <$> _observers self' = name <$> _observers Scenario.loaded_store.
Proof.
  assert (exists s,
            update Scenario.loaded_store
              [("rrc00"%string,
                [Scenario.withdraw 5 "1.2.3.4" "100" "10.0.0.0/24";
                 Scenario.announce 6 "5.6.7.8" "500" "10.0.1.0/24" "500 600"])]
            = Ok s) as [s Hs] by (eexists; vm_compute; reflexivity).
  exists s. split; [exact Hs|].
  destruct (update_frame _ _ _ Hs) as (H1 & H2 & _). by split.
Defined.

(** With records that can be read, [update] raises [KeyError] when the
    call names a collector that the store has no table for, and returns
    otherwise. *)
Theorem update_key_error (self : t) (rc_to_url : list (string * list update_record)) :
  Forall (fun e => Forall readable_update e.2) rc_to_url ->
  (Exists (fun e => data self !! e.1 = None) rc_to_url ->
   update self rc_to_url = Raise KeyError) /\
  (Forall (fun e => is_Some (data self !! e.1)) rc_to_url ->
   exists self', update self rc_to_url = Ok self').
Proof.
  intros Hread. split.
  - revert self. induction rc_to_url as [|[rc stream] rest IH]; intros self Hex.
    + by apply Exists_nil in Hex.
    + apply Forall_cons in Hread as [Hstream Hread]. simpl in *.
      destruct (data self !! rc) as [rib|] eqn:Hrib; [|done].
      apply Exists_cons in Hex as [Hex|Hex]; [simpl in Hex; congruence|].
      unfold _update_rib_from_url.
      destruct (update_loop_returns (peer_ip_filter self) (ts_start self) (ts_end self)
                  rc stream (_observers self, rib) Hstream) as [r ->].
      simpl. apply IH; [done|]. simpl.
      eapply Exists_impl; [exact Hex|]. intros e He. simpl.
      destruct (decide (rc = e.1)) as [->|Hne]; [congruence|].
      by rewrite lookup_insert_ne.
  - intros Hall. apply update_returns. apply Forall_forall. intros e He.
    rewrite Forall_forall in Hall, Hread. split; [by apply Hall|by apply Hread].
Qed.

Lemma update_key_error_witness :
  update Scenario.loaded_store
    [("rrc00"%string, [Scenario.withdraw 5 "1.2.3.4" "100" "10.0.0.0/24"]);
     ("rrc01"%string, [])] = Raise KeyError.
Proof.
  apply (proj1 (update_key_error Scenario.loaded_store
                  [("rrc00"%string, [Scenario.withdraw 5 "1.2.3.4" "100" "10.0.0.0/24"]);
                   ("rrc01"%string, [])]
                  ltac:(repeat constructor; simpl; lia))).
  apply Exists_cons_tl. apply Exists_cons_hd. reflexivity.
Defined.

End Frame.

(** ** Sums over the entries of the store *)

Section Sums.
Context {A : Type}.
Implicit Types (f : string -> A -> Z) (m : gmap string A).

Lemma ksum_empty f : ksum f ∅ = 0.
Proof. apply map_fold_empty. Qed.

Lemma ksum_insert_None f m k v :
  m !! k = None -> ksum f (<[k:=v]> m) = f k v + ksum f m.
Proof.
  intros Hk. unfold ksum. rewrite map_fold_insert_L; [done| |done].
  intros. lia.
Qed.

Lemma ksum_delete f m k :
  ksum f (delete k m) = ksum f m - from_option (f k) 0 (m !! k).
Proof.
  destruct (m !! k) as [v|] eqn:E; simpl.
  - rewrite <- (insert_delete_id m k v E) at 2.
    rewrite ksum_insert_None by apply lookup_delete_eq. lia.
  - rewrite delete_id by done. lia.
Qed.

Lemma ksum_insert f m k v :
  ksum f (<[k:=v]> m) = ksum f m + f k v - from_option (f k) 0 (m !! k).
Proof.
  rewrite <- insert_delete_eq.
  rewrite ksum_insert_None by apply lookup_delete_eq.
  rewrite ksum_delete. lia.
Qed.

Lemma ksum_nonneg f m : (forall k v, 0 <= f k v) -> 0 <= ksum f m.
Proof.
  intros Hf. induction m as [|k v m Hk IH] using map_ind.
  - rewrite ksum_empty. lia.
  - rewrite ksum_insert_None by done. specialize (Hf k v). lia.
Qed.
End Sums.

Section Totals.
Variable wt : weight.
Hypothesis wt_nonneg : forall rc peer_ip pfx q, 0 <= wt rc peer_ip pfx q.

Lemma total_rib_nonneg (rc : string) (rib : peer_to_pfx_to_path) :
  0 <= total_rib wt rc rib.
Proof.
  unfold total_rib. apply ksum_nonneg. intros peer_ip routes.
  apply ksum_nonneg. intros pfx q. apply wt_nonneg.
Qed.

Lemma total_nonneg (data : gmap string peer_to_pfx_to_path) : 0 <= total wt data.
Proof. unfold total. apply ksum_nonneg. intros rc rib. apply total_rib_nonneg. Qed.

Lemma total_rib_install (rc : string) (rib : peer_to_pfx_to_path)
    (routes : pfx_to_path) (peer_ip pfx : string) (q : path) :
  routes = default ∅ (rib !! peer_ip) ->
  total_rib wt rc (<[peer_ip := <[pfx := q]> routes]> rib)
  = total_rib wt rc rib + wt rc peer_ip pfx q
    - from_option (wt rc peer_ip pfx) 0 (entry rib peer_ip pfx).
Proof.
  intros ->. unfold total_rib, entry. rewrite !ksum_insert.
  destruct (rib !! peer_ip) as [routes|]; simpl; [lia|].
  rewrite ksum_empty, lookup_empty. simpl. lia.
Qed.

Lemma total_rib_remove (rc : string) (rib : peer_to_pfx_to_path)
    (routes : pfx_to_path) (peer_ip pfx : string) :
  rib !! peer_ip = Some routes ->
  total_rib wt rc (<[peer_ip := delete pfx routes]> rib)
  = total_rib wt rc rib - from_option (wt rc peer_ip pfx) 0 (routes !! pfx).
Proof.
  intros Hroutes. unfold total_rib. rewrite ksum_insert, ksum_delete, Hroutes.
  simpl. lia.
Qed.

Lemma total_set (data : gmap string peer_to_pfx_to_path) (rc : string)
    (rib : peer_to_pfx_to_path) :
  total wt (<[rc := rib]> data)
  = total wt data + total_rib wt rc rib - from_option (total_rib wt rc) 0 (data !! rc).
Proof. unfold total. apply ksum_insert. Qed.

Lemma total_empty : total wt ∅ = 0.
Proof. apply ksum_empty. Qed.

Lemma total_rib_empty (rc : string) : total_rib wt rc ∅ = 0.
Proof. apply ksum_empty. Qed.
End Totals.

(** ** Observers that follow the table *)

Section Follow.
Import RIBTable.
Context {K : Type}.
Variable sel : observer_state -> Prop.
Variable view : observer_state -> K -> Z.
Variable wt : K -> weight.

Hypothesis wt_nonneg : forall k rc peer_ip pfx q, 0 <= wt k rc peer_ip pfx q.
Hypothesis wt_family :
  forall k rc peer_ip pfx q, family_of pfx = None -> wt k rc peer_ip pfx q = 0.
Hypothesis sel_add :
  forall fam rc peer_ip pfx q s, sel (add_path fam rc peer_ip pfx q s) -> sel s.
Hypothesis sel_withdrawal :
  forall fam rc peer_ip pfx q s, sel (update_withdrawal fam rc peer_ip pfx q s) -> sel s.
Hypothesis sel_announcement :
  forall fam rc peer_ip pfx n o s,
    sel (update_announcement fam rc peer_ip pfx n o s) -> sel s.
Hypothesis view_add :
  forall fam rc peer_ip pfx q s,
    sel s -> family_of pfx = Some fam ->
    forall k, view (add_path fam rc peer_ip pfx q s) k = view s k + wt k rc peer_ip pfx q.
Hypothesis view_withdrawal :
  forall fam rc peer_ip pfx q s,
    sel s -> family_of pfx = Some fam ->
    (forall k, wt k rc peer_ip pfx q <= view s k) ->
    forall k,
      view (update_withdrawal fam rc peer_ip pfx q s) k
      = view s k - wt k rc peer_ip pfx q.
Hypothesis view_announcement :
  forall fam rc peer_ip pfx n o s,
    sel s -> family_of pfx = Some fam -> o <> Some [] ->
    (forall k, from_option (wt k rc peer_ip pfx) 0 o <= view s k) ->
    forall k,
      view (update_announcement fam rc peer_ip pfx n o s) k
      = view s k - from_option (wt k rc peer_ip pfx) 0 o + wt k rc peer_ip pfx n.

Lemma elem_of_notify (pfx : string) (cb : family -> observer_state -> observer_state)
    (obs : list observer) (o' : observer) :
  o' ∈ notify_by_family pfx (fun fam obs => on_state (cb fam) <$> obs) obs ->
  exists o, o ∈ obs /\
    match family_of pfx with
    | Some fam => o' = on_state (cb fam) o
    | None => o' = o
    end.
Proof.
  unfold notify_by_family. destruct (family_of pfx) as [fam|].
  - intros (o & -> & Hin)%list_elem_of_fmap. by exists o.
  - intros Hin. by exists o'.
Qed.

Lemma purge_follows (base : K -> Z) (rc peer_ip pfx : string)
    (routes : pfx_to_path) (w : work) :
  (forall k, 0 <= base k) ->
  w.2 !! peer_ip = Some routes ->
  follows_rib sel view wt base rc w ->
  follows_rib sel view wt base rc (purge rc peer_ip pfx routes w).
Proof.
  intros Hbase Hroutes [Hne Hview]. split.
  - intros peer' pfx'. destruct (purge_table rc peer_ip pfx routes w Hroutes) as [H1 H2].
    destruct (decide ((peer', pfx') = (peer_ip, pfx))) as [[= -> ->]|Hd].
    + by rewrite H1.
    + rewrite (H2 _ _ Hd). apply Hne.
  - unfold purge. destruct (routes !! pfx) as [old|] eqn:E; [|exact Hview].
    simpl. intros o' Hin Hsel k.
    assert (Htot : forall k, total_rib (wt k) rc (<[peer_ip := delete pfx routes]> w.2)
                             = total_rib (wt k) rc w.2 - wt k rc peer_ip pfx old).
    { intros k'. rewrite (total_rib_remove _ _ _ routes) by done. by rewrite E. }
    apply (elem_of_notify pfx (fun fam => update_withdrawal fam rc peer_ip pfx old))
      in Hin as (o & Hin & Ho).
    rewrite Htot. destruct (family_of pfx) as [fam|] eqn:Hfam; subst o'; simpl in *.
    + pose proof (sel_withdrawal _ _ _ _ _ _ Hsel) as Hs.
      rewrite (view_withdrawal fam rc peer_ip pfx old (state o) Hs Hfam).
      * rewrite (Hview o Hin Hs). lia.
      * intros k'. rewrite (Hview o Hin Hs).
        pose proof (total_rib_nonneg (wt k') (wt_nonneg k') rc
                      (<[peer_ip := delete pfx routes]> w.2)) as Hnn.
        rewrite Htot in Hnn. specialize (Hbase k'). lia.
    + rewrite (Hview o Hin Hsel), (wt_family k rc peer_ip pfx old Hfam). lia.
Qed.

Lemma install_follows (base : K -> Z) (rc peer_ip pfx : string)
    (routes : pfx_to_path) (n : path) (w : work) :
  (forall k, 0 <= base k) ->
  w.2 !! peer_ip = Some routes ->
  n <> [] ->
  follows_rib sel view wt base rc w ->
  follows_rib sel view wt base rc
    (notify_by_family pfx
       (fun fam => _notify_update_announcement fam rc peer_ip pfx n (routes !! pfx)) w.1,
     <[peer_ip := <[pfx := n]> routes]> w.2).
Proof.
  intros Hbase Hroutes Hn [Hne Hview].
  assert (Hold : routes !! pfx = entry w.2 peer_ip pfx)
    by (unfold entry; by rewrite Hroutes).
  split; simpl.
  - intros peer' pfx'. rewrite (entry_install w.2 routes) by (by left).
    destruct (decide _); [congruence|apply Hne].
  - intros o' Hin Hsel k.
    assert (Htot : forall k,
               total_rib (wt k) rc (<[peer_ip := <[pfx := n]> routes]> w.2)
               = total_rib (wt k) rc w.2 + wt k rc peer_ip pfx n
                 - from_option (wt k rc peer_ip pfx) 0 (routes !! pfx)).
    { intros k'. rewrite (total_rib_install _ _ _ routes) by (by rewrite Hroutes).
      by rewrite Hold. }
    apply (elem_of_notify pfx
             (fun fam => update_announcement fam rc peer_ip pfx n (routes !! pfx)))
      in Hin as (o & Hin & Ho).
    rewrite Htot. destruct (family_of pfx) as [fam|] eqn:Hfam; subst o'; simpl in *.
    + pose proof (sel_announcement _ _ _ _ _ _ _ Hsel) as Hs.
      rewrite (view_announcement fam rc peer_ip pfx n (routes !! pfx) (state o) Hs Hfam).
      * rewrite (Hview o Hin Hs). lia.
      * rewrite Hold. apply Hne.
      * intros k'. rewrite (Hview o Hin Hs).
        pose proof (total_rib_nonneg (wt k') (wt_nonneg k') rc
                      (<[peer_ip := delete pfx routes]> w.2)) as Hnn.
        rewrite (total_rib_remove _ _ _ routes) in Hnn by done.
        specialize (Hbase k'). lia.
    + rewrite (Hview o Hin Hsel), (wt_family k rc peer_ip pfx n Hfam).
      destruct (routes !! pfx) as [old|]; simpl; [|lia].
      rewrite (wt_family k rc peer_ip pfx old Hfam). lia.
Qed.

Lemma add_follows (base : K -> Z) (rc peer_ip pfx : string) (p : path) (w : work) :
  entry w.2 peer_ip pfx = None ->
  p <> [] ->
  follows_rib sel view wt base rc w ->
  follows_rib sel view wt base rc
    (notify_by_family pfx (fun fam => _notify_add_path fam rc peer_ip pfx p) w.1,
     <[peer_ip := <[pfx := p]> (default ∅ (w.2 !! peer_ip))]> w.2).
Proof.
  intros Hfree Hp [Hne Hview]. split; simpl.
  - intros peer' pfx'. rewrite (entry_install w.2 (default ∅ (w.2 !! peer_ip))).
    + destruct (decide _); [congruence|apply Hne].
    + destruct (w.2 !! peer_ip); [by left|by right].
  - intros o' Hin Hsel k.
    rewrite (total_rib_install _ _ _ (default ∅ (w.2 !! peer_ip))) by done.
    rewrite Hfree. simpl.
    apply (elem_of_notify pfx (fun fam => add_path fam rc peer_ip pfx p))
      in Hin as (o & Hin & Ho).
    destruct (family_of pfx) as [fam|] eqn:Hfam; subst o'; simpl in *.
    + pose proof (sel_add _ _ _ _ _ _ Hsel) as Hs.
      rewrite (view_add fam rc peer_ip pfx p (state o) Hs Hfam).
      rewrite (Hview o Hin Hs). lia.
    + rewrite (Hview o Hin Hsel), (wt_family k rc peer_ip pfx p Hfam). lia.
Qed.

Lemma valid_path_not_nil (p : path) (peer_asn : Z) :
  is_valid_path p peer_asn = true -> p <> [].
Proof. by destruct p. Qed.

Lemma apply_update_follows (base : K -> Z) (peer_ip_filter : list string)
    (rc : string) (update : fields) (w w' : work) :
  (forall k, 0 <= base k) ->
  apply_update peer_ip_filter rc update w = Ok w' ->
  follows_rib sel view wt base rc w -> follows_rib sel view wt base rc w'.
Proof.
  intros Hbase. unfold apply_update.
  destruct (update !! 2%nat) as [ty|]; [|done].
  destruct (update !! 3%nat) as [peer_ip|]; [|done].
  destruct (update !! 5%nat) as [pfx|]; [|done].
  destruct (negb _ && negb _); [by intros [= <-]|].
  destruct (bool_decide (length update = 6%nat) && String.eqb ty "W").
  { destruct (w.2 !! peer_ip) as [routes|] eqn:Hr; intros [= <-]; [|done].
    by apply purge_follows. }
  destruct (bool_decide (length update = 15%nat) && String.eqb ty "A");
    [|by intros [= <-]].
  destruct (Py.int _) as [asn|]; [|done].
  destruct (w.2 !! peer_ip) as [routes|] eqn:Hr; [|by intros [= <-]].
  destruct (parse_as_path _) as [p|]; [|intros [= <-]; by apply purge_follows].
  destruct (is_valid_path p asn) eqn:Hv; intros [= <-]; [|by apply purge_follows].
  apply install_follows; try done. by eapply valid_path_not_nil.
Qed.

Lemma update_loop_follows (base : K -> Z) (peer_ip_filter : list string)
    (ts_start ts_end : Z) (rc : string) (stream : list update_record)
    (w : work) (r : work * bool) :
  (forall k, 0 <= base k) ->
  update_loop peer_ip_filter ts_start ts_end rc stream w = Ok r ->
  follows_rib sel view wt base rc w -> follows_rib sel view wt base rc r.1.
Proof.
  intros Hbase. revert w. induction stream as [|u stream IH]; intros w.
  { by intros [= <-]. }
  simpl. unfold update_turn.
  destruct (update_ts u <? ts_start); simpl; [apply IH|].
  destruct (ts_end + one_second <? update_ts u); simpl; [by intros [= <-]|].
  unfold fmap, outcome_fmap, omap.
  destruct (apply_update peer_ip_filter rc (update_fields u) w) as [w1|e] eqn:E; [|done].
  simpl. intros Hrest Hw. apply (IH w1 Hrest).
  by eapply apply_update_follows.
Qed.

Lemma follows_split (obs : list observer) (data : gmap string peer_to_pfx_to_path)
    (rc : string) (rib : peer_to_pfx_to_path) :
  stores_no_empty_path (delete rc data) ->
  follows_rib sel view wt (fun k => total (wt k) (delete rc data)) rc (obs, rib) <->
  follows sel view wt obs (<[rc := rib]> data).
Proof.
  intros Hrest.
  assert (Htot : forall k, total (wt k) (<[rc := rib]> data)
                           = total (wt k) (delete rc data) + total_rib (wt k) rc rib).
  { intros k. rewrite <- (insert_delete_eq data), total_set, lookup_delete_eq.
    simpl. lia. }
  unfold follows_rib, follows. simpl. split.
  - intros [Hne Hview]. split.
    + intros rc' rib'. destruct (decide (rc' = rc)) as [->|Hd].
      * rewrite lookup_insert_eq. by intros [= <-].
      * rewrite lookup_insert_ne by done. intros Hl. apply (Hrest rc').
        by rewrite lookup_delete_ne.
    + intros o Hin Hs k. rewrite Htot. by apply Hview.
  - intros [Hne Hview]. split.
    + apply (Hne rc). apply lookup_insert_eq.
    + intros o Hin Hs k. rewrite <- Htot. by apply Hview.
Qed.

Lemma no_empty_delete (data : gmap string peer_to_pfx_to_path) (rc : string) :
  stores_no_empty_path data -> stores_no_empty_path (delete rc data).
Proof.
  intros Hne rc' rib' Hl. apply lookup_delete_Some in Hl as [_ Hl]. by eapply Hne.
Qed.

(** [update] keeps observers that follow the table following it. *)
Lemma update_follows (self self' : t) (rc_to_url : list (string * list update_record)) :
  update self rc_to_url = Ok self' ->
  follows sel view wt (_observers self) (data self) ->
  follows sel view wt (_observers self') (data self').
Proof.
  revert self. induction rc_to_url as [|[rc stream] rest IH]; intros self.
  { by intros [= <-]. }
  simpl. destruct (data self !! rc) as [rib|] eqn:Hrib; [|done].
  unfold _update_rib_from_url.
  destruct (update_loop (peer_ip_filter self) (ts_start self) (ts_end self) rc stream
              (_observers self, rib)) as [r|e] eqn:E; [|done].
  simpl. intros Hrest Hself. apply (IH _ Hrest). simpl.
  pose proof (no_empty_delete (data self) rc (proj1 Hself)) as Hdel.
  apply follows_split; [done|].
  replace r.1.1 with (r.1).1 by done.
  rewrite <- (surjective_pairing r.1).
  eapply update_loop_follows; [|exact E|].
  - intros k. apply total_nonneg. apply wt_nonneg.
  - apply follows_split; [done|]. by rewrite insert_id.
Qed.

Lemma build_line_follows (base : K -> Z) (peer_ip_filter : list string)
    (rc : string) (res : fields) (w w' : work) :
  (forall peer_ip pfx,
     line_key res = (Some peer_ip, Some pfx) -> entry w.2 peer_ip pfx = None) ->
  build_line peer_ip_filter rc res w = Ok w' ->
  follows_rib sel view wt base rc w -> follows_rib sel view wt base rc w'.
Proof.
  intros Hfree. unfold build_line.
  destruct (take 4 (drop 3 res)) as [|peer_ip [|peer_asn [|pfx [|as_path [|]]]]] eqn:Hs;
    try done.
  apply slice_fields in Hs as (H3 & _ & H5 & _).
  destruct (Py.int peer_asn) as [asn|]; [|done].
  destruct (bool_decide (peer_ip_filter = []) || bool_decide (peer_ip ∈ peer_ip_filter));
    [|by intros [= <-]].
  destruct (parse_as_path as_path) as [p|]; [|by intros [= <-]].
  destruct (is_valid_path p asn) eqn:Hv; intros [= <-]; [|done].
  apply add_follows; [|by eapply valid_path_not_nil].
  apply Hfree. unfold line_key. by rewrite H3, H5.
Qed.

Lemma build_line_free (peer_ip_filter : list string) (rc : string) (res : fields)
    (w w' : work) (peer_ip pfx : string) :
  build_line peer_ip_filter rc res w = Ok w' ->
  line_key res <> (Some peer_ip, Some pfx) ->
  entry w'.2 peer_ip pfx = entry w.2 peer_ip pfx.
Proof.
  unfold build_line.
  destruct (take 4 (drop 3 res)) as [|peer0 [|peer_asn [|pfx0 [|as_path [|]]]]] eqn:Hs;
    try done.
  apply slice_fields in Hs as (H3 & _ & H5 & _).
  destruct (Py.int peer_asn) as [asn|]; [|done].
  destruct (bool_decide (peer_ip_filter = []) || bool_decide (peer0 ∈ peer_ip_filter));
    [|by intros [= <-]].
  destruct (parse_as_path as_path) as [p|]; [|by intros [= <-]].
  destruct (is_valid_path p asn) eqn:Hv; intros [= <-]; [|done].
  intros Hkey. simpl. rewrite (entry_install w.2 (default ∅ (w.2 !! peer0))).
  - rewrite decide_False; [done|]. intros [= -> ->]. apply Hkey.
    unfold line_key. by rewrite H3, H5.
  - destruct (w.2 !! peer0); [by left|by right].
Qed.

Lemma build_lines_follows (base : K -> Z) (peer_ip_filter : list string)
    (rc : string) (lines : list fields) (w w' : work) :
  NoDup (line_key <$> lines) ->
  (forall res peer_ip pfx,
     res ∈ lines -> line_key res = (Some peer_ip, Some pfx) ->
     entry w.2 peer_ip pfx = None) ->
  build_lines peer_ip_filter rc lines w = Ok w' ->
  follows_rib sel view wt base rc w -> follows_rib sel view wt base rc w'.
Proof.
  revert w. induction lines as [|res lines IH]; intros w Hnd Hfree.
  { by intros [= <-]. }
  simpl. destruct (build_line peer_ip_filter rc res w) as [w1|e] eqn:E; [|done].
  simpl. intros Hrest Hw. rewrite fmap_cons in Hnd. apply NoDup_cons in Hnd as [Hnew Hnd].
  apply (IH w1 Hnd); [|done|].
  - intros res' peer_ip pfx Hin Hkey.
    rewrite (build_line_free _ _ _ _ _ _ _ E).
    + apply (Hfree res'); [by right|done].
    + intros Heq. apply Hnew. rewrite Heq, <- Hkey. by apply list_elem_of_fmap_2.
  - eapply build_line_follows; [|exact E|done].
    intros peer_ip pfx. apply Hfree. by left.
Qed.

Lemma build_data_follows (peer_ip_filter : list string)
    (rc_to_url : list (string * list fields))
    (acc acc' : list observer * gmap string peer_to_pfx_to_path) :
  NoDup rc_to_url.*1 ->
  Forall (fun e => NoDup (line_key <$> e.2)) rc_to_url ->
  (forall rc, rc ∈ rc_to_url.*1 -> acc.2 !! rc = None) ->
  build_data peer_ip_filter rc_to_url acc = Ok acc' ->
  follows sel view wt acc.1 acc.2 -> follows sel view wt acc'.1 acc'.2.
Proof.
  revert acc. induction rc_to_url as [|[rc lines] rest IH]; intros acc Hnd Hlines Hfresh.
  { by intros [= <-]. }
  simpl. unfold _build_rib_from_url.
  destruct (build_lines peer_ip_filter rc lines (acc.1, ∅)) as [w|e] eqn:E; [|done].
  simpl. intros Hrest Hacc.
  rewrite fmap_cons in Hnd. apply NoDup_cons in Hnd as [Hnew Hnd].
  apply Forall_cons in Hlines as [Hl Hlines]. simpl in *.
  assert (Hrc : acc.2 !! rc = None) by (apply Hfresh; by left).
  apply (IH (w.1, <[rc := w.2]> acc.2) Hnd Hlines); [|exact Hrest|]; simpl.
  - intros rc' Hin. rewrite lookup_insert_ne; [apply Hfresh; by right|].
    intros ->. by apply Hnew.
  - pose proof (no_empty_delete acc.2 rc (proj1 Hacc)) as Hdel.
    apply follows_split; [done|]. rewrite <- (surjective_pairing w).
    eapply build_lines_follows; [exact Hl| |exact E|].
    + intros res peer_ip pfx _ _. done.
    + apply follows_split; [done|]. destruct Hacc as [Hne Hview]. split.
      * intros rc' rib'. destruct (decide (rc' = rc)) as [->|Hd].
        -- rewrite lookup_insert_eq. intros [= <-]. by intros peer_ip pfx.
        -- rewrite lookup_insert_ne by done. apply Hne.
      * intros o Hin Hs k. rewrite total_set, Hrc, total_rib_empty. simpl.
        rewrite (Hview o Hin Hs). lia.
Qed.

(** [build] makes observers that have counted nothing follow the table,
    when no collector and, in a file, no peer and prefix comes twice. *)
Lemma build_follows (self self' : t) (rc_to_url : list (string * list fields)) :
  NoDup rc_to_url.*1 ->
  Forall (fun e => NoDup (line_key <$> e.2)) rc_to_url ->
  (forall o, o ∈ _observers self -> sel (state o) -> forall k, view (state o) k = 0) ->
  build self rc_to_url = Ok self' ->
  follows sel view wt (_observers self') (data self').
Proof.
  intros Hnd Hlines Hzero. unfold build.
  destruct (build_data (peer_ip_filter self) rc_to_url (_observers self, ∅))
    as [acc'|e] eqn:E; [|done].
  simpl. intros [= <-]. simpl.
  apply (build_data_follows _ _ _ _ Hnd Hlines) in E; [done|done|].
  split; simpl.
  - intros rc rib. by rewrite lookup_empty.
  - intros o Hin Hs k. rewrite total_empty. by apply Hzero.
Qed.

End Follow.

(** ** The path observer and the two graph observers follow the table *)

Section PathView.
Implicit Types (pc : PathObserver.t) (p q : path).

Lemma path_count_add pc q p :
  path_count (PathObserver._add_path pc q) p
  = path_count pc p + (if decide (q = p) then 1 else 0).
Proof.
  unfold path_count, PathObserver._add_path. destruct (decide (q = p)) as [->|Hne].
  - rewrite lookup_insert_eq. simpl. lia.
  - rewrite lookup_insert_ne by done. lia.
Qed.

Lemma path_count_remove pc q p :
  1 <= path_count pc q ->
  path_count (PathObserver._remove_path pc q) p
  = path_count pc p - (if decide (q = p) then 1 else 0).
Proof.
  unfold path_count, PathObserver._remove_path. cbv zeta.
  rewrite lookup_insert_eq. simpl. intros Hq.
  destruct (default 0 (pc !! q) - 1 <=? 0) eqn:E.
  - apply Z.leb_le in E. rewrite delete_insert_eq.
    destruct (decide (q = p)) as [->|Hne].
    + rewrite lookup_delete_eq. simpl. lia.
    + rewrite lookup_delete_ne by done. lia.
  - destruct (decide (q = p)) as [->|Hne].
    + rewrite lookup_insert_eq. simpl. lia.
    + rewrite lookup_insert_ne by done. lia.
Qed.

Lemma holds_family (p q : path) (rc peer_ip pfx : string) (fam : family) :
  family_of pfx = Some fam ->
  holds p rc peer_ip pfx q = if decide (q = p) then 1 else 0.
Proof.
  intros Hfam. unfold holds. rewrite Hfam.
  destruct (decide (q = p)) as [->|Hne].
  - rewrite decide_True; [done|]. split; [done|by eexists].
  - rewrite decide_False; [done|]. by intros [? _].
Qed.

Lemma holds_nonneg (p q : path) (rc peer_ip pfx : string) :
  0 <= holds p rc peer_ip pfx q.
Proof. unfold holds. destruct (decide _); lia. Qed.

Lemma holds_no_family (p q : path) (rc peer_ip pfx : string) :
  family_of pfx = None -> holds p rc peer_ip pfx q = 0.
Proof.
  intros Hfam. unfold holds. rewrite Hfam. rewrite decide_False; [done|].
  intros [_ [? ?]]. done.
Qed.

Lemma path_view_add fam rc peer_ip pfx q s :
  is_path_observer s -> family_of pfx = Some fam ->
  forall p, path_view (add_path fam rc peer_ip pfx q s) p
            = path_view s p + holds p rc peer_ip pfx q.
Proof.
  intros Hs Hfam p. destruct s as [| | |pc]; try done. simpl.
  rewrite (holds_family _ _ _ _ _ _ Hfam). apply path_count_add.
Qed.

Lemma path_view_withdrawal fam rc peer_ip pfx q s :
  is_path_observer s -> family_of pfx = Some fam ->
  (forall p, holds p rc peer_ip pfx q <= path_view s p) ->
  forall p, path_view (update_withdrawal fam rc peer_ip pfx q s) p
            = path_view s p - holds p rc peer_ip pfx q.
Proof.
  intros Hs Hfam Hle p. destruct s as [| | |pc]; try done. simpl.
  rewrite (holds_family _ _ _ _ _ _ Hfam). apply path_count_remove.
  specialize (Hle q). rewrite (holds_family _ _ _ _ _ _ Hfam) in Hle.
  rewrite decide_True in Hle by done. exact Hle.
Qed.

Lemma path_view_announcement fam rc peer_ip pfx n o s :
  is_path_observer s -> family_of pfx = Some fam -> o <> Some [] ->
  (forall p, from_option (holds p rc peer_ip pfx) 0 o <= path_view s p) ->
  forall p, path_view (update_announcement fam rc peer_ip pfx n o s) p
            = path_view s p - from_option (holds p rc peer_ip pfx) 0 o
              + holds p rc peer_ip pfx n.
Proof.
  intros Hs Hfam Ho Hle p. destruct s as [| | |pc]; try done. simpl.
  destruct o as [[|a old]|]; [done| |]; simpl.
  - rewrite !(holds_family _ _ _ _ _ _ Hfam), path_count_add.
    rewrite path_count_remove; [lia|].
    specialize (Hle (a :: old)). simpl in Hle.
    rewrite (holds_family _ _ _ _ _ _ Hfam) in Hle.
    rewrite decide_True in Hle by done. exact Hle.
  - rewrite (holds_family _ _ _ _ _ _ Hfam), path_count_add. lia.
Qed.

Lemma path_observers_follow_iff (self : RIBTable.t) :
  path_observers_follow self <->
  (forall o, o ∈ RIBTable._observers self -> is_path_observer (state o) ->
     forall p, path_view (state o) p = total (holds p) (RIBTable.data self)).
Proof.
  unfold path_observers_follow, holding. split.
  - intros H o Hin Hs p. destruct (state o) as [| | |pc] eqn:E; try done.
    by apply (H o pc).
  - intros H o pc Hin Hs p. specialize (H o Hin). rewrite Hs in H. by apply H.
Qed.
End PathView.

Section GraphView.
Context {K : Type} `{Countable K}.
Variable edge_of : string -> string -> Z -> Z -> K.

Lemma edge_count_decr (m : gmap K Z) (k k' : K) :
  1 <= edge_count m k' ->
  edge_count (decr_count m k') k
  = edge_count m k - (if decide (k' = k) then 1 else 0).
Proof.
  unfold edge_count, decr_count. intros Hk'.
  destruct (m !! k') as [c|] eqn:E; simpl in Hk'; [|lia].
  destruct (c - 1 =? 0) eqn:E0.
  - apply Z.eqb_eq in E0. destruct (decide (k' = k)) as [->|Hne].
    + rewrite lookup_delete_eq, E. simpl. lia.
    + rewrite lookup_delete_ne by done. lia.
  - destruct (decide (k' = k)) as [->|Hne].
    + rewrite lookup_insert_eq, E. simpl. lia.
    + rewrite lookup_insert_ne by done. lia.
Qed.

Lemma edge_count_decr_all (ks : list K) (m : gmap K Z) :
  (forall k, Z.of_nat (times k ks) <= edge_count m k) ->
  forall k, edge_count (decr_all ks m) k = edge_count m k - Z.of_nat (times k ks).
Proof.
  revert m. induction ks as [|k' ks IH]; intros m Hle k; simpl; [lia|].
  assert (Hk' : 1 <= edge_count m k').
  { specialize (Hle k'). simpl in Hle. rewrite decide_True in Hle by done. lia. }
  unfold decr_all in *. simpl. rewrite IH.
  - rewrite edge_count_decr by done. destruct (decide (k' = k)); lia.
  - intros k0. rewrite edge_count_decr by done. specialize (Hle k0). simpl in Hle.
    destruct (decide (k' = k0)); lia.
Qed.

Lemma edge_count_add_path (g : nx.graph K) (rc peer_ip : string) (p : path) (k : K) :
  edge_count (nx.counts (graph_add_path (edge_of rc peer_ip) g p)) k
  = edge_count (nx.counts g) k
    + Z.of_nat (times k (keys_of (edge_of rc peer_ip) (hops p))).
Proof.
  unfold graph_add_path. rewrite counts_add_hops. apply edge_count_incr_all.
Qed.

Lemma edge_count_remove_path (g : nx.graph K) (rc peer_ip : string) (p : path) :
  (forall k, Z.of_nat (times k (keys_of (edge_of rc peer_ip) (hops p)))
             <= edge_count (nx.counts g) k) ->
  forall k,
    edge_count (nx.counts (graph_remove_path (edge_of rc peer_ip) g p)) k
    = edge_count (nx.counts g) k
      - Z.of_nat (times k (keys_of (edge_of rc peer_ip) (hops p))).
Proof.
  intros Hle k. unfold graph_remove_path. rewrite counts_remove_hops.
  by apply edge_count_decr_all.
Qed.

Lemma hops_over_nonneg (k : family * K) (rc peer_ip pfx : string) (q : path) :
  0 <= hops_over edge_of k.1 k.2 rc peer_ip pfx q.
Proof. unfold hops_over. destruct (decide _); lia. Qed.

Lemma hops_over_no_family (k : family * K) (rc peer_ip pfx : string) (q : path) :
  family_of pfx = None -> hops_over edge_of k.1 k.2 rc peer_ip pfx q = 0.
Proof. intros Hfam. unfold hops_over. by rewrite Hfam, decide_False. Qed.

Lemma hops_over_family (k : family * K) (rc peer_ip pfx : string) (q : path)
    (fam : family) :
  family_of pfx = Some fam ->
  hops_over edge_of k.1 k.2 rc peer_ip pfx q
  = if decide (k.1 = fam)
    then Z.of_nat (times k.2 (keys_of (edge_of rc peer_ip) (hops q)))
    else 0.
Proof.
  intros Hfam. unfold hops_over. rewrite Hfam.
  destruct (decide (k.1 = fam)) as [->|Hne].
  - by rewrite decide_True.
  - rewrite decide_False; [done|]. by intros [= ->].
Qed.

Lemma graphs_add (fam : family) (rc peer_ip pfx : string) (q : path)
    (o : graphs K) (k : family * K) :
  family_of pfx = Some fam ->
  edge_count (nx.counts (graph_of k.1
     (base_add_path (add_with edge_of) fam rc peer_ip pfx q o))) k.2
  = edge_count (nx.counts (graph_of k.1 o)) k.2
    + hops_over edge_of k.1 k.2 rc peer_ip pfx q.
Proof.
  intros Hfam. rewrite (hops_over_family _ _ _ _ _ _ Hfam).
  unfold base_add_path. rewrite graph_of_on_family.
  destruct (decide (k.1 = fam)); [|lia]. apply edge_count_add_path.
Qed.

Lemma graphs_withdrawal (fam : family) (rc peer_ip pfx : string) (q : path)
    (o : graphs K) :
  family_of pfx = Some fam ->
  (forall k : family * K,
     hops_over edge_of k.1 k.2 rc peer_ip pfx q
     <= edge_count (nx.counts (graph_of k.1 o)) k.2) ->
  forall k : family * K,
    edge_count (nx.counts (graph_of k.1
       (base_update_withdrawal (remove_with edge_of) fam rc peer_ip pfx q o))) k.2
    = edge_count (nx.counts (graph_of k.1 o)) k.2
      - hops_over edge_of k.1 k.2 rc peer_ip pfx q.
Proof.
  intros Hfam Hle k. rewrite (hops_over_family _ _ _ _ _ _ Hfam).
  unfold base_update_withdrawal. rewrite graph_of_on_family.
  destruct (decide (k.1 = fam)) as [Hk|Hk]; [|lia].
  apply edge_count_remove_path. intros k0. specialize (Hle (k.1, k0)).
  rewrite (hops_over_family _ _ _ _ _ _ Hfam) in Hle. simpl in Hle.
  by rewrite decide_True in Hle.
Qed.

Lemma graphs_announcement (fam : family) (rc peer_ip pfx : string) (n : path)
    (old : option path) (o : graphs K) :
  family_of pfx = Some fam ->
  (forall k : family * K,
     from_option (hops_over edge_of k.1 k.2 rc peer_ip pfx) 0 old
     <= edge_count (nx.counts (graph_of k.1 o)) k.2) ->
  forall k : family * K,
    edge_count (nx.counts (graph_of k.1
       (base_update_announcement (add_with edge_of) (remove_with edge_of)
          fam rc peer_ip pfx n old o))) k.2
    = edge_count (nx.counts (graph_of k.1 o)) k.2
      - from_option (hops_over edge_of k.1 k.2 rc peer_ip pfx) 0 old
      + hops_over edge_of k.1 k.2 rc peer_ip pfx n.
Proof.
  intros Hfam Hle k. unfold base_update_announcement.
  destruct old as [[|a old]|]; simpl.
  - rewrite !(hops_over_family _ _ _ _ _ _ Hfam). rewrite graph_of_on_family.
    destruct (decide (k.1 = fam)); simpl; [|lia].
    unfold add_with. rewrite edge_count_add_path. simpl. lia.
  - rewrite !(hops_over_family _ _ _ _ _ _ Hfam). rewrite graph_of_on_family.
    destruct (decide (k.1 = fam)) as [Hk|Hk]; [|lia].
    unfold add_with, remove_with. rewrite edge_count_add_path.
    rewrite edge_count_remove_path; [lia|].
    intros k0. specialize (Hle (k.1, k0)). cbn [from_option] in Hle.
    rewrite (hops_over_family _ _ _ _ _ _ Hfam) in Hle. simpl in Hle.
    by rewrite decide_True in Hle.
  - rewrite (hops_over_family _ _ _ _ _ _ Hfam). rewrite graph_of_on_family.
    destruct (decide (k.1 = fam)); [|lia].
    unfold add_with. rewrite edge_count_add_path. lia.
Qed.
End GraphView.

(** A property of the observers that every callback keeps is kept by
    [update]. *)
Section Kept.
Import RIBTable.
Variable P : observer_state -> Prop.
Hypothesis P_deliver : forall e s, P s -> P (deliver e s).

Lemma on_state_kept (e : event) (obs : list observer) :
  Forall (fun o => P (state o)) obs ->
  Forall (fun o => P (state o)) (on_state (deliver e) <$> obs).
Proof.
  intros Hobs. apply Forall_fmap. eapply Forall_impl; [exact Hobs|].
  intros o Ho. simpl. by apply P_deliver.
Qed.

Lemma purge_kept (rc peer_ip pfx : string) (routes : pfx_to_path) (w : work) :
  Forall (fun o => P (state o)) w.1 ->
  Forall (fun o => P (state o)) (purge rc peer_ip pfx routes w).1.
Proof.
  intros Hw. unfold purge. destruct (routes !! pfx) as [old|]; [|done]. simpl.
  rewrite notify_withdrawal_callbacks. destruct (family_of pfx); [|done].
  by apply on_state_kept.
Qed.

Lemma apply_update_kept (peer_ip_filter : list string) (rc : string)
    (update : fields) (w w' : work) :
  apply_update peer_ip_filter rc update w = Ok w' ->
  Forall (fun o => P (state o)) w.1 -> Forall (fun o => P (state o)) w'.1.
Proof.
  unfold apply_update.
  destruct (update !! 2%nat) as [ty|]; [|done].
  destruct (update !! 3%nat) as [peer_ip|]; [|done].
  destruct (update !! 5%nat) as [pfx|]; [|done].
  destruct (negb _ && negb _); [by intros [= <-]|].
  destruct (bool_decide (length update = 6%nat) && String.eqb ty "W").
  { destruct (w.2 !! peer_ip) as [routes|] eqn:Hr; intros [= <-]; [|done].
    by apply purge_kept. }
  destruct (bool_decide (length update = 15%nat) && String.eqb ty "A");
    [|by intros [= <-]].
  destruct (Py.int _) as [asn|]; [|done].
  destruct (w.2 !! peer_ip) as [routes|] eqn:Hr; [|by intros [= <-]].
  destruct (parse_as_path _) as [p|]; [|intros [= <-]; by apply purge_kept].
  destruct (is_valid_path p asn); intros [= <-]; [|by apply purge_kept].
  simpl. intros Hw. rewrite notify_announcement_callbacks.
  destruct (family_of pfx); [|done]. by apply on_state_kept.
Qed.

Lemma update_loop_kept (peer_ip_filter : list string) (ts_start ts_end : Z)
    (rc : string) (stream : list update_record) (w : work) (r : work * bool) :
  update_loop peer_ip_filter ts_start ts_end rc stream w = Ok r ->
  Forall (fun o => P (state o)) w.1 -> Forall (fun o => P (state o)) r.1.1.
Proof.
  revert w. induction stream as [|u stream IH]; intros w; [by intros [= <-]|].
  simpl. unfold update_turn.
  destruct (update_ts u <? ts_start); simpl; [apply IH|].
  destruct (ts_end + one_second <? update_ts u); simpl; [by intros [= <-]|].
  unfold fmap, outcome_fmap, omap.
  destruct (apply_update peer_ip_filter rc (update_fields u) w) as [w1|e] eqn:E; [|done].
  simpl. intros Hrest Hw. apply (IH w1 Hrest). by eapply apply_update_kept.
Qed.

Lemma update_kept (self self' : t) (rc_to_url : list (string * list update_record)) :
  update self rc_to_url = Ok self' ->
  Forall (fun o => P (state o)) (_observers self) ->
  Forall (fun o => P (state o)) (_observers self').
Proof.
  revert self. induction rc_to_url as [|[rc stream] rest IH]; intros self.
  { by intros [= <-]. }
  simpl. destruct (data self !! rc) as [rib|] eqn:Hrib; [|done].
  unfold _update_rib_from_url.
  destruct (update_loop (peer_ip_filter self) (ts_start self) (ts_end self) rc stream
              (_observers self, rib)) as [r|e] eqn:E; [|done].
  simpl. intros Hrest Hself. apply (IH _ Hrest). simpl.
  by apply (update_loop_kept _ _ _ _ _ _ _ E).
Qed.
End Kept.

Section CountingObservers.
Import RIBTable.

Lemma graph_counts_positive_deliver (e : event) (s : observer_state) :
  graph_counts_positive s -> graph_counts_positive (deliver e s).
Proof.
  destruct s as [g|g|c|pc]; intros Hs; try (by destruct e).
  pose proof (graph_deliver_positive e g Hs). by destruct e.
Qed.

Lemma passing_nonneg {K : Type} `{Countable K}
    (edge_of : string -> string -> Z -> Z -> K) (fam : family) (k : K)
    (data : gmap string peer_to_pfx_to_path) :
  0 <= passing edge_of fam k data.
Proof.
  unfold passing. apply total_nonneg. intros.
  apply (hops_over_nonneg edge_of (fam, k)).
Qed.

(** A graph observer holds exactly the edges the stored paths pass over
    when its counts follow the table and none of them is below one. *)
Lemma graph_observers_exact_iff (self : t) :
  graph_observers_exact self <->
  graph_observers_follow self /\
  Forall (fun o => graph_counts_positive (state o)) (_observers self).
Proof.
  unfold graph_observers_exact, graph_observers_follow, edge_of_count, edge_count.
  split.
  - intros Hex. split.
    + intros o g Hin Hs fam k. rewrite (Hex o g Hin Hs fam k).
      by destruct (decide _).
    + apply Forall_forall. intros o Hin.
      destruct (state o) as [g| | |] eqn:Hs; try done. simpl.
      assert (forall fam, positive (nx.counts (graph_of fam g))) as Hpos.
      { intros fam k c Hk. rewrite (Hex o g Hin Hs fam k) in Hk.
        pose proof (passing_nonneg (fun _ _ : string => nx.edge_key) fam k (data self)).
        destruct (decide _); [done|]. injection Hk as <-. lia. }
      split; [apply (Hpos IPv4)|apply (Hpos IPv6)].
  - intros [Hf Hpos] o g Hin Hs fam k.
    specialize (Hf o g Hin Hs fam k).
    rewrite Forall_forall in Hpos. specialize (Hpos o Hin). rewrite Hs in Hpos.
    simpl in Hpos.
    assert (positive (nx.counts (graph_of fam g))) as Hfam
      by (destruct fam; apply Hpos).
    destruct (nx.counts (graph_of fam g) !! k) as [c|] eqn:Hk; simpl in Hf.
    + apply Hfam in Hk. rewrite <- Hf. destruct (decide _); [lia|done].
    + rewrite <- Hf. by destruct (decide _).
Qed.

Lemma graph_observers_follow_iff (self : t) :
  graph_observers_follow self <->
  (forall o, o ∈ _observers self -> is_graph_observer (state o) ->
     forall k : family * (Z * Z),
       graph_view (state o) k
       = total (hops_over (fun _ _ => nx.edge_key) k.1 k.2) (data self)).
Proof.
  unfold graph_observers_follow, passing. split.
  - intros Hf o Hin Hs k. destruct (state o) as [g| | |] eqn:E; try done.
    by apply (Hf o g).
  - intros Hf o g Hin Hs fam k. specialize (Hf o Hin). rewrite Hs in Hf.
    by apply (Hf I (fam, k)).
Qed.

Lemma multigraph_observers_follow_iff (self : t) :
  multigraph_observers_follow self <->
  (forall o, o ∈ _observers self -> is_multigraph_observer (state o) ->
     forall k : family * (Z * Z * string),
       multigraph_view (state o) k
       = total (hops_over ASMultiGraphObserver.edge_of k.1 k.2) (data self)).
Proof.
  unfold multigraph_observers_follow, passing. split.
  - intros Hf o Hin Hs k. destruct (state o) as [|g| |] eqn:E; try done.
    by apply (Hf o g).
  - intros Hf o g Hin Hs fam k. specialize (Hf o Hin). rewrite Hs in Hf.
    by apply (Hf I (fam, k)).
Qed.

Lemma path_follows_update (self self' : t)
    (rc_to_url : list (string * list update_record)) :
  update self rc_to_url = Ok self' ->
  follows is_path_observer path_view holds (_observers self) (data self) ->
  follows is_path_observer path_view holds (_observers self') (data self').
Proof.
  apply update_follows.
  - intros. apply holds_nonneg.
  - intros. by apply holds_no_family.
  - intros fam rc peer_ip pfx q []; done.
  - intros fam rc peer_ip pfx n o []; done.
  - intros. by apply path_view_withdrawal.
  - intros. by apply path_view_announcement.
Qed.

Lemma graph_follows_update (self self' : t)
    (rc_to_url : list (string * list update_record)) :
  update self rc_to_url = Ok self' ->
  follows is_graph_observer graph_view
    (fun k => hops_over (fun _ _ => nx.edge_key) k.1 k.2)
    (_observers self) (data self) ->
  follows is_graph_observer graph_view
    (fun k => hops_over (fun _ _ => nx.edge_key) k.1 k.2)
    (_observers self') (data self').
Proof.
  apply update_follows.
  - intros. apply hops_over_nonneg.
  - intros. by apply hops_over_no_family.
  - intros fam rc peer_ip pfx q []; done.
  - intros fam rc peer_ip pfx n o []; done.
  - intros fam rc peer_ip pfx q [g| | |] Hs Hfam Hle k; try done.
    by apply (graphs_withdrawal (fun _ _ => nx.edge_key)).
  - intros fam rc peer_ip pfx n o [g| | |] Hs Hfam _ Hle k; try done.
    by apply (graphs_announcement (fun _ _ => nx.edge_key)).
Qed.

Lemma multigraph_follows_update (self self' : t)
    (rc_to_url : list (string * list update_record)) :
  update self rc_to_url = Ok self' ->
  follows is_multigraph_observer multigraph_view
    (fun k => hops_over ASMultiGraphObserver.edge_of k.1 k.2)
    (_observers self) (data self) ->
  follows is_multigraph_observer multigraph_view
    (fun k => hops_over ASMultiGraphObserver.edge_of k.1 k.2)
    (_observers self') (data self').
Proof.
  apply update_follows.
  - intros. apply hops_over_nonneg.
  - intros. by apply hops_over_no_family.
  - intros fam rc peer_ip pfx q []; done.
  - intros fam rc peer_ip pfx n o []; done.
  - intros fam rc peer_ip pfx q [|g| |] Hs Hfam Hle k; try done.
    by apply (graphs_withdrawal ASMultiGraphObserver.edge_of).
  - intros fam rc peer_ip pfx n o [|g| |] Hs Hfam _ Hle k; try done.
    by apply (graphs_announcement ASMultiGraphObserver.edge_of).
Qed.

(** Through [update] the path observer keeps the count of each path
    equal to the number of entries of the store, under a prefix of either
    family, that hold the path. *)
Theorem update_keeps_path_counts (self self' : t)
    (rc_to_url : list (string * list update_record)) :
  update self rc_to_url = Ok self' ->
  stores_no_empty_path (data self) ->
  path_observers_follow self ->
  stores_no_empty_path (data self') /\ path_observers_follow self'.
Proof.
  intros Hu Hne Hf. rewrite path_observers_follow_iff in *.
  by apply (path_follows_update self self' rc_to_url Hu).
Qed.

(** Through [update] the graph observer keeps, in the graph of each
    family, exactly the edges that the stored paths of the family pass
    over: an edge no stored path passes over is absent, and every other
    edge is present with the number of hops of the stored paths over it
    as its [paths_count]. *)
Theorem update_keeps_edge_counts (self self' : t)
    (rc_to_url : list (string * list update_record)) :
  update self rc_to_url = Ok self' ->
  stores_no_empty_path (data self) ->
  graph_observers_exact self ->
  stores_no_empty_path (data self') /\ graph_observers_exact self'.
Proof.
  intros Hu Hne Hex. rewrite graph_observers_exact_iff in *.
  destruct Hex as [Hf Hpos]. rewrite graph_observers_follow_iff in *.
  destruct (graph_follows_update self self' rc_to_url Hu (conj Hne Hf)) as [Hne' Hf'].
  repeat split; [done|done|].
  by apply (update_kept graph_counts_positive graph_counts_positive_deliver
              self self' rc_to_url Hu).
Qed.

(** Through [update] the multigraph observer keeps the [paths_count] of
    each edge, which belongs to one collector and one peer, equal to the
    number of hops of the stored paths of that family that pass over it. *)
Theorem update_keeps_multigraph_counts (self self' : t)
    (rc_to_url : list (string * list update_record)) :
  update self rc_to_url = Ok self' ->
  stores_no_empty_path (data self) ->
  multigraph_observers_follow self ->
  stores_no_empty_path (data self') /\ multigraph_observers_follow self'.
Proof.
  intros Hu Hne Hf. rewrite multigraph_observers_follow_iff in *.
  by apply (multigraph_follows_update self self' rc_to_url Hu).
Qed.

Lemma elem_of_uncounted (obs : list observer) (o : observer) :
  Forall (fun o => uncounted (state o)) obs -> o ∈ obs -> uncounted (state o).
Proof. intros Hall Hin. rewrite Forall_forall in Hall. by apply Hall. Qed.

Lemma edge_count_empty {K : Type} `{Countable K} (m : gmap K Z) (k : K) :
  m = ∅ -> edge_count m k = 0.
Proof. intros ->. unfold edge_count. by rewrite lookup_empty. Qed.

(** After [build], when no collector comes twice in the call, no peer and
    prefix comes twice in a file and the observers had counted nothing,
    the path observer counts each path as many times as entries hold it,
    and each graph observer counts each edge as many times as the stored
    paths of the family pass over it. *)
Theorem build_counts (self self' : t) (rc_to_url : list (string * list fields)) :
  NoDup rc_to_url.*1 ->
  Forall (fun e => NoDup (line_key <$> e.2)) rc_to_url ->
  Forall (fun o => uncounted (state o)) (_observers self) ->
  build self rc_to_url = Ok self' ->
  stores_no_empty_path (data self') /\
  path_observers_follow self' /\
  graph_observers_follow self' /\
  multigraph_observers_follow self'.
Proof.
  intros Hnd Hlines Hfresh Hb.
  rewrite path_observers_follow_iff, graph_observers_follow_iff,
    multigraph_observers_follow_iff.
  assert (Hp : follows is_path_observer path_view holds (_observers self') (data self')).
  { apply (build_follows is_path_observer path_view holds) with (self := self)
      (rc_to_url := rc_to_url); try done.
    - intros. by apply holds_no_family.
    - intros fam rc peer_ip pfx q []; done.
    - intros. by apply path_view_add.
    - intros o Hin Hs p. pose proof (elem_of_uncounted _ _ Hfresh Hin) as Hu.
      destruct (state o) as [| | |pc]; try done. simpl in *. subst pc.
      unfold path_count. by rewrite lookup_empty. }
  assert (Hg : follows is_graph_observer graph_view
                 (fun k => hops_over (fun _ _ => nx.edge_key) k.1 k.2)
                 (_observers self') (data self')).
  { apply (build_follows is_graph_observer graph_view
             (fun k => hops_over (fun _ _ => nx.edge_key) k.1 k.2))
      with (self := self) (rc_to_url := rc_to_url); try done.
    - intros. by apply hops_over_no_family.
    - intros fam rc peer_ip pfx q []; done.
    - intros fam rc peer_ip pfx q [g| | |] Hs Hfam k; try done.
      by apply (graphs_add (fun _ _ => nx.edge_key)).
    - intros o Hin Hs k. pose proof (elem_of_uncounted _ _ Hfresh Hin) as Hu.
      destruct (state o) as [g| | |]; try done. simpl in *. destruct Hu as [H4 H6].
      apply edge_count_empty. by destruct k.1. }
  assert (Hm : follows is_multigraph_observer multigraph_view
                 (fun k => hops_over ASMultiGraphObserver.edge_of k.1 k.2)
                 (_observers self') (data self')).
  { apply (build_follows is_multigraph_observer multigraph_view
             (fun k => hops_over ASMultiGraphObserver.edge_of k.1 k.2))
      with (self := self) (rc_to_url := rc_to_url); try done.
    - intros. by apply hops_over_no_family.
    - intros fam rc peer_ip pfx q []; done.
    - intros fam rc peer_ip pfx q [|g| |] Hs Hfam k; try done.
      by apply (graphs_add ASMultiGraphObserver.edge_of).
    - intros o Hin Hs k. pose proof (elem_of_uncounted _ _ Hfresh Hin) as Hu.
      destruct (state o) as [|g| |]; try done. simpl in *. destruct Hu as [H4 H6].
      apply edge_count_empty. by destruct k.1. }
  split; [apply Hp|]. split; [apply Hp|]. split; [apply Hg|apply Hm].
Qed.

Example tracking_no_empty_path : stores_no_empty_path (data Scenario.tracking).
Proof.
  intros rc rib Hrib peer_ip pfx. unfold Scenario.tracking in Hrib. simpl in Hrib.
  apply lookup_singleton_Some in Hrib as [_ <-]. unfold entry.
  destruct (decide (peer_ip = "1.2.3.4"%string)) as [->|Hne].
  - by rewrite lookup_singleton_eq.
  - by rewrite lookup_singleton_ne.
Qed.

Example tracking_observers (o : observer) :
  o ∈ _observers Scenario.tracking ->
  o = mk_observer "graph" (OGraph ASGraphObserver.init) \/
  o = mk_observer "multigraph" (OMultiGraph ASMultiGraphObserver.init) \/
  o = mk_observer "update_count" (OUpdateCount UpdateCountObserver.init) \/
  o = mk_observer "path" (OPath PathObserver.init).
Proof.
  unfold Scenario.tracking, Scenario.observers. simpl. intros Hin.
  repeat (apply elem_of_cons in Hin as [->|Hin]; [tauto|]).
  by apply elem_of_nil in Hin.
Qed.

Example tracking_path_counts : path_observers_follow Scenario.tracking.
Proof.
  intros o pc Hin Hs p.
  destruct (tracking_observers o Hin) as [-> | [-> | [-> | ->]]]; try done.
  injection Hs as <-. vm_compute. reflexivity.
Qed.

Example tracking_edge_counts : graph_observers_follow Scenario.tracking.
Proof.
  intros o g Hin Hs fam k.
  destruct (tracking_observers o Hin) as [-> | [-> | [-> | ->]]]; try done.
  injection Hs as <-. destruct fam; vm_compute; reflexivity.
Qed.

Example tracking_edges_exact : graph_observers_exact Scenario.tracking.
Proof.
  intros o g Hin Hs fam k.
  destruct (tracking_observers o Hin) as [-> | [-> | [-> | ->]]]; try done.
  injection Hs as <-. destruct fam; vm_compute; reflexivity.
Qed.

Example tracking_multigraph_counts : multigraph_observers_follow Scenario.tracking.
Proof.
  intros o g Hin Hs fam k.
  destruct (tracking_observers o Hin) as [-> | [-> | [-> | ->]]]; try done.
  injection Hs as <-. destruct fam; vm_compute; reflexivity.
Qed.

Lemma update_keeps_path_counts_witness :
  exists self',
    update Scenario.tracking
      [("rrc00"%string,
        [Scenario.announce (5 * one_second) "1.2.3.4" "100" "10.0.0.0/24" "100 200 300"])]
    = Ok self' /\
    stores_no_empty_path (data self') /\ path_observers_follow self'.
Proof.
  assert (exists s,
            update Scenario.tracking
              [("rrc00"%string,
                [Scenario.announce (5 * one_second) "1.2.3.4" "100" "10.0.0.0/24"
                   "100 200 300"])]
            = Ok s) as [s Hs] by (eexists; vm_compute; reflexivity).
  exists s. split; [exact Hs|].
  exact (update_keeps_path_counts _ _ _ Hs tracking_no_empty_path tracking_path_counts).
Defined.

Lemma update_keeps_edge_counts_witness :
  exists self',
    update Scenario.tracking
      [("rrc00"%string,
        [Scenario.announce (5 * one_second) "1.2.3.4" "100" "10.0.0.0/24" "100 200 300"])]
    = Ok self' /\
    stores_no_empty_path (data self') /\ graph_observers_exact self'.
Proof.
  assert (exists s,
            update Scenario.tracking
              [("rrc00"%string,
                [Scenario.announce (5 * one_second) "1.2.3.4" "100" "10.0.0.0/24"
                   "100 200 300"])]
            = Ok s) as [s Hs] by (eexists; vm_compute; reflexivity).
  exists s. split; [exact Hs|].
  exact (update_keeps_edge_counts _ _ _ Hs tracking_no_empty_path tracking_edges_exact).
Defined.

Lemma update_keeps_multigraph_counts_witness :
  exists self',
    update Scenario.tracking
      [("rrc00"%string,
        [Scenario.announce (5 * one_second) "1.2.3.4" "100" "10.0.0.0/24" "100 200 300"])]
    = Ok self' /\
    stores_no_empty_path (data self') /\ multigraph_observers_follow self'.
Proof.
  assert (exists s,
            update Scenario.tracking
              [("rrc00"%string,
                [Scenario.announce (5 * one_second) "1.2.3.4" "100" "10.0.0.0/24"
                   "100 200 300"])]
            = Ok s) as [s Hs] by (eexists; vm_compute; reflexivity).
  exists s. split; [exact Hs|].
  exact (update_keeps_multigraph_counts _ _ _ Hs tracking_no_empty_path
           tracking_multigraph_counts).
Defined.

Lemma build_counts_witness :
  exists self',
    build Scenario.fresh
      [("rrc00"%string,
        [Scenario.rib_line "1.2.3.4" "100" "10.0.0.0/24" "100 200 300";
         Scenario.rib_line "1.2.3.4" "100" "10.0.1.0/24" "100 200 300"])]
    = Ok self' /\
    stores_no_empty_path (data self') /\
    path_observers_follow self' /\
    graph_observers_follow self' /\
    multigraph_observers_follow self'.
Proof.
  assert (exists s,
            build Scenario.fresh
              [("rrc00"%string,
                [Scenario.rib_line "1.2.3.4" "100" "10.0.0.0/24" "100 200 300";
                 Scenario.rib_line "1.2.3.4" "100" "10.0.1.0/24" "100 200 300"])]
            = Ok s) as [s Hs] by (eexists; vm_compute; reflexivity).
  exists s. split; [exact Hs|].
  apply (build_counts Scenario.fresh s
           [("rrc00"%string,
             [Scenario.rib_line "1.2.3.4" "100" "10.0.0.0/24" "100 200 300";
              Scenario.rib_line "1.2.3.4" "100" "10.0.1.0/24" "100 200 300"])]);
    [| | |exact Hs].
  - apply NoDup_singleton.
  - repeat constructor; simpl; set_solver.
  - repeat constructor; simpl; done.
Defined.

End CountingObservers.

(** ** The update counter *)

Section UpdateCounter.
Import UpdateCountObserver.

Lemma counter_incr (k k' : string) (d : gmap string Z) :
  counter (incr k d) k' = counter d k' + (if decide (k = k') then 1 else 0).
Proof.
  unfold counter, incr. destruct (decide (k = k')) as [->|Hne].
  - rewrite lookup_insert_eq. simpl. lia.
  - rewrite lookup_insert_ne by done. lia.
Qed.

Lemma per_peer_incr2 (rc rc' peer_ip : string) (d : gmap string (gmap string Z)) :
  ksum (fun _ c => c) (default ∅ (incr2 rc peer_ip d !! rc'))
  = ksum (fun _ c => c) (default ∅ (d !! rc'))
    + (if decide (rc = rc') then 1 else 0).
Proof.
  unfold incr2. destruct (decide (rc = rc')) as [->|Hne].
  - rewrite lookup_insert_eq. simpl. unfold incr. rewrite ksum_insert.
    destruct (default ∅ (d !! rc') !! peer_ip); simpl; lia.
  - rewrite lookup_insert_ne by done. lia.
Qed.

Lemma deliver_balanced (e : event) (o : t) :
  counter_balanced o ->
  counter_balanced (deliver e o) /\
  forall rc,
    counter (n_updates (deliver e o)) rc
    = counter (n_updates o) rc
      + (if decide (update_collector e = Some rc) then 1 else 0).
Proof.
  intros Hb. destruct e as [fam rc0 peer pfx p|fam rc0 peer pfx p|fam rc0 peer pfx n old].
  - split; [exact Hb|]. intros rc. simpl. lia.
  - split.
    + intros rc. destruct (Hb rc) as [H1 H2].
      destruct fam; simpl; rewrite ?counter_incr, per_peer_incr2; lia.
    + intros rc. destruct fam; simpl; rewrite counter_incr;
        destruct (decide (rc0 = rc)) as [->|Hne];
        [by rewrite decide_True|rewrite decide_False; [done|congruence]
        |by rewrite decide_True|rewrite decide_False; [done|congruence]].
  - split.
    + intros rc. destruct (Hb rc) as [H1 H2].
      destruct fam; simpl; rewrite ?counter_incr, per_peer_incr2; lia.
    + intros rc. destruct fam; simpl; rewrite counter_incr;
        destruct (decide (rc0 = rc)) as [->|Hne];
        [by rewrite decide_True|rewrite decide_False; [done|congruence]
        |by rewrite decide_True|rewrite decide_False; [done|congruence]].
Qed.

Lemma init_balanced : counter_balanced init.
Proof. intros rc. unfold counter. simpl. rewrite !lookup_empty. simpl. by rewrite ksum_empty. Qed.

Lemma run_balanced (evs : list event) (o : t) :
  counter_balanced o ->
  counter_balanced (run evs o) /\
  forall rc,
    counter (n_updates (run evs o)) rc
    = counter (n_updates o) rc + Z.of_nat (updates_of rc evs).
Proof.
  revert o. induction evs as [|e evs IH]; intros o Hb.
  - split; [done|]. intros rc. unfold updates_of. rewrite filter_nil. simpl. lia.
  - destruct (deliver_balanced e o Hb) as [Hb1 Hn1].
    destruct (IH (deliver e o) Hb1) as [Hb2 Hn2].
    change (run (e :: evs) o) with (run evs (deliver e o)).
    split; [done|]. intros rc. rewrite Hn2, Hn1. unfold updates_of.
    rewrite filter_cons. destruct (decide (update_collector e = Some rc)); simpl; lia.
Qed.

(** After any sequence of calls on a new update counter, the number of
    updates of a collector is the number of withdrawal and announcement
    calls made for it, the sum of its four counters by type and family,
    and the sum of the counters of its peers. The calls of [build] count
    for nothing. *)
Theorem update_counter_balanced (evs : list event) (rc : string) :
  counter (n_updates (run evs init)) rc = Z.of_nat (updates_of rc evs) /\
  counter_balanced (run evs init).
Proof.
  destruct (run_balanced evs init init_balanced) as [Hb Hn]. split; [|done].
  rewrite Hn. unfold counter. simpl. by rewrite lookup_empty.
Qed.

End UpdateCounter.

(** ** Records that change nothing *)

Section Ignored.
Import RIBTable.

(** A record in the window with at least six fields changes neither the
    observers nor the table when the filter drops its peer (whatever the
    rest of the record holds), when it is neither a withdrawal of six
    fields nor an announcement of fifteen, or when its peer is not tracked
    by the collector and, for an announcement, the ASN of the peer can be
    read. *)
Theorem record_ignored
    (peer_ip_filter : list string) (ts_start ts_end : Z) (rc : string)
    (u : update_record) (peer_ip : string) (w : work) :
  in_window ts_start ts_end u ->
  (6 <= length (update_fields u))%nat ->
  update_fields u !! 3%nat = Some peer_ip ->
  ~ passes peer_ip_filter (update_fields u) \/
  (is_withdrawal (update_fields u) = false /\
   is_announcement (update_fields u) = false) \/
  (w.2 !! peer_ip = None /\
   (is_announcement (update_fields u) = true -> ~ asn_unreadable (update_fields u))) ->
  update_turn peer_ip_filter ts_start ts_end rc u w = Ok (Continue w).
Proof.
  intros Hwin Hlen Hpeer Hcase.
  rewrite (update_turn_within peer_ip_filter ts_start ts_end rc u w Hwin).
  cut (apply_update peer_ip_filter rc (update_fields u) w = Ok w).
  { intros ->. done. }
  unfold apply_update. rewrite Hpeer.
  destruct (update_fields u !! 2%nat) as [ty|] eqn:H2.
  2:{ apply lookup_ge_None in H2. lia. }
  destruct (update_fields u !! 5%nat) as [pfx|] eqn:H5.
  2:{ apply lookup_ge_None in H5. lia. }
  pose proof (not_passes_filter peer_ip_filter (update_fields u) peer_ip Hpeer) as Hpass.
  destruct (negb _ && negb _) eqn:Hf; [done|].
  destruct Hcase as [Hno|[[Hw Ha]|[Hnone Hasn]]].
  - exfalso. apply Hno. by apply Hpass.
  - unfold is_withdrawal, is_announcement in Hw, Ha. rewrite H2 in Hw, Ha.
    by rewrite Hw, Ha.
  - rewrite Hnone.
    destruct (bool_decide (length (update_fields u) = 6%nat) && String.eqb ty "W");
      [done|].
    destruct (bool_decide (length (update_fields u) = 15%nat) && String.eqb ty "A")
      eqn:Ha; [|done].
    assert (Hann : is_announcement (update_fields u) = true)
      by (unfold is_announcement; by rewrite H2).
    specialize (Hasn Hann). unfold asn_unreadable in Hasn.
    destruct (update_fields u !! 4%nat) as [text|] eqn:H4; simpl in *; [|done].
    by destruct (Py.int text).
Qed.

Lemma record_ignored_witness :
  update_turn ["9.9.9.9"%string] 0 (100 * one_second) "rrc00"
    (Scenario.announce 5 "1.2.3.4" "not a number" "10.0.0.0/24" "100 200 400")
    (Scenario.observers, Scenario.rib)
  = Ok (Continue (Scenario.observers, Scenario.rib)).
Proof.
  apply (record_ignored ["9.9.9.9"%string] 0 (100 * one_second) "rrc00"
           (Scenario.announce 5 "1.2.3.4" "not a number" "10.0.0.0/24" "100 200 400")
           "1.2.3.4" (Scenario.observers, Scenario.rib)).
  - unfold in_window, one_second. simpl. lia.
  - simpl. lia.
  - reflexivity.
  - left. intros [Hf|(p & Hp & Hin)]; [done|].
    injection Hp as <-. apply list_elem_of_singleton in Hin. done.
Defined.

End Ignored.

(** ** [dict_diff] and the log of [compare] *)

Section Difference.
Import RIBTable.

Lemma dict_diff_added (dict1 dict2 : pfx_to_path) (k : string) :
  (dict_diff dict1 dict2).1.1 !! k
  = match dict1 !! k with
    | None => dict2 !! k
    | Some _ => None
    end.
Proof.
  unfold dict_diff. simpl.
  destruct (dict2 !! k) as [v|] eqn:E2.
  - destruct (dict1 !! k) as [x|] eqn:E1.
    + apply map_lookup_filter_None. right. intros v' Hv'. simpl. by rewrite E1.
    + apply map_lookup_filter_Some. by split.
  - assert (filter (fun kv : string * path => dict1 !! kv.1 = None) dict2 !! k = None)
      as -> by (apply map_lookup_filter_None; by left).
    by destruct (dict1 !! k).
Qed.

Lemma dict_diff_removed (dict1 dict2 : pfx_to_path) (k : string) :
  (dict_diff dict1 dict2).1.2 !! k
  = match dict2 !! k with
    | None => dict1 !! k
    | Some _ => None
    end.
Proof.
  unfold dict_diff. simpl.
  destruct (dict1 !! k) as [v|] eqn:E1.
  - destruct (dict2 !! k) as [x|] eqn:E2.
    + apply map_lookup_filter_None. right. intros v' Hv'. simpl. by rewrite E2.
    + apply map_lookup_filter_Some. by split.
  - assert (filter (fun kv : string * path => dict2 !! kv.1 = None) dict1 !! k = None)
      as -> by (apply map_lookup_filter_None; by left).
    by destruct (dict2 !! k).
Qed.

Lemma dict_diff_modified (dict1 dict2 : pfx_to_path) (k : string) :
  (dict_diff dict1 dict2).2 !! k
  = match dict1 !! k, dict2 !! k with
    | Some x, Some y => if decide (x = y) then None else Some (x, y)
    | _, _ => None
    end.
Proof.
  unfold dict_diff. simpl. rewrite lookup_merge.
  by destruct (dict1 !! k), (dict2 !! k).
Qed.

Lemma dict_diff_empty_iff (dict1 dict2 : pfx_to_path) :
  dict_diff dict1 dict2 = (∅, ∅, ∅) <-> dict1 = dict2.
Proof.
  split.
  - intros Hd. apply map_eq. intros k.
    pose proof (dict_diff_added dict1 dict2 k) as Ha.
    pose proof (dict_diff_removed dict1 dict2 k) as Hr.
    pose proof (dict_diff_modified dict1 dict2 k) as Hm.
    rewrite Hd in Ha, Hr, Hm. cbn [fst snd] in Ha, Hr, Hm.
    rewrite lookup_empty in Ha. rewrite lookup_empty in Hr. rewrite lookup_empty in Hm.
    destruct (dict1 !! k) as [x|], (dict2 !! k) as [y|]; try done.
    destruct (decide (x = y)); congruence.
  - intros <-.
    assert (H1 : (dict_diff dict1 dict1).1.1 = ∅).
    { apply map_eq. intros k. rewrite dict_diff_added, lookup_empty.
      by destruct (dict1 !! k). }
    assert (H2 : (dict_diff dict1 dict1).1.2 = ∅).
    { apply map_eq. intros k. rewrite dict_diff_removed, lookup_empty.
      by destruct (dict1 !! k). }
    assert (H3 : (dict_diff dict1 dict1).2 = ∅).
    { apply map_eq. intros k. rewrite dict_diff_modified, lookup_empty.
      destruct (dict1 !! k); [|done]. by rewrite decide_True. }
    destruct (dict_diff dict1 dict1) as [[a r] m]. simpl in *. by subst.
Qed.

(** The three parts of [dict_diff] are empty exactly when the two tables
    are equal, and in any case the second table can be read off the first
    one and the three parts. *)
Theorem dict_diff_complete (dict1 dict2 : pfx_to_path) :
  (dict_diff dict1 dict2 = (∅, ∅, ∅) <-> dict1 = dict2) /\
  (forall k, patched dict1 (dict_diff dict1 dict2) k = dict2 !! k).
Proof.
  split; [apply dict_diff_empty_iff|].
  intros k. unfold patched.
  rewrite dict_diff_added, dict_diff_removed, dict_diff_modified.
  destruct (dict1 !! k) as [x|], (dict2 !! k) as [y|]; try done.
  by destruct (decide (x = y)); subst.
Qed.

Lemma size_added (dict1 dict2 : pfx_to_path) :
  size (dict_diff dict1 dict2).1.1 = size (dom dict2 ∖ dom dict1).
Proof.
  rewrite <- size_dom. f_equal. apply set_eq. intros k.
  rewrite elem_of_dom, dict_diff_added, elem_of_difference, !elem_of_dom.
  destruct (dict1 !! k) as [x|], (dict2 !! k) as [y|]; split;
    try (intros [? ?]; done); try (intros [[? ?] ?]; done).
  intros [_ Hn]. exfalso. apply Hn. by eexists.
Qed.

Lemma size_removed (dict1 dict2 : pfx_to_path) :
  size (dict_diff dict1 dict2).1.2 = size (dom dict1 ∖ dom dict2).
Proof.
  rewrite <- size_dom. f_equal. apply set_eq. intros k.
  rewrite elem_of_dom, dict_diff_removed, elem_of_difference, !elem_of_dom.
  destruct (dict1 !! k) as [x|], (dict2 !! k) as [y|]; split;
    try (intros [? ?]; done); try (intros [[? ?] ?]; done).
  intros [_ Hn]. exfalso. apply Hn. by eexists.
Qed.

Lemma size_modified (dict1 dict2 : pfx_to_path) :
  size (dict_diff dict1 dict2).2 = size (differing dict1 dict2).
Proof.
  rewrite <- size_dom. f_equal. apply set_eq. intros k. unfold differing.
  rewrite elem_of_dom, dict_diff_modified, elem_of_filter, elem_of_intersection,
    !elem_of_dom.
  destruct (dict1 !! k) as [x|], (dict2 !! k) as [y|]; split;
    try (intros [? ?]; done); try (intros (_ & [? ?] & [? ?]); done).
  - destruct (decide (x = y)) as [->|Hne]; [by intros [? ?]|].
    intros _. split; [congruence|]. split; by eexists.
  - intros [Hne _]. rewrite decide_False by congruence. by eexists.
Qed.

(** What [compare] logs for a peer of the own store: nothing when the
    other store holds no entry for the peer, even if the own table has
    some; otherwise the check, followed by [No RIB reconstruction error]
    exactly when the two tables are equal, and else by the numbers of
    prefixes only in the other table, only in the own table, and in both
    with different paths. *)
Theorem compare_peer_log (rc peer_ip : string) (own_routes : pfx_to_path)
    (acc : peer_to_pfx_to_path * list log_record) :
  (compare_peer rc peer_ip own_routes acc).2
  = acc.2 ++
    (if decide (default ∅ (acc.1 !! peer_ip) = ∅) then []
     else [InfoRibCheck peer_ip rc;
           if decide (own_routes = default ∅ (acc.1 !! peer_ip)) then InfoNoRibError
           else InfoRibDiff
                  (size (dom (default ∅ (acc.1 !! peer_ip)) ∖ dom own_routes))
                  (size (dom own_routes ∖ dom (default ∅ (acc.1 !! peer_ip))))
                  (size (differing own_routes (default ∅ (acc.1 !! peer_ip))))]).
Proof.
  unfold compare_peer. set (other := default ∅ (acc.1 !! peer_ip)).
  destruct (decide (other = ∅)) as [He|He].
  - rewrite bool_decide_eq_true_2 by (by rewrite He, map_size_empty).
    simpl. by rewrite app_nil_r.
  - rewrite bool_decide_eq_false_2 by (by rewrite map_size_empty_iff).
    cbv zeta. cbn [snd]. f_equal. f_equal. f_equal.
    destruct (decide (own_routes = other)) as [Heq|Hne].
    + rewrite bool_decide_eq_true_2; [done|]. rewrite Heq.
      rewrite (proj2 (dict_diff_empty_iff other other) eq_refl). simpl.
      by rewrite !map_size_empty.
    + rewrite bool_decide_eq_false_2.
      { by rewrite size_added, size_removed, size_modified. }
      intros [= Ha Hr Hm]. apply Hne.
      apply (proj1 (dict_diff_empty_iff own_routes other)).
      apply map_size_empty_iff in Ha, Hr, Hm.
      unfold dict_diff in *. cbn [fst snd] in *. by rewrite Ha, Hr, Hm.
Qed.

End Difference.

(** ** When [compare] returns *)

Section CompareReturns.
Import RIBTable.

Lemma compare_ribs_cases (own : list (string * peer_to_pfx_to_path))
    (acc : gmap string peer_to_pfx_to_path * list log_record) :
  ((exists acc', compare_ribs own acc = Ok acc') /\
   Forall (fun e => e.2 <> ∅ -> is_Some (acc.1 !! e.1)) own) \/
  (compare_ribs own acc = Raise KeyError /\
   Exists (fun e => e.2 <> ∅ /\ acc.1 !! e.1 = None) own).
Proof.
  revert acc. induction own as [|[rc rib] own IH]; intros acc.
  { left. split; [by eexists|constructor]. }
  simpl. case_bool_decide as Hrib.
  - destruct (IH acc) as [[Hok Hall]|[Hr Hex]].
    + left. split; [done|]. constructor; [done|done].
    + right. split; [done|]. by apply Exists_cons_tl.
  - destruct (acc.1 !! rc) as [other_rib|] eqn:Hrc.
    + set (r := fold_left _ _ _).
      assert (Hsame : forall k, is_Some ((<[rc := r.1]> acc.1) !! k)
                                <-> is_Some (acc.1 !! k)).
      { intros k. destruct (decide (rc = k)) as [<-|Hne].
        - rewrite lookup_insert_eq, Hrc. split; by eexists.
        - by rewrite lookup_insert_ne. }
      destruct (IH (<[rc := r.1]> acc.1, r.2)) as [[Hok Hall]|[Hr Hex]].
      * left. split; [done|]. constructor; [by eexists|].
        eapply Forall_impl; [exact Hall|]. intros e He Hne. simpl in He.
        apply Hsame. by apply He.
      * right. split; [done|]. apply Exists_cons_tl.
        eapply Exists_impl; [exact Hex|]. intros e [Hne He]. simpl in He.
        split; [done|]. apply eq_None_not_Some. intros Hs.
        apply Hsame in Hs. rewrite He in Hs. by destruct Hs.
    + right. split; [done|]. by apply Exists_cons_hd.
Qed.

Lemma observer_compare_cases (own other : observer_state) :
  ((exists s, observer_compare own other = Ok s) /\ compatible own other) \/
  ((exists e, observer_compare own other = Raise e /\ e <> KeyError) /\
   ~ compatible own other).
Proof.
  destruct own, other; simpl;
    first [left; split; [by eexists|done]
          |right; split; [eexists; split; [done|done]|tauto]].
Qed.

Lemma compare_with_cases (other : observer) (own : list observer) :
  ((exists own', compare_with other own = Ok own') /\
   Forall (fun o => name other = name o -> compatible (state o) (state other)) own) \/
  ((exists e, compare_with other own = Raise e /\ e <> KeyError) /\
   Exists (fun o => name other = name o /\ ~ compatible (state o) (state other)) own).
Proof.
  induction own as [|o own IH].
  { left. split; [by eexists|constructor]. }
  simpl. destruct (String.eqb (name other) (name o)) eqn:Hn.
  - apply String.eqb_eq in Hn.
    destruct (observer_compare_cases (state o) (state other))
      as [[[s ->] Hc]|[(e & -> & He) Hc]]; simpl.
    + destruct IH as [[[own' ->] Hall]|[(e & -> & He) Hex]]; simpl.
      * left. split; [by eexists|]. by constructor.
      * right. split; [by exists e|]. by apply Exists_cons_tl.
    + right. split; [by exists e|]. by apply Exists_cons_hd.
  - apply String.eqb_neq in Hn. simpl.
    destruct IH as [[[own' ->] Hall]|[(e & -> & He) Hex]]; simpl.
    + left. split; [by eexists|]. by constructor.
    + right. split; [by exists e|]. by apply Exists_cons_tl.
Qed.

Lemma pruned_compatible (o o1 : observer) (s : observer_state) :
  pruned_or_same o o1 ->
  name o1 = name o /\ (compatible (state o1) s <-> compatible (state o) s).
Proof.
  intros [Hn [Hs|(g & Hg & Hs)]]; split; try done.
  - by rewrite Hs.
  - by rewrite Hs, Hg.
Qed.

Lemma pruned_Forall (own own1 : list observer) (other : observer) :
  Forall2 pruned_or_same own own1 ->
  Forall (fun o => name other = name o -> compatible (state o) (state other)) own1 <->
  Forall (fun o => name other = name o -> compatible (state o) (state other)) own.
Proof.
  induction 1 as [|o o1 own own1 Ho _ IH]; [done|].
  destruct (pruned_compatible o o1 (state other) Ho) as [Hn Hc].
  rewrite !Forall_cons, IH, Hn, Hc. done.
Qed.

Lemma pruned_Exists (own own1 : list observer) (other : observer) :
  Forall2 pruned_or_same own own1 ->
  Exists (fun o => name other = name o /\ ~ compatible (state o) (state other)) own1 <->
  Exists (fun o => name other = name o /\ ~ compatible (state o) (state other)) own.
Proof.
  induction 1 as [|o o1 own own1 Ho _ IH]; [done|].
  destruct (pruned_compatible o o1 (state other) Ho) as [Hn Hc].
  rewrite !Exists_cons, IH, Hn, Hc. done.
Qed.

Lemma compare_observers_cases (others own : list observer) :
  ((exists own', compare_observers others own = Ok own') /\
   Forall (fun o' =>
             Forall (fun o => name o' = name o -> compatible (state o) (state o')) own)
     others) \/
  ((exists e, compare_observers others own = Raise e /\ e <> KeyError) /\
   Exists (fun o' =>
             Exists (fun o => name o' = name o /\ ~ compatible (state o) (state o')) own)
     others).
Proof.
  revert own. induction others as [|other others IH]; intros own.
  { left. split; [by eexists|constructor]. }
  simpl. destruct (compare_with_cases other own)
    as [[[own1 Hown1] Hall]|[(e & -> & He) Hex]]; simpl.
  - rewrite Hown1. simpl. apply compare_with_pruned in Hown1.
    destruct (IH own1) as [[Hok Hrest]|[Hr Hrest]].
    + left. split; [done|]. constructor; [done|].
      eapply Forall_impl; [exact Hrest|]. intros o' Ho'.
      by apply (proj1 (pruned_Forall own own1 o' Hown1)).
    + right. split; [done|]. apply Exists_cons_tl.
      eapply Exists_impl; [exact Hrest|]. intros o' Ho'.
      by apply (proj1 (pruned_Exists own own1 o' Hown1)).
  - right. split; [by exists e|]. by apply Exists_cons_hd.
Qed.

(** [compare] returns exactly when the other store has a table for every
    collector of the own store that tracks a peer, and no observer of the
    own store that shares its name with an observer of the other store is
    a multigraph observer, or a graph observer facing an observer without
    graphs. It raises [KeyError] exactly when such a table is missing. *)
Theorem compare_returns_iff (self other : t) :
  ((exists r, compare self other = Ok r) <->
   (forall rc rib, data self !! rc = Some rib -> rib <> ∅ ->
      is_Some (data other !! rc)) /\
   (forall o' o, o' ∈ _observers other -> o ∈ _observers self ->
      name o' = name o -> compatible (state o) (state o'))) /\
  (compare self other = Raise KeyError <->
   exists rc rib, data self !! rc = Some rib /\ rib <> ∅ /\ data other !! rc = None).
Proof.
  unfold compare.
  destruct (compare_ribs_cases (map_to_list (data self)) (data other, []))
    as [[[r Hr] Hall]|[Hr Hex]].
  - assert (Hdata : forall rc rib, data self !! rc = Some rib -> rib <> ∅ ->
                      is_Some (data other !! rc)).
    { intros rc rib Hrc Hne. rewrite Forall_forall in Hall.
      apply (Hall (rc, rib)); [by apply elem_of_map_to_list|done]. }
    assert (Hnokey : ~ exists rc rib,
                       data self !! rc = Some rib /\ rib <> ∅ /\ data other !! rc = None).
    { intros (rc & rib & Hrc & Hne & Hnone).
      destruct (Hdata rc rib Hrc Hne) as [x Hx]. congruence. }
    rewrite Hr. simpl.
    destruct (compare_observers_cases (_observers other) (_observers self))
      as [[[obs Hobs] Hcompat]|[(e & He & Hne) Hbad]]; rewrite ?Hobs, ?He; simpl.
    + split; split.
      * intros _. split; [done|]. intros o' o Hin' Hin Hn.
        rewrite Forall_forall in Hcompat. specialize (Hcompat o' Hin').
        rewrite Forall_forall in Hcompat. by apply Hcompat.
      * intros _. by eexists.
      * intros H. discriminate H.
      * intros H. by destruct Hnokey.
    + split; split.
      * intros [? H]. discriminate H.
      * intros [_ Hc]. exfalso.
        apply Exists_exists in Hbad as (o' & Hin' & Hbad).
        apply Exists_exists in Hbad as (o & Hin & Hn & Hno).
        apply Hno. by apply Hc.
      * intros [= ->]. done.
      * intros H. by destruct Hnokey.
  - rewrite Hr. simpl.
    assert (Hkey : exists rc rib,
               data self !! rc = Some rib /\ rib <> ∅ /\ data other !! rc = None).
    { apply Exists_exists in Hex as ([rc rib] & Hin & Hne & Hnone).
      apply elem_of_map_to_list in Hin. by exists rc, rib. }
    split; split.
    + intros [? H]. discriminate H.
    + intros [Hdata _]. destruct Hkey as (rc & rib & Hrc & Hne & Hnone).
      destruct (Hdata rc rib Hrc Hne) as [x Hx]. congruence.
    + done.
    + done.
Qed.

End CompareReturns.

(** ** The instants the driver works with *)

Section Driver.
Import BGPDownloader.

Lemma argmin_from_least (best : Z) (best_i i : nat) (l : list Z) :
  Forall (fun x => best <= x) l -> argmin_from best best_i i l = best_i.
Proof.
  revert i. induction l as [|x l IH]; intros i Hall; [done|].
  apply Forall_cons in Hall as [Hx Hall]. simpl.
  destruct (x <? best) eqn:E; [apply Z.ltb_lt in E; lia|]. by apply IH.
Qed.

Lemma argmin_from_first (best : Z) (best_i i : nat) (l : list Z) (k : nat) (v : Z) :
  l !! k = Some v -> v < best ->
  (forall j x, (j < k)%nat -> l !! j = Some x -> v < x) ->
  (forall j x, (k < j)%nat -> l !! j = Some x -> v <= x) ->
  argmin_from best best_i i l = (i + k)%nat.
Proof.
  revert best best_i i k. induction l as [|x l IH]; intros best best_i i k; [done|].
  destruct k as [|k]; simpl.
  - intros [= ->] Hv _ Hafter. rewrite (proj2 (Z.ltb_lt _ _) Hv).
    rewrite argmin_from_least; [lia|].
    apply Forall_forall. intros y Hy. apply list_elem_of_lookup in Hy as [j Hj].
    apply (Hafter (S j)); [lia|done].
  - intros Hk Hv Hbefore Hafter.
    assert (Hx : v < x) by (apply (Hbefore 0%nat); [lia|done]).
    assert (Hb : forall j y, (j < k)%nat -> l !! j = Some y -> v < y)
      by (intros j y Hj Hy; apply (Hbefore (S j)); [lia|done]).
    assert (Ha : forall j y, (k < j)%nat -> l !! j = Some y -> v <= y)
      by (intros j y Hj Hy; apply (Hafter (S j)); [lia|done]).
    destruct (x <? best); rewrite (IH _ _ _ k) by done; lia.
Qed.

Lemma argmin_first (l : list Z) (k : nat) (v : Z) :
  l !! k = Some v ->
  (forall j x, (j < k)%nat -> l !! j = Some x -> v < x) ->
  (forall j x, (k < j)%nat -> l !! j = Some x -> v <= x) ->
  argmin l = Some k.
Proof.
  destruct l as [|x l]; [done|]. destruct k as [|k]; simpl.
  - intros [= ->] _ Hafter. rewrite argmin_from_least; [done|].
    apply Forall_forall. intros y Hy. apply list_elem_of_lookup in Hy as [j Hj].
    apply (Hafter (S j)); [lia|done].
  - intros Hk Hbefore Hafter. rewrite (argmin_from_first _ _ _ _ k v); try done.
    + apply (Hbefore 0%nat); [lia|done].
    + intros j y Hj Hy. apply (Hbefore (S j)); [lia|done].
    + intros j y Hj Hy. apply (Hafter (S j)); [lia|done].
Qed.

Lemma grid_lookup (base step : Z) (n i : nat) :
  (i < n)%nat -> grid base step n !! i = Some (base + Z.of_nat i * step).
Proof.
  intros Hi. unfold grid. rewrite list_lookup_fmap, lookup_seq_lt by done. done.
Qed.

Lemma grid_lookup_Some (base step : Z) (n i : nat) (x : Z) :
  grid base step n !! i = Some x -> (i < n)%nat /\ x = base + Z.of_nat i * step.
Proof.
  unfold grid. rewrite list_lookup_fmap. intros Hx.
  destruct (seq 0 n !! i) as [j|] eqn:E; [|done].
  apply lookup_seq in E as [-> Hi]. simpl in Hx. injection Hx as <-. done.
Qed.

(** On a grid of even step the closest instant is the one at most half a
    step away, the earlier one of two at the same distance. *)
Lemma closest_grid (base h : Z) (n : nat) (t : Z) :
  0 < h ->
  base <= t + h - 1 ->
  (t - base + h - 1) / (2 * h) < Z.of_nat n ->
  exists m,
    closest t (grid base (2 * h) n) = Some m /\
    (exists j, 0 <= j < Z.of_nat n /\ m = base + j * (2 * h)) /\
    t - h <= m < t + h.
Proof.
  intros Hh Hbase Hn. set (q := (t - base + h - 1) / (2 * h)).
  assert (Hq0 : 0 <= q) by (apply Z.div_pos; lia).
  assert (Hq1 : 2 * h * q <= t - base + h - 1) by (apply Z.mul_div_le; lia).
  assert (Hq2 : t - base + h - 1 < 2 * h * Z.succ q)
    by (apply Z.mul_succ_div_gt; lia).
  exists (base + q * (2 * h)). split; [|split; [exists q; fold q in Hn; lia|lia]].
  unfold closest.
  assert (Hk : (Z.to_nat q < n)%nat) by (fold q in Hn; lia).
  rewrite (argmin_first _ (Z.to_nat q) (Z.abs (base + q * (2 * h) - t))).
  - simpl. rewrite grid_lookup by done. f_equal. lia.
  - rewrite list_lookup_fmap, grid_lookup by done. simpl. do 2 f_equal. lia.
  - intros j x Hj. rewrite list_lookup_fmap. intros Hx.
    destruct (grid base (2 * h) n !! j) as [c|] eqn:E; [|done].
    apply grid_lookup_Some in E as [_ ->]. simpl in Hx. injection Hx as <-. nia.
  - intros j x Hj. rewrite list_lookup_fmap. intros Hx.
    destruct (grid base (2 * h) n !! j) as [c|] eqn:E; [|done].
    apply grid_lookup_Some in E as [_ ->]. simpl in Hx. injection Hx as <-. nia.
Qed.

Lemma midnight_bounds (ts : Z) : midnight ts <= ts < midnight ts + one_day.
Proof.
  unfold midnight. assert (0 < one_day) by (by vm_compute).
  pose proof (Z.mul_div_le ts one_day). pose proof (Z.mul_succ_div_gt ts one_day). lia.
Qed.

Lemma on_the_hour_bounds (ts : Z) : on_the_hour ts <= ts < on_the_hour ts + one_hour.
Proof.
  unfold on_the_hour. assert (0 < one_hour) by (by vm_compute).
  pose proof (Z.mul_div_le ts one_hour). pose proof (Z.mul_succ_div_gt ts one_hour). lia.
Qed.

Lemma closest_of_grid (base h : Z) (n : nat) (t : Z) :
  0 < h ->
  base <= t + h - 1 ->
  (t - base + h - 1) / (2 * h) < Z.of_nat n ->
  exists m,
    closest_of t (grid base (2 * h) n) = Ok m /\
    (exists j, 0 <= j < Z.of_nat n /\ m = base + j * (2 * h)) /\
    t - h <= m < t + h.
Proof.
  intros Hh Hbase Hn.
  destruct (closest_grid base h n t Hh Hbase Hn) as (m & Hm & Hrest).
  exists m. split; [|exact Hrest]. unfold closest_of. by rewrite Hm.
Qed.

(** The loop over the collectors raises, and then [TypeError], exactly
    when a collector named [route-views...] meets an end on an even hour
    in a driver of two projects. *)
Lemma collectors_loop_outcome (projects : gset project) (ts_end : Z)
    (collectors : list string) (compare : bool) :
  (raises_type_error projects collectors ts_end ->
   collectors_loop projects ts_end collectors compare = Raise TypeError) /\
  (~ raises_type_error projects collectors ts_end ->
   exists compare', collectors_loop projects ts_end collectors compare = Ok compare').
Proof.
  unfold raises_type_error.
  revert compare. induction collectors as [|rc rest IH]; intros compare.
  { split.
    - intros (_ & (rc & Hin & _) & _). by apply elem_of_nil in Hin.
    - intros _. by eexists. }
  simpl. unfold collector_turn.
  set (compare1 := if String.prefix "rrc" rc && _ && _ then true else compare).
  destruct (String.prefix "route-views" rc) eqn:Hrv; simpl.
  - destruct (minute ts_end =? 0) eqn:Hmin; simpl.
    + destruct (hour ts_end mod 2 =? 0) eqn:Hhour; simpl.
      * apply Z.eqb_eq in Hmin, Hhour.
        case_bool_decide as H1.
        { simpl. split.
          - intros (H2 & _). lia.
          - intros _. apply (IH true). intros (H2 & _). lia. }
        case_bool_decide as H2.
        { simpl. split; [done|]. intros Hno. exfalso. apply Hno.
          repeat split; try done. exists rc. split; [by left|done]. }
        simpl. split; [by intros (? & _)|].
        intros _. apply (IH compare1). by intros (? & _).
      * apply Z.eqb_neq in Hhour. split; [by intros (_ & _ & _ & ?)|].
        intros _. apply (IH compare1). by intros (_ & _ & _ & ?).
    + apply Z.eqb_neq in Hmin. split; [by intros (_ & _ & ? & _)|].
      intros _. apply (IH compare1). by intros (_ & _ & ? & _).
  - assert (Hsame : (exists rc', rc' ∈ rc :: rest /\ String.prefix "route-views" rc' = true)
                    <-> (exists rc', rc' ∈ rest /\ String.prefix "route-views" rc' = true)).
    { split; intros (rc' & Hin & Hp).
      - apply elem_of_cons in Hin as [->|Hin]; [congruence|]. by exists rc'.
      - exists rc'. split; [by right|done]. }
    rewrite Hsame. apply (IH compare1).
Qed.

(** [set_urls] always finds its two instants. The new start is a RIB
    instant of the grid of the day (every eight hours from midnight with
    RIS, every two hours otherwise) at most half a step from the start
    asked for; the new end is on a quarter of an hour, at most seven and a
    half minutes from the end asked for. Of two instants at the same
    distance the earlier one is taken. With these instants [set_urls]
    raises [TypeError] when the driver has two projects, a collector whose
    name starts with [route-views], and the new end is on an even hour;
    in every other case it returns, with the two instants as its new
    window. *)
Theorem set_urls_snaps (projects : gset project) (collectors : list string)
    (compare : bool) (ts_start ts_end : Z) :
  exists new_start new_end,
    (exists j, new_start = midnight ts_start + j * rib_step projects) /\
    2 * ts_start - rib_step projects <= 2 * new_start
      < 2 * ts_start + rib_step projects /\
    (exists j, new_end = on_the_hour ts_end + j * (RV_UPDATE_RES * one_second)) /\
    2 * ts_end - RV_UPDATE_RES * one_second <= 2 * new_end
      < 2 * ts_end + RV_UPDATE_RES * one_second /\
    (raises_type_error projects collectors new_end ->
     set_urls projects collectors compare ts_start ts_end = Raise TypeError) /\
    (~ raises_type_error projects collectors new_end ->
     exists p,
       set_urls projects collectors compare ts_start ts_end = Ok p /\
       plan_ts_start p = new_start /\ plan_ts_end p = new_end).
Proof.
  pose proof (midnight_bounds ts_start) as Hm.
  pose proof (on_the_hour_bounds ts_end) as Hh.
  assert (Hday : one_day = 86400000000) by reflexivity.
  assert (Hhour : one_hour = 3600000000) by reflexivity.
  assert (Hsec : one_second = 1000000) by reflexivity.
  assert (Hend : exists e,
             closest_of ts_end
               (grid (on_the_hour ts_end - one_hour) (RV_UPDATE_RES * one_second) 10)
             = Ok e /\
             (exists j, e = on_the_hour ts_end + j * (RV_UPDATE_RES * one_second)) /\
             2 * ts_end - RV_UPDATE_RES * one_second <= 2 * e
               < 2 * ts_end + RV_UPDATE_RES * one_second).
  { destruct (closest_of_grid (on_the_hour ts_end - one_hour) 450000000 10 ts_end)
      as (e & He & (j & Hj & Hej) & Hbound).
    - lia.
    - lia.
    - apply Z.div_lt_upper_bound; lia.
    - exists e. unfold RV_UPDATE_RES. rewrite Hsec.
      change (15 * 60 * 1000000) with (2 * 450000000). split; [exact He|].
      split; [|lia]. exists (j - 4). lia. }
  destruct Hend as (e & He & Hej & Hebound).
  assert (Hstart : exists s,
             closest_of ts_start
               (if bool_decide (RIS ∈ projects)
                then grid (midnight ts_start - one_day) (8 * one_hour) 10
                else grid (midnight ts_start - one_day) (2 * one_hour) 50)
             = Ok s /\
             (exists j, s = midnight ts_start + j * rib_step projects) /\
             2 * ts_start - rib_step projects <= 2 * s
               < 2 * ts_start + rib_step projects).
  { unfold rib_step. case_bool_decide as Hris.
    - destruct (closest_of_grid (midnight ts_start - one_day) 14400000000 10 ts_start)
        as (s & Hs & (j & Hj & Hsj) & Hbound).
      + lia.
      + lia.
      + apply Z.div_lt_upper_bound; lia.
      + replace (8 * one_hour) with (2 * 14400000000) by reflexivity.
        exists s. split; [exact Hs|]. split; [exists (j - 3); lia|lia].
    - destruct (closest_of_grid (midnight ts_start - one_day) 3600000000 50 ts_start)
        as (s & Hs & (j & Hj & Hsj) & Hbound).
      + lia.
      + lia.
      + apply Z.div_lt_upper_bound; lia.
      + replace (2 * one_hour) with (2 * 3600000000) by reflexivity.
        exists s. split; [exact Hs|]. split; [exists (j - 12); lia|lia]. }
  destruct Hstart as (s & Hs & Hsj & Hsbound).
  exists s, e. repeat (split; [done|]).
  unfold set_urls. rewrite Hs. simpl. rewrite He. simpl.
  destruct (collectors_loop_outcome projects e collectors compare) as [Hyes Hno].
  split.
  - intros Hr. by rewrite (Hyes Hr).
  - intros Hr. destruct (Hno Hr) as [c' Hc']. rewrite Hc'. simpl. by eexists.
Qed.

(** A window that ends at two o'clock with a collector of each project:
    the driver raises. The same window with the collector of RouteViews
    alone is planned. *)
Example set_urls_two_projects :
  run_set_urls ["rrc00"; "route-views2"] 0 (2 * one_hour) = Raise TypeError /\
  plan_ts_end <$> run_set_urls ["route-views2"] 0 (2 * one_hour) = Ok (2 * one_hour) /\
  plan_compare <$> run_set_urls ["route-views2"] 0 (2 * one_hour) = Ok true.
Proof. repeat split; vm_compute; reflexivity. Qed.

(** A window from five o'clock to a quarter to eight with a collector of
    RIS: the start moves to eight o'clock, after the end. *)
Example set_urls_window_out_of_order :
  (fun p => (plan_ts_start p, plan_ts_end p))
    <$> run_set_urls ["rrc00"] (5 * one_hour) (7 * one_hour + 45 * one_minute)
  = Ok (RIBTable.ts_start Scenario.out_of_order, RIBTable.ts_end Scenario.out_of_order).
Proof. vm_compute. reflexivity. Qed.

Lemma elem_of_range (a b x : Z) : x ∈ range a b <-> a <= x < b.
Proof.
  unfold range. rewrite list_elem_of_fmap. split.
  - intros (k & -> & Hk). apply elem_of_seq in Hk. lia.
  - intros Hx. exists (Z.to_nat (x - a)). split; [lia|]. apply elem_of_seq. lia.
Qed.

Lemma updates_dts_cover (res ts_start ts_end t : Z) :
  0 < res ->
  ts_start - res * one_second <= t <= ts_end + res * one_second ->
  exists dt, dt ∈ updates_dts res ts_start ts_end /\ dt <= t < dt + res * one_second.
Proof.
  intros Hres Ht. assert (Hsec : 0 < one_second) by reflexivity.
  set (R := res * one_second) in *. assert (HR : 0 < R) by (unfold R; lia).
  set (i := (t - ts_start) / R).
  assert (Hi1 : R * i <= t - ts_start) by (apply Z.mul_div_le; lia).
  assert (Hi2 : t - ts_start < R * Z.succ i) by (apply Z.mul_succ_div_gt; lia).
  exists (ts_start + i * res * one_second). split.
  - unfold updates_dts. apply list_elem_of_fmap. exists i. split; [done|].
    apply elem_of_range. fold R. split.
    + unfold i. apply Z.div_le_lower_bound; lia.
    + assert (i <= (ts_end - ts_start) / R + 1); [|lia].
      replace ((ts_end - ts_start) / R + 1) with ((ts_end - ts_start + 1 * R) / R)
        by (rewrite Z.div_add by lia; done).
      unfold i. apply Z.div_le_mono; lia.
  - unfold R in *. lia.
Qed.

(** The update files that [set_urls] lists for a project cover the
    window: every instant between one resolution before the new start and
    one resolution after the new end falls in the span of a listed file,
    of five minutes for RIS and of a quarter of an hour for RouteViews. *)
Theorem set_urls_covers (projects : gset project) (collectors : list string)
    (compare : bool) (ts_start ts_end : Z) (p : plan) (t : Z) :
  set_urls projects collectors compare ts_start ts_end = Ok p ->
  (plan_ts_start p - RIS_UPDATE_RES * one_second <= t
     <= plan_ts_end p + RIS_UPDATE_RES * one_second ->
   exists dt, dt ∈ ris_updates_dts p /\ dt <= t < dt + RIS_UPDATE_RES * one_second) /\
  (plan_ts_start p - RV_UPDATE_RES * one_second <= t
     <= plan_ts_end p + RV_UPDATE_RES * one_second ->
   exists dt, dt ∈ rv_updates_dts p /\ dt <= t < dt + RV_UPDATE_RES * one_second).
Proof.
  unfold set_urls.
  destruct (closest_of ts_start _) as [s|]; [|done]. simpl.
  destruct (closest_of ts_end _) as [e|]; [|done]. simpl.
  destruct (collectors_loop projects e collectors compare) as [c|]; [|done]. simpl.
  intros [= <-]. simpl. split; intros Ht; by apply updates_dts_cover.
Qed.

Example two_hours_plan_set :
  set_urls {[RIS]} ["rrc00"] false 1 (2 * one_hour + 1) = Ok two_hours_plan.
Proof. vm_compute. reflexivity. Qed.

Lemma set_urls_covers_witness :
  exists dt,
    dt ∈ ris_updates_dts two_hours_plan /\
    dt <= 2 * one_hour + 1 < dt + RIS_UPDATE_RES * one_second.
Proof.
  apply (proj1 (set_urls_covers {[RIS]} ["rrc00"] false 1 (2 * one_hour + 1)
                  two_hours_plan (2 * one_hour + 1) two_hours_plan_set)).
  vm_compute. split; discriminate.
Defined.

(** When the interval between two dumps is a positive multiple of the
    resolution of the update files, every instant at which
    [warm_update_process] plans a dump is the instant of an update file,
    after the start and not after the end. *)
Theorem output_files_on_updates (interval res k ts_start ts_end : Z) (outs : list Z)
    (out : Z) :
  0 < res -> 0 < k -> interval = k * res -> ts_start <= ts_end ->
  output_files interval ts_start ts_end = Some outs ->
  out ∈ outs ->
  out ∈ updates_dts res ts_start ts_end /\ ts_start < out <= ts_end.
Proof.
  intros Hres Hk -> Hle. unfold output_files.
  assert (Hsec : 0 < one_second) by reflexivity.
  destruct (k * res =? 0) eqn:E; [apply Z.eqb_eq in E; nia|].
  intros [= <-]. rewrite list_elem_of_fmap. intros (i & -> & Hi).
  apply elem_of_range in Hi.
  set (I := k * res * one_second) in *. assert (HI : 0 < I) by (unfold I; nia).
  rewrite Z.quot_div_nonneg in Hi by lia.
  assert (Hq : I * ((ts_end - ts_start) / I) <= ts_end - ts_start)
    by (apply Z.mul_div_le; lia).
  assert (Hout : i * I <= ts_end - ts_start) by nia.
  split; [|unfold I in *; nia].
  unfold updates_dts. apply list_elem_of_fmap. exists (i * k). split; [lia|].
  apply elem_of_range. split; [nia|].
  assert (i * k <= (ts_end - ts_start) / (res * one_second)); [|lia].
  apply Z.div_le_lower_bound; [lia|]. unfold I in Hout. lia.
Qed.

Lemma output_files_on_updates_witness :
  900 * one_second ∈ updates_dts 300 0 (2 * one_hour) /\
  0 < 900 * one_second <= 2 * one_hour.
Proof.
  apply (output_files_on_updates 900 300 3 0 (2 * one_hour)
           ((fun i => 0 + i * 900 * one_second) <$> range 1 (8 + 1))
           (900 * one_second)).
  - lia.
  - lia.
  - reflexivity.
  - vm_compute. discriminate.
  - vm_compute. reflexivity.
  - vm_compute. apply elem_of_cons. by left.
Defined.

End Driver.

(** ** The order of the lines of a RIB file *)

Section AddHopsCommute.
Context {K : Type} `{Countable K}.
Variable edge_of : string -> string -> Z -> Z -> K.
Hypothesis same_ends :
  forall rc peer_ip u v rc' peer' u' v',
    edge_of rc peer_ip u v = edge_of rc' peer' u' v' ->
    ({[u]} ∪ {[v]} : gset Z) = {[u']} ∪ {[v']}.

Lemma graph_eq (g g' : nx.graph K) :
  nx.nodes g = nx.nodes g' -> nx.counts g = nx.counts g' -> g = g'.
Proof. destruct g, g'. simpl. by intros -> ->. Qed.

Lemma add_hop_comm (rc peer_ip rc' peer' : string) (g : nx.graph K) (h h' : Z * Z) :
  add_hop (edge_of rc peer_ip) (add_hop (edge_of rc' peer') g h') h
  = add_hop (edge_of rc' peer') (add_hop (edge_of rc peer_ip) g h) h'.
Proof.
  unfold add_hop. cbv zeta.
  destruct (decide (edge_of rc peer_ip h.1 h.2 = edge_of rc' peer' h'.1 h'.2))
    as [Heq|Hne].
  - pose proof (same_ends _ _ _ _ _ _ _ _ Heq) as Hends. rewrite <- Heq.
    destruct (nx.counts g !! edge_of rc peer_ip h.1 h.2) as [c|] eqn:E; simpl;
      rewrite lookup_insert_eq; apply graph_eq; simpl; try done.
    set_solver.
  - destruct (nx.counts g !! edge_of rc peer_ip h.1 h.2) as [c|] eqn:E,
      (nx.counts g !! edge_of rc' peer' h'.1 h'.2) as [c'|] eqn:E'; simpl;
      rewrite !lookup_insert_ne by done; rewrite ?E, ?E'; apply graph_eq; simpl;
      try done; try (by apply insert_insert_ne); set_solver.
Qed.

Lemma add_hops_hop_comm (rc peer_ip rc' peer' : string) (hs : list (Z * Z))
    (g : nx.graph K) (h' : Z * Z) :
  fold_left (add_hop (edge_of rc peer_ip)) hs (add_hop (edge_of rc' peer') g h')
  = add_hop (edge_of rc' peer') (fold_left (add_hop (edge_of rc peer_ip)) hs g) h'.
Proof.
  revert g. induction hs as [|h hs IH]; intros g; [done|].
  simpl. by rewrite add_hop_comm, IH.
Qed.

Lemma graph_add_path_comm (rc peer_ip rc' peer' : string) (g : nx.graph K)
    (p p' : path) :
  graph_add_path (edge_of rc peer_ip) (graph_add_path (edge_of rc' peer') g p') p
  = graph_add_path (edge_of rc' peer') (graph_add_path (edge_of rc peer_ip) g p) p'.
Proof.
  unfold graph_add_path. generalize (hops p) (hops p'). intros hs hs'.
  revert g. induction hs' as [|h' hs' IH]; intros g; [done|].
  simpl. by rewrite IH, add_hops_hop_comm.
Qed.

Lemma base_add_path_comm (fam fam' : family) (rc peer_ip pfx rc' peer' pfx' : string)
    (p p' : path) (o : graphs K) :
  base_add_path (add_with edge_of) fam rc peer_ip pfx p
    (base_add_path (add_with edge_of) fam' rc' peer' pfx' p' o)
  = base_add_path (add_with edge_of) fam' rc' peer' pfx' p'
      (base_add_path (add_with edge_of) fam rc peer_ip pfx p o).
Proof.
  unfold base_add_path, add_with.
  destruct fam, fam'; simpl; try done; f_equal; apply graph_add_path_comm.
Qed.
End AddHopsCommute.

Section AnyOrder.
Import RIBTable.

Lemma edge_key_same_ends (u v u' v' : Z) :
  nx.edge_key u v = nx.edge_key u' v' -> ({[u]} ∪ {[v]} : gset Z) = {[u']} ∪ {[v']}.
Proof.
  destruct (edge_key_ends u v) as [-> | ->], (edge_key_ends u' v') as [-> | ->];
    intros [= -> ->]; set_solver.
Qed.

Lemma path_add_comm (pc : PathObserver.t) (p q : path) :
  PathObserver._add_path (PathObserver._add_path pc q) p
  = PathObserver._add_path (PathObserver._add_path pc p) q.
Proof.
  unfold PathObserver._add_path. destruct (decide (p = q)) as [->|Hne]; [done|].
  rewrite !lookup_insert_ne by done. by apply insert_insert_ne.
Qed.

Lemma deliver_add_comm (e e' : event) (s : observer_state) :
  is_add_path e -> is_add_path e' ->
  deliver e (deliver e' s) = deliver e' (deliver e s).
Proof.
  destruct e as [fam rc peer_ip pfx p| |]; [|done..].
  destruct e' as [fam' rc' peer' pfx' p'| |]; [|done..].
  intros _ _. destruct s as [g|g|c|pc]; simpl.
  - f_equal. apply (base_add_path_comm (fun _ _ => nx.edge_key)).
    intros; by apply edge_key_same_ends.
  - f_equal. apply (base_add_path_comm ASMultiGraphObserver.edge_of).
    unfold ASMultiGraphObserver.edge_of. intros ? ? ? ? ? ? ? ? [= Hk _].
    by apply edge_key_same_ends.
  - done.
  - f_equal. apply path_add_comm.
Qed.

Lemma run_add_permutation (evs evs' : list event) (s : observer_state) :
  Forall is_add_path evs -> evs ≡ₚ evs' -> run evs s = run evs' s.
Proof.
  intros Hadd Hp. revert s. induction Hp as [|e l l' Hp IH|e e' l|l l' l'' Hp IH Hp' IH'];
    intros s.
  - done.
  - apply Forall_cons in Hadd as [_ Hadd]. simpl. by apply IH.
  - apply Forall_cons in Hadd as [He' Hadd]. apply Forall_cons in Hadd as [He _].
    simpl. by rewrite (deliver_add_comm e e').
  - rewrite IH by done. apply IH'. by rewrite <- Hp.
Qed.

Lemma lines_events_permutation (peer_ip_filter : list string) (rc : string)
    (lines lines' : list fields) :
  lines ≡ₚ lines' ->
  lines_events peer_ip_filter rc lines ≡ₚ lines_events peer_ip_filter rc lines'.
Proof.
  unfold lines_events. induction 1 as [|x l l' _ IH|x y l|l l' l'' _ IH _ IH'].
  - done.
  - rewrite !fmap_cons. simpl. by rewrite IH.
  - rewrite !fmap_cons. simpl. rewrite !app_assoc.
    by rewrite (Permutation_app_comm (line_events _ _ y)).
  - by rewrite IH.
Qed.

Lemma build_events_permutation (peer_ip_filter : list string)
    (r1 r2 : list (string * list fields)) :
  same_lines r1 r2 ->
  build_events peer_ip_filter r1 ≡ₚ build_events peer_ip_filter r2.
Proof.
  unfold build_events. induction 1 as [|[rc l] [rc' l'] r1 r2 [Hrc Hl] _ IH]; [done|].
  cbn [fst snd] in Hrc, Hl. subst rc'. rewrite !fmap_cons. cbn [concat fst snd].
  by rewrite IH, (lines_events_permutation _ _ _ _ Hl).
Qed.

(** The observers that [build] leaves do not depend on the order in
    which the lines of each RIB file are read. *)
Theorem build_any_order (self s1 s2 : t) (r1 r2 : list (string * list fields)) :
  same_lines r1 r2 ->
  build self r1 = Ok s1 -> build self r2 = Ok s2 ->
  _observers s1 = _observers s2.
Proof.
  intros Hsame. unfold build.
  destruct (build_data (peer_ip_filter self) r1 (_observers self, ∅)) as [a1|e] eqn:E1;
    [|done].
  destruct (build_data (peer_ip_filter self) r2 (_observers self, ∅)) as [a2|e] eqn:E2;
    [|done].
  simpl. intros [= <-] [= <-]. simpl.
  apply build_data_observers in E1, E2. rewrite E1, E2. simpl.
  apply list_fmap_ext. intros i o _. unfold on_state. f_equal.
  apply run_add_permutation; [apply build_events_add|].
  by apply build_events_permutation.
Qed.

Lemma build_any_order_witness :
  exists s1 s2,
    build Scenario.fresh
      [("rrc00"%string,
        [Scenario.rib_line "1.2.3.4" "100" "10.0.0.0/24" "100 200 300";
         Scenario.rib_line "1.2.3.4" "100" "10.0.1.0/24" "100 200 400"])] = Ok s1 /\
    build Scenario.fresh
      [("rrc00"%string,
        [Scenario.rib_line "1.2.3.4" "100" "10.0.1.0/24" "100 200 400";
         Scenario.rib_line "1.2.3.4" "100" "10.0.0.0/24" "100 200 300"])] = Ok s2 /\
    _observers s1 = _observers s2.
Proof.
  assert (exists s,
            build Scenario.fresh
              [("rrc00"%string,
                [Scenario.rib_line "1.2.3.4" "100" "10.0.0.0/24" "100 200 300";
                 Scenario.rib_line "1.2.3.4" "100" "10.0.1.0/24" "100 200 400"])]
            = Ok s) as [s1 H1] by (eexists; vm_compute; reflexivity).
  assert (exists s,
            build Scenario.fresh
              [("rrc00"%string,
                [Scenario.rib_line "1.2.3.4" "100" "10.0.1.0/24" "100 200 400";
                 Scenario.rib_line "1.2.3.4" "100" "10.0.0.0/24" "100 200 300"])]
            = Ok s) as [s2 H2] by (eexists; vm_compute; reflexivity).
  exists s1, s2. split; [exact H1|]. split; [exact H2|].
  apply (build_any_order Scenario.fresh s1 s2
           [("rrc00"%string,
             [Scenario.rib_line "1.2.3.4" "100" "10.0.0.0/24" "100 200 300";
              Scenario.rib_line "1.2.3.4" "100" "10.0.1.0/24" "100 200 400"])]
           [("rrc00"%string,
             [Scenario.rib_line "1.2.3.4" "100" "10.0.1.0/24" "100 200 400";
              Scenario.rib_line "1.2.3.4" "100" "10.0.0.0/24" "100 200 300"])]);
    [|exact H1|exact H2].
  constructor; [|constructor]. split; [reflexivity|]. simpl. apply perm_swap.
Defined.

End AnyOrder.
